(** * dns_resolver: a shallow embedding of the resolver core

    The development follows the C++ sources of the repository:
    - [Hostname]      : isValidHostnameLabel / isValidHostname (DNSResolver.cpp)
    - [LRUCache]      : LRUCache.h / LRUCache.cpp
    - [RunningStats]  : interface/IMetrics.h
    - [BasicMetrics]  : BasicMetrics.h / BasicMetrics.cpp
    - [Config]        : interface/Common.h and validateConfig
    - [Cares]         : CaresQueryStrategy::selectServer and its health map
    - [Ares]          : the status codes of ares.h that the resolver tests
    - [Resolver]      : DNSResolver::resolve / handleQueryResult /
                        notifyAddressChange
    - [Samples]       : configurations and inputs of the scenarios

    Conventions.  Fixed-width unsigned integers are values of [Z] with the
    wrap-around written out ([wrap32], [wrap64]); [std::string] is [string];
    [std::vector] and [std::list] are [list]; [std::map] and
    [std::unordered_map] keyed by strings are [gmap string _]; [double] is the
    primitive binary64 type [float].  Clock readings are explicit arguments:
    counts of ticks, nanoseconds for both [std::chrono::system_clock] and
    [std::chrono::steady_clock] as in libstdc++.  Where a call reads memory
    it has released, or locks a mutex it holds, the model says so and stops
    there. *)

From Stdlib Require Import ZArith List String Ascii Lia Floats Reals Lra QArith.
From Stdlib Require Uint63.
From Stdlib Require Import Qabs.
From Stdlib Require Import Permutation Sorted.
From stdpp Require Import gmap strings list fin_maps.

Local Open Scope Z_scope.

(** ** Machine integers *)

Definition wrap32 (z : Z) : Z := z mod 2 ^ 32.
Definition wrap64 (z : Z) : Z := z mod 2 ^ 64.

(** [++x] on a [uint64_t]. *)
Definition bump (x : Z) : Z := wrap64 (x + 1).

(** The [int64_t] with the bits of [z] (two's complement). *)
Definition wrap_s64 (z : Z) : Z := (z + 2 ^ 63) mod 2 ^ 64 - 2 ^ 63.

(** ** Hostname validation (anonymous namespace of DNSResolver.cpp) *)

Module Hostname.

Definition MAX_HOSTNAME_LENGTH : nat := 253.
Definition MAX_LABEL_LENGTH : nat := 63.

(** [std::isalnum] in the "C" locale: digits and ASCII letters; no byte
    above 127 is alphanumeric. *)
Definition isalnum (c : ascii) : bool :=
  let n := nat_of_ascii c in
  ((48 <=? n)%nat && (n <=? 57)%nat)
  || ((65 <=? n)%nat && (n <=? 90)%nat)
  || ((97 <=? n)%nat && (n <=? 122)%nat).

Definition label_char (c : ascii) : bool := isalnum c || Ascii.eqb c "-".

Definition isValidHostnameLabel (label : list ascii) : bool :=
  match label with
  | [] => false
  | front :: _ =>
      if (MAX_LABEL_LENGTH <? length label)%nat then false
      else if negb (isalnum front) || negb (isalnum (List.last label front))
      then false
      else forallb label_char label
  end.

(** The loop [while (std::getline(stream, label, '.'))]: [cur] is the label
    being read.  A delimiter ends the label (which may be empty); at the
    end of the stream a label is produced only when at least one character
    was extracted, otherwise the extraction fails and the loop stops. *)
Fixpoint getline_labels (cur stream : list ascii) : list (list ascii) :=
  match stream with
  | [] => match cur with [] => [] | _ => [cur] end
  | c :: rest =>
      if Ascii.eqb c "." then cur :: getline_labels [] rest
      else getline_labels (cur ++ [c]) rest
  end.

Definition labels (hostname : string) : list (list ascii) :=
  getline_labels [] (list_ascii_of_string hostname).

Definition isValidHostname (hostname : string) : bool :=
  if (String.length hostname =? 0)%nat
     || (MAX_HOSTNAME_LENGTH <? String.length hostname)%nat
  then false
  else forallb isValidHostnameLabel (labels hostname).

(** Whether the last character of a name is a dot. *)
Fixpoint ends_with_dot (s : string) : bool :=
  match s with
  | EmptyString => false
  | String c EmptyString => Ascii.eqb c "."
  | String _ rest => ends_with_dot rest
  end.

(** What it means for a name to fail validation, clause by clause, over the
    labels that the split above delivers. *)
Definition bad_label (label : list ascii) : Prop :=
  label = []
  ∨ (MAX_LABEL_LENGTH < length label)%nat
  ∨ (∃ front, List.hd_error label = Some front ∧
              (isalnum front = false ∨ isalnum (List.last label front) = false))
  ∨ (∃ c, In c label ∧ isalnum c = false ∧ c ≠ "-"%char).

Definition fails_validation (hostname : string) : Prop :=
  hostname = ""%string
  ∨ (MAX_HOSTNAME_LENGTH < String.length hostname)%nat
  ∨ ∃ label, In label (labels hostname) ∧ bad_label label.

End Hostname.

(** ** LRUCache (LRUCache.h, LRUCache.cpp) *)

Module LRUCache.

(** [CacheEntry]: the [lru_iterator] field designates the node of
    [lru_list_] that holds the entry's own key; it is represented by that
    key.  Time points are ticks of the system clock (nanoseconds); [ttl_] is
    a [std::chrono::milliseconds]. *)
Record CacheEntry := mkEntry {
  ips : list string;
  expire_time : Z
}.

Record t := mkCache {
  max_size_ : nat;
  ttl_ : Z;
  cache_ : gmap string CacheEntry;
  lru_list_ : list string;      (* MRU at front, LRU at back *)
  hits_ : Z;
  misses_ : Z
}.

Definition new (max_size : nat) (ttl : Z) : t :=
  mkCache max_size ttl ∅ [] 0 0.

Definition TICKS_PER_MS : Z := 1000000.

(** [std::chrono::system_clock::now() + ttl_]: the milliseconds are converted
    to ticks and added to the reading, both in [int64_t].  Where one of the
    two overflows the C++ behaviour is undefined; the value here is the
    two's-complement one, and [fits] says that neither does. *)
Definition add_ttl (now ttl : Z) : Z :=
  wrap_s64 (now + wrap_s64 (ttl * TICKS_PER_MS)).

Definition fits (now ttl : Z) : Prop :=
  - 2 ^ 63 ≤ ttl * TICKS_PER_MS < 2 ^ 63
  ∧ - 2 ^ 63 ≤ now + ttl * TICKS_PER_MS < 2 ^ 63.

(** [lru_list_.erase(it)] for the node holding [hostname]. *)
Definition lru_erase (hostname : string) (l : list string) : list string :=
  filter (λ k, k ≠ hostname) l.

(** [now >= entry.expire_time] *)
Definition expired (now : Z) (e : CacheEntry) : bool := expire_time e <=? now.

(** [cleanup] erases, for every expired entry, the map node and the list
    node its iterator designates. *)
Definition cleanup (now : Z) (c : t) : t :=
  mkCache (max_size_ c) (ttl_ c)
    (filter (λ kv, expired now kv.2 = false) (cache_ c))
    (filter (λ k, match cache_ c !! k with
                  | Some e => expired now e
                  | None => false
                  end = false) (lru_list_ c))
    (hits_ c) (misses_ c).

(** What a [get] comes to: a hit with the addresses written to [ips], a
    miss, or a read of an entry that the call has erased. *)
Inductive Lookup :=
| Hit (ips : list string)
| Miss
| ErasedRead.

(** [get]: [now_cleanup] is the clock reading taken inside [cleanup], [now]
    the one taken after the lookup.  When the entry found has expired by
    [now], [cache_.erase(it)] destroys it and [entry.lru_iterator] is then
    read from the destroyed entry: the behaviour is undefined from there on,
    and the state returned with [ErasedRead] is the one before that read. *)
Definition get (hostname : string) (now_cleanup now : Z) (c : t)
  : t * Lookup :=
  let c1 := cleanup now_cleanup c in
  match cache_ c1 !! hostname with
  | None =>
      (mkCache (max_size_ c1) (ttl_ c1) (cache_ c1) (lru_list_ c1)
         (hits_ c1) (wrap64 (misses_ c1 + 1)), Miss)
  | Some entry =>
      if expired now entry then
        (mkCache (max_size_ c1) (ttl_ c1)
           (delete hostname (cache_ c1))
           (lru_list_ c1)
           (hits_ c1) (misses_ c1), ErasedRead)
      else
        (mkCache (max_size_ c1) (ttl_ c1) (cache_ c1)
           (hostname :: lru_erase hostname (lru_list_ c1))
           (wrap64 (hits_ c1 + 1)) (misses_ c1), Hit (ips entry))
  end.

(** Whether [get] finds an entry that outlives the sweep at [now_cleanup]
    and has expired at [now]. *)
Definition reads_erased (hostname : string) (now_cleanup now : Z) (c : t)
  : bool :=
  match cache_ c !! hostname with
  | Some entry => negb (expired now_cleanup entry) && expired now entry
  | None => false
  end.

Definition evict (c : t) : t :=
  match last (lru_list_ c) with
  | None => c
  | Some lru_key =>
      mkCache (max_size_ c) (ttl_ c)
        (delete lru_key (cache_ c))
        (removelast (lru_list_ c))
        (hits_ c) (misses_ c)
  end.

Definition update (hostname : string) (addrs : list string) (now : Z) (c : t)
  : t :=
  match cache_ c !! hostname with
  | Some _ =>
      mkCache (max_size_ c) (ttl_ c)
        (<[hostname := mkEntry addrs (add_ttl now (ttl_ c))]> (cache_ c))
        (hostname :: lru_erase hostname (lru_list_ c))
        (hits_ c) (misses_ c)
  | None =>
      let c1 := if decide (max_size_ c ≤ size (cache_ c))%nat
                then evict c else c in
      mkCache (max_size_ c1) (ttl_ c1)
        (<[hostname := mkEntry addrs (add_ttl now (ttl_ c1))]> (cache_ c1))
        (hostname :: lru_list_ c1)
        (hits_ c1) (misses_ c1)
  end.

Definition remove (hostname : string) (c : t) : t :=
  match cache_ c !! hostname with
  | Some _ =>
      mkCache (max_size_ c) (ttl_ c)
        (delete hostname (cache_ c))
        (lru_erase hostname (lru_list_ c))
        (hits_ c) (misses_ c)
  | None => c
  end.

Definition clear (c : t) : t :=
  mkCache (max_size_ c) (ttl_ c) ∅ [] 0 0.

Definition size (c : t) : nat := base.size (cache_ c).

(** A call of the public interface, with the clock readings it consumes. *)
Inductive op :=
| OpGet (hostname : string) (now_cleanup now : Z)
| OpUpdate (hostname : string) (addrs : list string) (now : Z)
| OpRemove (hostname : string)
| OpClear.

(** [None]: the call reads an erased entry. *)
Definition step (c : t) (o : op) : option t :=
  match o with
  | OpGet h n1 n2 =>
      match get h n1 n2 c with
      | (_, ErasedRead) => None
      | (c', _) => Some c'
      end
  | OpUpdate h a n => Some (update h a n c)
  | OpRemove h => Some (remove h c)
  | OpClear => Some (clear c)
  end.

Fixpoint run (ops : list op) (c : t) : option t :=
  match ops with
  | [] => Some c
  | o :: rest =>
      match step c o with
      | Some c' => run rest c'
      | None => None
      end
  end.

(** Representation invariant: the LRU list holds exactly the keys of the
    map, each once. *)
Definition wf (c : t) : Prop :=
  NoDup (lru_list_ c) ∧ ∀ k, k ∈ lru_list_ c ↔ is_Some (cache_ c !! k).

End LRUCache.


(** ** Conversions to [double] *)

(** [static_cast<double>(z)] for an integer [z]: the nearest binary64 value,
    ties to even. *)
Definition Z2F (z : Z) : float := SF2Prim (binary_normalize prec emax z 0 false).


(** ** RunningStats (interface/IMetrics.h) *)

Module RunningStats.

(** The operations of the number type that RunningStats computes with.  The
    class is written once over this interface; [double_arith] is the
    arithmetic of the C++ code, [exact_arith] is arithmetic without
    rounding. *)
Record Arith (T : Type) := mkArith {
  zero : T;
  one : T;
  add : T → T → T;
  sub : T → T → T;
  mul : T → T → T;
  div : T → T → T;
  lt : T → T → bool;
  sqrt : T → T;
  max_value : T;        (* std::numeric_limits<double>::max() *)
  lowest : T            (* std::numeric_limits<double>::lowest() *)
}.

Arguments zero {T}.
Arguments one {T}.
Arguments add {T}.
Arguments sub {T}.
Arguments mul {T}.
Arguments div {T}.
Arguments lt {T}.
Arguments sqrt {T}.
Arguments max_value {T}.
Arguments lowest {T}.

Record t (T : Type) := mk {
  count_ : T;
  mean_ : T;
  m2_ : T;
  min_ : T;
  max_ : T
}.

Arguments mk {T}.
Arguments count_ {T}.
Arguments mean_ {T}.
Arguments m2_ {T}.
Arguments min_ {T}.
Arguments max_ {T}.

Section Generic.
Context {T : Type} (A : Arith T).

Definition init : t T :=
  mk (zero A) (zero A) (zero A) (max_value A) (lowest A).

(** [std::min(a, b)] is [(b < a) ? b : a]; [std::max(a, b)] is
    [(a < b) ? b : a]. *)
Definition std_min (a b : T) : T := if lt A b a then b else a.
Definition std_max (a b : T) : T := if lt A a b then b else a.

Definition update (s : t T) (value : T) : t T :=
  let count := add A (count_ s) (one A) in
  let delta := sub A value (mean_ s) in
  let mean := add A (mean_ s) (div A delta count) in
  let delta2 := sub A value mean in
  let m2 := add A (m2_ s) (mul A delta delta2) in
  mk count mean m2 (std_min (min_ s) value) (std_max (max_ s) value).

Definition mean (s : t T) : T := mean_ s.



Definition min (s : t T) : T := min_ s.


End Generic.




(** binary64 arithmetic, round to nearest even. *)
Definition double_arith : Arith float :=
  mkArith float 0%float 1%float PrimFloat.add PrimFloat.sub PrimFloat.mul
    PrimFloat.div PrimFloat.ltb PrimFloat.sqrt
    0x1.fffffffffffffp+1023%float (-0x1.fffffffffffffp+1023)%float.









End RunningStats.

(** ** Configuration records (interface/Common.h) and validateConfig *)

Module Config.

Record DNSServerConfig := mkServer {
  address : string;
  port : Z;
  weight : Z;
  timeout_ms : Z;
  enabled : bool
}.

Record CacheConfig := mkCacheConfig {
  cache_enabled : bool;
  ttl : Z;
  max_size : nat;
  persistent : bool
}.

Record RetryConfig := mkRetry {
  max_attempts : Z;
  base_delay_ms : Z;
  max_delay_ms : Z
}.

Record DNSResolverConfig := mkConfig {
  servers : list DNSServerConfig;
  cache : CacheConfig;
  retry : RetryConfig;
  query_timeout_ms : Z;
  max_concurrent_queries : Z;
  ipv6_enabled : bool;
  server_error_threshold : Z
}.

Definition validateConfig (config : DNSResolverConfig) : bool :=
  match servers config with
  | [] => false
  | _ :: _ =>
      if (query_timeout_ms config <? 100) || (30000 <? query_timeout_ms config)
      then false
      else if (max_attempts (retry config) <? 1)
              || (10 <? max_attempts (retry config))
              || (base_delay_ms (retry config) <? 10)
              || (max_delay_ms (retry config) <? base_delay_ms (retry config))
      then false
      else true
  end.

End Config.

(** ** BasicMetrics (BasicMetrics.h, BasicMetrics.cpp)

    The counters, the running statistics of the query time, the window of
    recent durations, the error table and the time stamp of the last
    clean-up.  The per-host and per-server tables, the retry history and the
    performance snapshot are not represented: no recording method reads
    them back into a counter, and the clean-up that would shrink them is
    never carried out (see [recordQuery]). *)

Module BasicMetrics.

Definition MAX_SAMPLES : nat := 1000.

Record ErrorStats := mkErrorStats {
  count : Z;
  last_detail : string
}.

Record t := mk {
  total_queries_ : Z;
  successful_queries_ : Z;
  failed_queries_ : Z;
  cache_hits_ : Z;
  cache_misses_ : Z;
  total_retries_ : Z;
  query_stats_ : RunningStats.t float;
  error_stats_ : gmap string ErrorStats;
  query_durations_ : list float;
  last_cleanup_ : Z                 (* a reading of the steady clock *)
}.

(** The constructor; [now] is its reading of the steady clock. *)
Definition new (now : Z) : t :=
  mk 0 0 0 0 0 0 (RunningStats.init RunningStats.double_arith) ∅ [] now.

Definition STEADY_TICKS_PER_SECOND : Z := 1000000000.

(** [std::chrono::hours(1)] in ticks of the steady clock. *)
Definition CLEANUP_INTERVAL : Z := 3600 * STEADY_TICKS_PER_SECOND.

(** [cleanupOldStats] goes on past its first test when the interval has
    passed since [last_cleanup_]. *)
Definition cleanup_due (now : Z) (m : t) : bool :=
  negb (now - last_cleanup_ m <? CLEANUP_INTERVAL).

(** [recordQuery] holds [mutex_] for the whole call.  After its updates it
    calls [cleanupOldStats], which, when the clean-up is due, constructs a
    second [std::lock_guard] on the same [std::mutex]: the calling thread
    locks a mutex it owns and the call does not return.  The result is the
    object as the updates leave it, and whether the call returns; [now] is
    the reading of the steady clock inside [cleanupOldStats]. *)
Definition recordQuery (hostname : string) (duration : Z) (success : bool)
  (now : Z) (m : t) : t * bool :=
  let duration_ms := Z2F duration in
  let durations := query_durations_ m ++ [duration_ms] in
  (mk (wrap64 (total_queries_ m + 1))
      (if success then wrap64 (successful_queries_ m + 1)
       else successful_queries_ m)
      (if success then failed_queries_ m
       else wrap64 (failed_queries_ m + 1))
      (cache_hits_ m) (cache_misses_ m) (total_retries_ m)
      (RunningStats.update RunningStats.double_arith (query_stats_ m)
         duration_ms)
      (error_stats_ m)
      (if (MAX_SAMPLES <? length durations)%nat then tl durations
       else durations)
      (last_cleanup_ m),
   negb (cleanup_due now m)).

Definition recordCacheHit (hostname : string) (m : t) : t :=
  mk (total_queries_ m) (successful_queries_ m) (failed_queries_ m)
     (wrap64 (cache_hits_ m + 1)) (cache_misses_ m) (total_retries_ m)
     (query_stats_ m) (error_stats_ m) (query_durations_ m)
     (last_cleanup_ m).

Definition recordCacheMiss (hostname : string) (m : t) : t :=
  mk (total_queries_ m) (successful_queries_ m) (failed_queries_ m)
     (cache_hits_ m) (wrap64 (cache_misses_ m + 1)) (total_retries_ m)
     (query_stats_ m) (error_stats_ m) (query_durations_ m)
     (last_cleanup_ m).

(** [error_stats_[type]] creates a zero entry when the key is new. *)
Definition error_count (type : string) (m : t) : Z :=
  match error_stats_ m !! type with
  | Some e => count e
  | None => 0
  end.

Definition recordError (type detail : string) (m : t) : t :=
  mk (total_queries_ m) (successful_queries_ m) (failed_queries_ m)
     (cache_hits_ m) (cache_misses_ m) (total_retries_ m)
     (query_stats_ m)
     (<[type := mkErrorStats (wrap64 (error_count type m + 1)) detail]>
        (error_stats_ m))
     (query_durations_ m) (last_cleanup_ m).

Definition recordRetry (hostname : string) (attempt : Z) (m : t) : t :=
  mk (total_queries_ m) (successful_queries_ m) (failed_queries_ m)
     (cache_hits_ m) (cache_misses_ m) (wrap64 (total_retries_ m + 1))
     (query_stats_ m) (error_stats_ m) (query_durations_ m)
     (last_cleanup_ m).

(** The counters are [uint64_t]: they hold values of [0, 2^64). *)
Definition in_range (m : t) : Prop :=
  0 ≤ total_queries_ m < 2 ^ 64
  ∧ 0 ≤ successful_queries_ m < 2 ^ 64
  ∧ 0 ≤ failed_queries_ m < 2 ^ 64
  ∧ 0 ≤ cache_hits_ m < 2 ^ 64
  ∧ 0 ≤ cache_misses_ m < 2 ^ 64
  ∧ 0 ≤ total_retries_ m < 2 ^ 64
  ∧ ∀ type e, error_stats_ m !! type = Some e → 0 ≤ count e < 2 ^ 64.

(** The counters after [k] recorded failures, each followed by a retry. *)
Definition after_failures (k : nat) (m m1 : t) : Prop :=
  total_queries_ m1 = Nat.iter k bump (total_queries_ m)
  ∧ failed_queries_ m1
    = Nat.iter k bump (failed_queries_ m)
  ∧ successful_queries_ m1 = successful_queries_ m
  ∧ total_retries_ m1
    = Nat.iter k bump (total_retries_ m)
  ∧ error_count "resolution_failure" m1
    = Nat.iter k bump (error_count "resolution_failure" m)
  ∧ cache_misses_ m1 = cache_misses_ m.

End BasicMetrics.


(** ** CaresQueryStrategy: the health map and selectServer *)

Module Cares.

Record ServerHealth := mkHealth {
  healthy : bool;
  avg_latency : Z;        (* std::chrono::milliseconds, a count *)
  error_count : Z
}.

(** [ServerHealth{}] *)
Definition fresh_health : ServerHealth := mkHealth true 0 0.

Record t := mk {
  config_ : Config.DNSResolverConfig;
  server_health_ : gmap string ServerHealth
}.

(** The loop of [initialize] over the configured servers, in order. *)
Definition init_health (servers : list Config.DNSServerConfig)
  : gmap string ServerHealth :=
  fold_left
    (λ health server,
       if Config.enabled server
       then <[Config.address server := fresh_health]> health
       else health)
    servers ∅.

Definition new (config : Config.DNSResolverConfig) : t :=
  mk config (init_health (Config.servers config)).

(** An element of [available_servers]: address and score. *)
Definition Scored : Type := string * float.

(** [server.weight / (1.0 + health.avg_latency.count())] *)
Definition score (server : Config.DNSServerConfig) (health : ServerHealth)
  : float :=
  PrimFloat.div (Z2F (Config.weight server))
                (PrimFloat.add 1%float (Z2F (avg_latency health))).

Definition candidate (st : t) (server : Config.DNSServerConfig)
  : option Scored :=
  if Config.enabled server then
    match server_health_ st !! Config.address server with
    | Some health =>
        if healthy health
        then Some (Config.address server, score server health)
        else None
    | None => None
    end
  else None.

Definition available_servers (st : t) : list Scored :=
  omap (candidate st) (Config.servers (config_ st)).

(** The comparator handed to the sort: [a.second > b.second]. *)
Definition by_score (a b : Scored) : bool := PrimFloat.ltb b.2 a.2.

Definition recover (health : ServerHealth) : ServerHealth :=
  mkHealth true (avg_latency health) 0.

(** [std::ranges::sort] is a function of the C++ library; it is taken as the
    argument [ranges_sort].  What the library promises of it for the range
    [l] and this comparator is [sort_contract]: the result is a rearrangement
    of [l] in which no element is ordered before an earlier one.  The
    relative order of elements that compare equivalent is not part of the
    promise. *)
Definition sort_contract (ranges_sort : list Scored → list Scored)
  (l : list Scored) : Prop :=
  Permutation (ranges_sort l) l
  ∧ StronglySorted (λ a b, by_score b a = false) (ranges_sort l).

Definition selectServer (ranges_sort : list Scored → list Scored) (st : t)
  : string * t :=
  match Config.servers (config_ st) with
  | [] => (""%string, st)
  | first :: _ =>
      match available_servers st with
      | [] =>
          (Config.address first,
           mk (config_ st) (recover <$> server_health_ st))
      | _ :: _ =>
          match ranges_sort (available_servers st) with
          | top :: _ => (top.1, st)
          | [] => (""%string, st)   (* not reached under [sort_contract] *)
          end
      end
  end.

(** A server takes part in the selection when it is enabled and its tracked
    health record says healthy. *)
Definition eligible (st : t) (server : Config.DNSServerConfig) : Prop :=
  Config.enabled server = true
  ∧ ∃ health, server_health_ st !! Config.address server = Some health
              ∧ healthy health = true.

(** Two sorting functions for descending scores.  [stable_sort] inserts an
    element in front of the first one that is not strictly better, so that
    equivalent elements keep their order; [tie_reversing_sort] inserts it
    behind every element that is not strictly worse, so that of two
    equivalent elements the later one comes first. *)
Fixpoint insert_before (x : Scored) (l : list Scored) : list Scored :=
  match l with
  | [] => [x]
  | y :: l' => if by_score y x then y :: insert_before x l' else x :: l
  end.

Definition stable_sort (l : list Scored) : list Scored :=
  fold_right insert_before [] l.

Fixpoint insert_after (x : Scored) (l : list Scored) : list Scored :=
  match l with
  | [] => [x]
  | y :: l' => if by_score x y then x :: l else y :: insert_after x l'
  end.

Definition tie_reversing_sort (l : list Scored) : list Scored :=
  fold_right insert_after [] l.

End Cares.


(** ** Status codes of the c-ares library (ares.h) used by the resolver *)

Module Ares.
Definition ARES_SUCCESS : Z := 0.
Definition ARES_ENODATA : Z := 1.
Definition ARES_ESERVFAIL : Z := 3.
Definition ARES_ENOTFOUND : Z := 4.
Definition ARES_EBADNAME : Z := 8.
Definition ARES_ETIMEOUT : Z := 12.
Definition ARES_EOF : Z := 13.
Definition ARES_ENOTINITIALIZED : Z := 21.
Definition ARES_ECANCELLED : Z := 24.
End Ares.

(** ** DNSResolver (DNSResolver.h, DNSResolver.cpp) *)

Module Resolver.

Record ResolveResult := mkResult {
  status : Z;
  hostname : string;
  ip_addresses : list string;
  resolution_time : Z;
  error : string;
  from_cache : bool
}.

Record DNSAddressEvent := mkEvent {
  ev_hostname : string;
  old_addresses : list string;
  new_addresses : list string;
  timestamp : Z;
  source : string;
  ev_ttl : Z;
  record_type : string;
  is_authoritative : bool
}.

(** A user callback is a [std::function]; [Some f] is a callable identified
    by [f], [None] the empty function object. *)
Definition ResolveCallback : Type := option nat.

(** What a call does to its collaborators, in program order. *)
Inductive Effect :=
| UserCallback (f : nat) (result : ResolveResult)
| BadFunctionCall                      (* calling an empty std::function *)
| QueryStarted (hostname : string)
| QueryCompleted (hostname : string) (ips : list string) (success : bool)
| AddressChanged (event : DNSAddressEvent)
| SleepFor (delay_ms : Z)
| StrategyQuery (hostname : string) (retry_count : Z)
                (callback : ResolveCallback)
| CacheReadsErasedEntry      (* LRUCache::get reads the entry it erased *)
| MetricsLocksOwnMutex.      (* recordQuery locks the mutex it holds *)
(** [StrategyQuery h n cb] is [activeQueryStrategy_->query(h, handler)] where
    [handler] hands the strategy's result to [handleQueryResult n _ cb].
    The last two end the call: nothing that the code has after them is
    done. *)

(** The clock readings one call consumes. *)
Record Readings := mkReadings {
  now_cleanup : Z;     (* system clock, inside LRUCache::cleanup *)
  now_lookup : Z;      (* system clock, inside LRUCache::get *)
  now_update : Z;      (* system clock, inside LRUCache::update *)
  now_event : Z;       (* system clock, time stamp of the address event *)
  elapsed_ms : Z;      (* steady clock, now - start_time in milliseconds *)
  now_steady : Z       (* steady clock, inside cleanupOldStats *)
}.

(** [QueryContext] (interface/Common.h); the resolver only counts the
    contexts it holds. *)
Record QueryContext := mkContext {
  ctx_hostname : string;
  ctx_old_addresses : list string;
  ctx_retry_count : Z;
  ctx_completed : bool
}.

Record t := mk {
  initialized_ : bool;
  configManager_ : Config.DNSResolverConfig;   (* what getConfig() returns *)
  metrics_ : option BasicMetrics.t;            (* None: null pointer *)
  eventPublisher_ : bool;                      (* false: null pointer *)
  activeQueryStrategy_ : bool;                 (* false: null pointer *)
  activeCache_ : option LRUCache.t;            (* None: null pointer *)
  active_contexts_ : list QueryContext
}.

Definition with_metrics (f : BasicMetrics.t → BasicMetrics.t) (st : t) : t :=
  mk (initialized_ st) (configManager_ st) (f <$> metrics_ st)
     (eventPublisher_ st) (activeQueryStrategy_ st) (activeCache_ st)
     (active_contexts_ st).

Definition with_cache (c : option LRUCache.t) (st : t) : t :=
  mk (initialized_ st) (configManager_ st) (metrics_ st)
     (eventPublisher_ st) (activeQueryStrategy_ st) c
     (active_contexts_ st).

(** [callback(result)] without a guard. *)
Definition invoke (callback : ResolveCallback) (result : ResolveResult)
  : list Effect :=
  match callback with
  | Some f => [UserCallback f result]
  | None => [BadFunctionCall]
  end.

(** [activeCache_->get(hostname, out)] behind the null test: the cache after
    the call and what the call came to ([out] is written on a hit). *)
Definition cache_get (hostname : string) (rd : Readings) (st : t)
  : option LRUCache.t * LRUCache.Lookup :=
  match activeCache_ st with
  | Some c =>
      let '(c', r) :=
        LRUCache.get hostname (now_cleanup rd) (now_lookup rd) c in
      (Some c', r)
  | None => (None, LRUCache.Miss)
  end.

(** The vector that [get] was given: filled on a hit, empty otherwise. *)
Definition addresses_read (found : LRUCache.Lookup) : list string :=
  match found with
  | LRUCache.Hit ips => ips
  | _ => []
  end.

(** Whether the cache read of a call for [name] comes to an entry that it
    has erased. *)
Definition reads_erased (name : string) (rd : Readings) (st : t) : bool :=
  match activeCache_ st with
  | Some c => LRUCache.reads_erased name (now_cleanup rd) (now_lookup rd) c
  | None => false
  end.

Definition contains_colon (s : string) : bool :=
  existsb (λ c, Ascii.eqb c ":") (list_ascii_of_string s).

Section WithAres.

(** [ares_strerror] of the c-ares library. *)
Variable ares_strerror : Z → string.

Definition failure (st_code : Z) (name : string) (time : Z) : ResolveResult :=
  mkResult st_code name [] time (ares_strerror st_code) false.

Definition resolve (st : t) (hostname : string) (callback : ResolveCallback)
  (rd : Readings) : t * list Effect :=
  if negb (initialized_ st) then
    (st, invoke callback (failure Ares.ARES_ENOTINITIALIZED hostname 0))
  else if negb (Hostname.isValidHostname hostname) then
    (st, invoke callback (failure Ares.ARES_EBADNAME hostname 0))
  else if Config.max_concurrent_queries (configManager_ st)
          <=? Z.of_nat (length (active_contexts_ st)) then
    (st, invoke callback (failure Ares.ARES_EOF hostname 0))
  else
    let started :=
      if eventPublisher_ st then [QueryStarted hostname] else [] in
    let '(cache', hit) := cache_get hostname rd st in
    let st1 := with_cache cache' st in
    match hit with
    | LRUCache.ErasedRead => (st1, started ++ [CacheReadsErasedEntry])
    | LRUCache.Hit cached_ips =>
        let st2 := with_metrics (BasicMetrics.recordCacheHit hostname) st1 in
        let result :=
          mkResult Ares.ARES_SUCCESS hostname cached_ips (elapsed_ms rd)
                   ""%string true in
        (st2,
         started ++ invoke callback result ++
         match callback with
         | Some _ =>
             if eventPublisher_ st
             then [QueryCompleted hostname cached_ips true] else []
         | None => []
         end)
    | LRUCache.Miss =>
        let st2 := with_metrics (BasicMetrics.recordCacheMiss hostname) st1 in
        if activeQueryStrategy_ st then
          (st2, started ++ [StrategyQuery hostname 0 callback])
        else
          (st2, started ++
                invoke callback
                  (failure Ares.ARES_ENODATA hostname (elapsed_ms rd)))
    end.

(** [new_addresses[0]] is read; the caller passes a non-empty vector. *)
Definition notifyAddressChange (st : t) (name : string)
  (old new : list string) (rd : Readings) : list Effect :=
  if negb (eventPublisher_ st) then []
  else
    match new with
    | [] => []
    | first :: _ =>
        [AddressChanged
           (mkEvent name old new (now_event rd) "dns_resolver"%string
              (Config.ttl (Config.cache (configManager_ st)))
              (if contains_colon first then "AAAA"%string else "A"%string)
              false)]
    end.

(** [config.retry.base_delay_ms * (1 << (retry_count - 1))], a product of
    [uint32_t], then [std::min] with [max_delay_ms].  [retry_count] is the
    value after the increment.  The shift is one of [int]: it is defined for
    counts below 32, which is where this definition is used; for larger
    counts the source has no defined value (the 0 here is not one). *)
Definition backoff_delay (retry : Config.RetryConfig) (retry_count : Z) : Z :=
  Z.min (wrap32 (Config.base_delay_ms retry
                 * wrap32 (Z.shiftl 1 (retry_count - 1))))
        (Config.max_delay_ms retry).

(** The calls on [metrics_] at the head of [handleQueryResult]: the object
    afterwards, and whether [recordQuery] returns ([recordError] is called
    only if it does). *)
Definition record_returns (rd : Readings) (m : BasicMetrics.t) : bool :=
  negb (BasicMetrics.cleanup_due (now_steady rd) m).

Definition record_result (result : ResolveResult) (rd : Readings)
  (m : BasicMetrics.t) : BasicMetrics.t :=
  let '(m1, returned) :=
    BasicMetrics.recordQuery (hostname result) (resolution_time result)
      (status result =? Ares.ARES_SUCCESS) (now_steady rd) m in
  if returned && negb (status result =? Ares.ARES_SUCCESS)
  then BasicMetrics.recordError "resolution_failure"
         (ares_strerror (status result)) m1
  else m1.

(** Whether the metrics calls of [handleQueryResult] return: they do when
    no metrics object is attached. *)
Definition metrics_return (rd : Readings) (st : t) : bool :=
  match metrics_ st with
  | Some m => record_returns rd m
  | None => true
  end.

(** [st1] is a later state of [st] in which the cache holds no entry that
    [st] does not hold and the metrics object has the clean-up stamp of
    [st]: a handler that runs to its end in [st] does so in [st1]. *)
Definition follows (st st1 : t) : Prop :=
  (∀ name rd, reads_erased name rd st = false →
              reads_erased name rd st1 = false)
  ∧ (∀ rd, metrics_return rd st1 = metrics_return rd st).

(** The handler runs to its end on the result [a.1] with the clock
    readings [a.2]: its cache read does not come to an entry it has erased,
    and [recordQuery] returns. *)
Definition completes (st : t) (a : ResolveResult * Readings) : Prop :=
  reads_erased (hostname a.1) a.2 st = false ∧ metrics_return a.2 st = true.

(** The tail of [handleQueryResult]: the guarded callback, then the
    completion event. *)
Definition deliver_result (st : t) (result : ResolveResult)
  (callback : ResolveCallback) : list Effect :=
  match callback with
  | Some f => [UserCallback f result]
  | None => []
  end ++
  if eventPublisher_ st
  then [QueryCompleted (hostname result) (ip_addresses result)
          (status result =? Ares.ARES_SUCCESS)]
  else [].

Definition retryable (st_code : Z) : bool :=
  negb (st_code =? Ares.ARES_SUCCESS)
  && negb (st_code =? Ares.ARES_ENODATA)
  && negb (st_code =? Ares.ARES_ENOTFOUND).

Definition handleQueryResult (st : t) (retry_count : Z)
  (result : ResolveResult) (callback : ResolveCallback) (rd : Readings)
  : t * list Effect :=
  let '(cache1, found) := cache_get (hostname result) rd st in
  match found with
  | LRUCache.ErasedRead => (with_cache cache1 st, [CacheReadsErasedEntry])
  | _ =>
      let old := addresses_read found in
      let st1 :=
        with_metrics (record_result result rd) (with_cache cache1 st) in
      if negb (metrics_return rd st) then (st1, [MetricsLocksOwnMutex])
      else if (status result =? Ares.ARES_SUCCESS)
              && negb (bool_decide (ip_addresses result = [])) then
        let st2 :=
          with_cache
            (LRUCache.update (hostname result) (ip_addresses result)
               (now_update rd) <$> cache1) st1 in
        (st2,
         (if bool_decide (old = ip_addresses result) then []
          else notifyAddressChange st (hostname result) old
                 (ip_addresses result) rd)
         ++ deliver_result st result callback)
      else if retryable (status result)
              && (wrap32 retry_count
                  <? Config.max_attempts (Config.retry (configManager_ st)))
      then
        let retry_count' := retry_count + 1 in
        let st2 :=
          with_metrics
            (BasicMetrics.recordRetry (hostname result) retry_count') st1 in
        (st2,
         SleepFor
           (backoff_delay (Config.retry (configManager_ st)) retry_count')
         :: if activeQueryStrategy_ st
            then [StrategyQuery (hostname result) retry_count' callback]
            else [])
      else
        (st1, deliver_result st result callback)
  end.

(** Whether a call stopped short of its end. *)
Definition stalls (effects : list Effect) : bool :=
  existsb (λ e, match e with
                | CacheReadsErasedEntry | MetricsLocksOwnMutex => true
                | _ => false
                end) effects.

(** The attempt that a call left with the strategy, if any. *)
Fixpoint dispatched (effects : list Effect) : option Z :=
  match effects with
  | [] => None
  | StrategyQuery _ n _ :: _ => Some n
  | _ :: rest => dispatched rest
  end.

(** The strategy answers every attempt that is dispatched to it with the
    next result of [answers], until an attempt is not followed by another
    one. *)
Fixpoint deliver (st : t) (retry_count : Z) (callback : ResolveCallback)
  (answers : list (ResolveResult * Readings)) : t * list Effect :=
  match answers with
  | [] => (st, [])
  | (result, rd) :: rest =>
      let '(st1, effects) :=
        handleQueryResult st retry_count result callback rd in
      match dispatched effects with
      | Some n =>
          let '(st2, more) := deliver st1 n callback rest in
          (st2, effects ++ more)
      | None => (st1, effects)
      end
  end.

(** One [resolve] call followed by the strategy's answers to the attempts
    it dispatches. *)
Definition resolve_and_deliver (st : t) (name : string)
  (callback : ResolveCallback) (rd : Readings)
  (answers : list (ResolveResult * Readings)) : t * list Effect :=
  let '(st1, effects) := resolve st name callback rd in
  match dispatched effects with
  | Some n =>
      let '(st2, more) := deliver st1 n callback answers in
      (st2, effects ++ more)
  | None => (st1, effects)
  end.

End WithAres.

End Resolver.


(** ** Sample data *)

Module Samples.

Fixpoint replicate_char (n : nat) (c : ascii) : string :=
  match n with
  | O => EmptyString
  | S n' => String c (replicate_char n' c)
  end.

(** Four labels of 63, 63, 63 and 61 letters: 253 characters with the dots. *)
Definition name253 : string :=
  String.append (replicate_char 63 "a")
    (String "." (String.append (replicate_char 63 "b")
       (String "." (String.append (replicate_char 63 "c")
          (String "." (replicate_char 61 "d")))))).

(** The default configuration of the demonstration program: three enabled
    servers of weight 1. *)
Definition default_servers : list Config.DNSServerConfig :=
  [Config.mkServer "114.114.114.114" 53 1 2000 true;
   Config.mkServer "8.8.8.8" 53 1 2000 true;
   Config.mkServer "1.1.1.1" 53 1 2000 true].

Definition config_of (servers : list Config.DNSServerConfig)
  : Config.DNSResolverConfig :=
  Config.mkConfig servers (Config.mkCacheConfig true 300000 (Z.to_nat 10000) false)
    (Config.mkRetry 3 100 1000) 5000 100 false 10.

Definition default_config : Config.DNSResolverConfig :=
  config_of default_servers.

(** A single configured server whose address is the empty string. *)
Definition unnamed_server_config : Config.DNSResolverConfig :=
  config_of [Config.mkServer "" 53 1 2000 true].

(** A stand-in for [ares_strerror]. *)
Definition strerror (code : Z) : string :=
  if code =? Ares.ARES_SUCCESS then "Successful completion"%string
  else "error"%string.

(** The resolver after a successful [initialize()], with a metrics object
    and an event publisher as the demonstration program supplies them. *)
Definition resolver_of (config : Config.DNSResolverConfig) : Resolver.t :=
  Resolver.mk true config (Some (BasicMetrics.new 0)) true true
    (Some (LRUCache.new (Config.max_size (Config.cache config))
             (Config.ttl (Config.cache config))))
    [].

(** All clock readings of a call equal to [now], no time elapsed. *)
Definition at_time (now : Z) : Resolver.Readings :=
  Resolver.mkReadings now now now now 0 0.

(** A strategy result as [CaresQueryStrategy::handleResult] builds it. *)
Definition answer (code : Z) (name : string) (ips : list string)
  : Resolver.ResolveResult :=
  Resolver.mkResult code name ips 5 (strerror code) false.

(** The default configuration with [max_concurrent_queries = 1]. *)
Definition one_at_a_time : Config.DNSResolverConfig :=
  Config.mkConfig default_servers
    (Config.mkCacheConfig true 300000 (Z.to_nat 10000) false)
    (Config.mkRetry 3 100 1000) 5000 1 false 10.

(** A configuration that [validateConfig] accepts, with a base delay of
    2^31 ms and the largest [uint32_t] as maximal delay. *)
Definition long_delay : Config.DNSResolverConfig :=
  Config.mkConfig default_servers
    (Config.mkCacheConfig true 300000 (Z.to_nat 10000) false)
    (Config.mkRetry 3 2147483648 4294967295) 5000 100 false 10.

(** Scenario S2 of the specification: the cache already holds
    ["1.1.1.1"] for "x.test". *)
Definition seeded_resolver : Resolver.t :=
  Resolver.with_cache
    (Some (LRUCache.update "x.test" ["1.1.1.1"%string] 0
             (LRUCache.new (Z.to_nat 10000) 300000)))
    (resolver_of default_config).

(** Scenario S3 of the specification: at most 3 retries, delays from 10 ms
    up to 100 ms. *)
Definition quick_retry : Config.DNSResolverConfig :=
  Config.mkConfig default_servers
    (Config.mkCacheConfig true 300000 (Z.to_nat 10000) false)
    (Config.mkRetry 3 10 100) 5000 100 false 10.

(** Scenario S6 of the specification: two servers, both marked unhealthy
    after more errors than the threshold allows. *)
Definition both_unhealthy : Cares.t :=
  Cares.mk
    (config_of [Config.mkServer "10.0.0.1" 53 1 2000 true;
                Config.mkServer "10.0.0.2" 53 1 2000 true])
    (<["10.0.0.1"%string := Cares.mkHealth false 7 11]>
       (<["10.0.0.2"%string := Cares.mkHealth false 9 11]> ∅)).

End Samples.

(** ** DNSResolver: construction, initialize, shutdown, and the calls that
    reach a resolver *)

Module Lifecycle.

(** The constructor: no strategy, no cache, not initialized. *)
Definition constructed (config : Config.DNSResolverConfig)
  (metrics : option BasicMetrics.t) (events : bool) : Resolver.t :=
  Resolver.mk false config metrics events false None [].

(** [DNSResolver::initialize]: the state and the value returned.  The
    factories registered under "cares" and "lru" are looked up right after
    their registration, so the strategy and an empty [LRUCache] of the
    configured size and ttl are always created. *)
Definition initialize (st : Resolver.t) : Resolver.t * bool :=
  if Resolver.initialized_ st then (st, true)
  else if negb (Config.validateConfig (Resolver.configManager_ st))
  then (st, false)
  else
    (Resolver.mk true (Resolver.configManager_ st) (Resolver.metrics_ st)
       (Resolver.eventPublisher_ st) true
       (Some (LRUCache.new
                (Config.max_size (Config.cache (Resolver.configManager_ st)))
                (Config.ttl (Config.cache (Resolver.configManager_ st)))))
       (Resolver.active_contexts_ st),
     true).

(** [DNSResolver::shutdown]: the state, and whether the strategy's
    [shutdown()] was called. *)
Definition shutdown (st : Resolver.t) : Resolver.t * bool :=
  if Resolver.initialized_ st then
    (Resolver.mk false (Resolver.configManager_ st) (Resolver.metrics_ st)
       (Resolver.eventPublisher_ st) (Resolver.activeQueryStrategy_ st)
       (Resolver.activeCache_ st) (Resolver.active_contexts_ st),
     Resolver.activeQueryStrategy_ st)
  else (st, false).

(** [ConfigManager::updateConfig]: the new configuration is stored and the
    change handler is notified; [DNSResolver::handleConfigChange] validates
    it and forwards the plugin settings, which touches nothing a resolution
    reads. *)
Definition store_config (config : Config.DNSResolverConfig) (st : Resolver.t)
  : Resolver.t :=
  Resolver.mk (Resolver.initialized_ st) config (Resolver.metrics_ st)
    (Resolver.eventPublisher_ st) (Resolver.activeQueryStrategy_ st)
    (Resolver.activeCache_ st) (Resolver.active_contexts_ st).

(** The user callbacks among the effects of a call, in order. *)
Fixpoint user_callbacks (effects : list Resolver.Effect)
  : list (nat * Resolver.ResolveResult) :=
  match effects with
  | [] => []
  | Resolver.UserCallback f r :: rest => (f, r) :: user_callbacks rest
  | _ :: rest => user_callbacks rest
  end.

(** What can happen to a resolver: the calls of its public interface, the
    strategy handing a result to one of the handlers, and the configuration
    store being updated. *)
Inductive call :=
| Initialize
| Shutdown
| Resolve (name : string) (callback : Resolver.ResolveCallback)
          (rd : Resolver.Readings)
| Answer (retry_count : Z) (result : Resolver.ResolveResult)
         (callback : Resolver.ResolveCallback) (rd : Resolver.Readings)
| StoreConfig (config : Config.DNSResolverConfig).

(** The resolver as the call leaves it, also when the call stops short of
    its end. *)
Definition step (ares_strerror : Z → string) (st : Resolver.t) (c : call)
  : Resolver.t :=
  match c with
  | Initialize => (initialize st).1
  | Shutdown => (shutdown st).1
  | Resolve name callback rd =>
      (Resolver.resolve ares_strerror st name callback rd).1
  | Answer n result callback rd =>
      (Resolver.handleQueryResult ares_strerror st n result callback rd).1
  | StoreConfig config => store_config config st
  end.

Definition run (ares_strerror : Z → string) (calls : list call)
  (st : Resolver.t) : Resolver.t :=
  fold_left (step ares_strerror) calls st.

End Lifecycle.

(** ** BasicMetrics: reset, the quantile read-out and the recording log *)

Module Recording.
Import BasicMetrics.

(** [BasicMetrics::resetStats]; [now] is the reading of the steady clock
    that it stores in [last_cleanup_]. *)
Definition resetStats (now : Z) (m : t) : t :=
  mk 0 0 0 0 0 0 (RunningStats.init RunningStats.double_arith) ∅ [] now.

(** The recording interface of [IMetrics], with the readings of the steady
    clock that the calls take. *)
Inductive op :=
| RecordQuery (hostname : string) (duration : Z) (success : bool) (now : Z)
| RecordCacheHit (hostname : string)
| RecordCacheMiss (hostname : string)
| RecordError (type detail : string)
| RecordRetry (hostname : string) (attempt : Z)
| ResetStats (now : Z).

(** The object as the call leaves it.  A [recordQuery] whose clean-up is due
    does not return: it leaves the object as its updates made it and keeps
    the mutex, so that it is the last call carried out on the object.  The
    sequences that the code can go through are those in which at most the
    last call is such a one; what holds for every sequence holds for
    them. *)
Definition step (m : t) (o : op) : t :=
  match o with
  | RecordQuery h d ok now => (recordQuery h d ok now m).1
  | RecordCacheHit h => recordCacheHit h m
  | RecordCacheMiss h => recordCacheMiss h m
  | RecordError type detail => recordError type detail m
  | RecordRetry h a => recordRetry h a m
  | ResetStats now => resetStats now m
  end.

Definition run (ops : list op) (m : t) : t := fold_left step ops m.

(** The durations handed to [recordQuery] since the last reset, oldest
    first. *)
Definition samples (ops : list op) : list float :=
  fold_left
    (λ acc o,
       match o with
       | RecordQuery _ d _ _ => acc ++ [Z2F d]
       | ResetStats _ => []
       | _ => acc
       end)
    ops [].

(** A [double] used where a [size_t] is expected: the fraction is dropped.
    [None] stands for the values that have no [size_t] (negative below -1,
    infinite, not a number). *)
Definition double_to_size (x : float) : option Z :=
  match Prim2SF x with
  | S754_zero _ => Some 0
  | S754_finite false m e => Some (Z.shiftl (Z.pos m) e)
  | S754_finite true m e =>
      if Z.shiftl (Z.pos m) e =? 0 then Some 0 else None
  | _ => None
  end.

(** [sorted_durations.size() * q] as the subscript of the vector. *)
Definition quantile_index (size : nat) (q : float) : option Z :=
  double_to_size (PrimFloat.mul (Z2F (Z.of_nat size)) q).

(** [sorted[i]]: [None] for a read outside the vector. *)
Definition subscript (sorted : list float) (i : option Z) : option float :=
  match i with
  | Some z => if z <? 0 then None else sorted !! Z.to_nat z
  | None => None
  end.

(** The three quantiles that [getPrometheusMetrics] prints, when the window
    is not empty.  [std_sort] is [std::sort] of the C++ library on the copy
    of the window.  The literals [0.9] and [0.99] denote the nearest
    [double]s, written here in hexadecimal. *)
Definition quantiles (std_sort : list float → list float) (m : t)
  : option (option float * option float * option float) :=
  match query_durations_ m with
  | [] => None
  | _ :: _ =>
      let sorted := std_sort (query_durations_ m) in
      let size := length sorted in
      Some (subscript sorted (quantile_index size 0.5),
            subscript sorted (quantile_index size 0x1.ccccccccccccdp-1),
            subscript sorted (quantile_index size 0x1.fae147ae147aep-1))
  end.

(** Insertion sort by [<] on [double], a function that [std_sort] can be. *)
Fixpoint insert_sample (x : float) (l : list float) : list float :=
  match l with
  | [] => [x]
  | y :: l' => if PrimFloat.ltb y x then y :: insert_sample x l' else x :: l
  end.

Definition insertion_sort (l : list float) : list float :=
  fold_right insert_sample [] l.

(** What every sequence of recordings keeps. *)
Definition consistent (m : t) : Prop :=
  total_queries_ m = wrap64 (successful_queries_ m + failed_queries_ m)
  ∧ 0 ≤ successful_queries_ m < 2 ^ 64
  ∧ 0 ≤ failed_queries_ m < 2 ^ 64
  ∧ (length (query_durations_ m) ≤ MAX_SAMPLES)%nat.

(** Whether a subscript is one of [0 .. size - 1]. *)
Definition index_in_range (size : nat) (q : float) : bool :=
  match quantile_index size q with
  | Some i => (0 <=? i) && (i <? Z.of_nat size)
  | None => false
  end.

End Recording.

(** ** BasicMetrics: the clock-driven housekeeping and [mutex_]

    Every recording method holds [mutex_], a [std::mutex], from its first
    statement to its return.  [recordQuery] calls [cleanupOldStats] while it
    holds the mutex, and [cleanupOldStats] constructs a second
    [std::lock_guard] on the same mutex once the clean-up is due. *)

Module Housekeeping.

Section Ticks.

(** The number of ticks of [std::chrono::steady_clock] in one second. *)
Variable ticks_per_second : Z.

Definition PERFORMANCE_UPDATE_INTERVAL : Z := 60 * ticks_per_second.
Definition CLEANUP_INTERVAL : Z := 3600 * ticks_per_second.

(** The two time stamps, as steady-clock readings. *)
Record t := mk {
  last_cleanup_ : Z;
  last_performance_update_ : Z
}.

(** The constructor reads the clock once for each time stamp. *)
Definition constructed (now_cleanup now_performance : Z) : t :=
  mk now_cleanup now_performance.

Inductive outcome :=
| Returns (st : t)
| LocksOwnMutex.     (* a lock_guard on the mutex the thread already owns *)

Definition updatePerformanceMetrics (now : Z) (st : t) : t :=
  if now - last_performance_update_ st <? PERFORMANCE_UPDATE_INTERVAL then st
  else mk (last_cleanup_ st) now.

(** [owned]: whether the caller holds [mutex_]. *)
Definition cleanupOldStats (owned : bool) (now : Z) (st : t) : outcome :=
  if now - last_cleanup_ st <? CLEANUP_INTERVAL then Returns st
  else if owned then LocksOwnMutex
  else Returns (mk now (last_performance_update_ st)).

(** The calls of the recording interface with the clock readings they take. *)
Inductive call :=
| Query (now_cleanup now_performance : Z)
| CacheHit (now : Z)
| CacheMiss (now : Z)
| Error (now : Z)
| Retry
| Reset (now_performance now_cleanup : Z).

Definition step (st : t) (c : call) : outcome :=
  match c with
  | Query now_cleanup now_performance =>
      match cleanupOldStats true now_cleanup st with
      | Returns st1 => Returns (updatePerformanceMetrics now_performance st1)
      | LocksOwnMutex => LocksOwnMutex
      end
  | CacheHit now | CacheMiss now | Error now =>
      Returns (updatePerformanceMetrics now st)
  | Retry => Returns st
  | Reset now_performance now_cleanup => Returns (mk now_cleanup now_performance)
  end.

Fixpoint run (calls : list call) (st : t) : outcome :=
  match calls with
  | [] => Returns st
  | c :: rest =>
      match step st c with
      | Returns st1 => run rest st1
      | LocksOwnMutex => LocksOwnMutex
      end
  end.

(** The reading stored by the last [resetStats] among [calls], or [start]
    when there is none. *)
Definition last_reset (calls : list call) (start : Z) : Z :=
  fold_left
    (λ stamp c, match c with Reset _ now_cleanup => now_cleanup | _ => stamp end)
    calls start.

End Ticks.

End Housekeeping.

(** ** CaresQueryStrategy beyond the selection (CaresQueryStrategy.h,
    CaresQueryStrategy.cpp)

    [Cares.t] holds the configuration and the health records that
    [selectServer] reads; the state here adds the channel, the flag, the
    contexts of the queries in flight and the latency history. *)

Module Strategy.

(** [QueryContext] as the strategy uses it.  [start_time] is read once, to
    compute the latency that [handleResult] takes as an argument here. *)
Record QueryContext := mkContext {
  hostname : string;
  callback : option nat;       (* None: an empty std::function *)
  completed : bool
}.

Record t := mk {
  core : Cares.t;                           (* config_ and server_health_ *)
  channel_ : bool;                          (* false: nullptr *)
  initialized_ : bool;
  active_contexts_ : list QueryContext;
  latency_history_ : gmap string (list Z)   (* queues, front first *)
}.

Definition with_core (c : Cares.t) (st : t) : t :=
  mk c (channel_ st) (initialized_ st) (active_contexts_ st)
     (latency_history_ st).

Inductive Effect :=
| Callback (f : nat) (result : Resolver.ResolveResult)
| BadFunctionCall                   (* calling an empty std::function *)
| GetAddrInfo (channel : bool) (hostname : string) (any_family : bool)
              (context : nat).
(** [GetAddrInfo ch h any n] is [ares_getaddrinfo] on the channel for [h],
    with [AF_UNSPEC] when [any] and [AF_INET] otherwise, and with the context
    at position [n] of [active_contexts_] as its argument. *)

(** What the c-ares library answers during the construction. *)
Record Library := mkLibrary {
  library_init : Z;        (* ares_library_init *)
  threadsafety : bool;     (* ares_threadsafety *)
  init_options : Z         (* ares_init_options *)
}.

(** The members as the constructor leaves them before it calls
    [initialize]. *)
Definition constructed (config : Config.DNSResolverConfig) : t :=
  mk (Cares.mk config ∅) false false [] ∅.

Definition initialize (lib : Library) (st : t) : t :=
  if initialized_ st then st
  else
    let st1 :=
      mk (core st) (channel_ st) true (active_contexts_ st)
         (latency_history_ st) in
    if negb (library_init lib =? Ares.ARES_SUCCESS) then st1
    else if negb (threadsafety lib) then st1
    else if negb (init_options lib =? Ares.ARES_SUCCESS) then st1
    else
      mk (Cares.mk (Cares.config_ (core st))
            (fold_left
               (λ health server,
                  if Config.enabled server
                  then <[Config.address server := Cares.fresh_health]> health
                  else health)
               (Config.servers (Cares.config_ (core st)))
               (Cares.server_health_ (core st))))
         true true (active_contexts_ st) (latency_history_ st).

(** The constructor. *)
Definition create (config : Config.DNSResolverConfig) (lib : Library) : t :=
  initialize lib (constructed config).

Definition isInitialized (st : t) : bool := initialized_ st.

(** [{.status = code}]: every other member keeps its default. *)
Definition status_only (code : Z) : Resolver.ResolveResult :=
  Resolver.mkResult code "" [] 0 "" false.

(** [callback(result)] without a guard. *)
Definition call (callback : option nat) (result : Resolver.ResolveResult)
  : list Effect :=
  match callback with
  | Some f => [Callback f result]
  | None => [BadFunctionCall]
  end.

Definition MAX_LATENCY_SAMPLES : nat := 100.

(** A value of [uint64_t] read as [int64_t]. *)
Definition to_int64 (z : Z) : Z := (z + 2 ^ 63) mod 2 ^ 64 - 2 ^ 63.

(** [history.push(latency)] and the [pop] that keeps the queue short. *)
Definition push_latency (history : list Z) (latency : Z) : list Z :=
  let pushed := history ++ [latency] in
  if (MAX_LATENCY_SAMPLES <? length pushed)%nat then tl pushed else pushed.

(** The loop that adds up the copy of the queue, in [int64_t]. *)
Definition total_latency (history : list Z) : Z :=
  fold_left (λ total latency, to_int64 (total + latency)) history 0.

(** [total.count() / count] divides an [int64_t] by a [uint64_t]: both are
    taken as [uint64_t], and the quotient becomes the [int64_t] count of the
    new duration. *)
Definition updateServerMetrics (server : string) (latency : Z) (st : t) : t :=
  let history :=
    push_latency (default [] (latency_history_ st !! server)) latency in
  let count := Z.of_nat (length history) in
  let total := total_latency history in
  mk (Cares.mk (Cares.config_ (core st))
        (<[server := Cares.mkHealth true (to_int64 (wrap64 total / count)) 0]>
           (Cares.server_health_ (core st))))
     (channel_ st) (initialized_ st) (active_contexts_ st)
     (<[server := history]> (latency_history_ st)).

(** [server_health_[server]] creates [ServerHealth{}] when the key is new;
    [error_count] is a [uint32_t]. *)
Definition charge_error (server : string) (c : Cares.t) : Cares.t :=
  let health :=
    default Cares.fresh_health (Cares.server_health_ c !! server) in
  let errors := wrap32 (Cares.error_count health + 1) in
  Cares.mk (Cares.config_ c)
    (<[server :=
         Cares.mkHealth
           (if Config.server_error_threshold (Cares.config_ c) <? errors
            then false else Cares.healthy health)
           (Cares.avg_latency health) errors]>
       (Cares.server_health_ c)).

Inductive Family := AF_INET | AF_INET6 | AF_other.

(** A node of the [ares_addrinfo] list: its family and what [inet_ntop]
    makes of its address ([None]: a null return). *)
Record Node := mkNode {
  ai_family : Family;
  presentation : option string
}.

Definition addresses (status : Z) (result : option (list Node))
  : list string :=
  if status =? Ares.ARES_SUCCESS then
    match result with
    | Some nodes =>
        omap (λ node,
                match ai_family node with
                | AF_other => None
                | _ => presentation node
                end)
             nodes
    | None => []
    end
  else [].

Section WithLibraries.

(** [std::ranges::sort] and [ares_strerror]. *)
Variable ranges_sort : list Cares.Scored → list Cares.Scored.
Variable ares_strerror : Z → string.

(** The two branches of [handleResult] that update the server records. *)
Definition note_success (latency : Z) (st : t) : t :=
  let '(selected, c) := Cares.selectServer ranges_sort (core st) in
  updateServerMetrics selected latency (with_core c st).

Definition note_failure (c : Cares.t) : Cares.t :=
  let '(selected, c1) := Cares.selectServer ranges_sort c in
  charge_error selected c1.

Definition query (name : string) (cb : option nat) (st : t)
  : t * list Effect :=
  if negb (initialized_ st) then
    (st, call cb (status_only Ares.ARES_ENOTINITIALIZED))
  else
    let '(selected, c) := Cares.selectServer ranges_sort (core st) in
    let st1 := with_core c st in
    if String.eqb selected "" then
      (st1, call cb (status_only Ares.ARES_ESERVFAIL))
    else
      (mk c (channel_ st) (initialized_ st)
          (active_contexts_ st ++ [mkContext name cb false])
          (latency_history_ st),
       [GetAddrInfo (channel_ st) name
          (Config.ipv6_enabled (Cares.config_ (core st)))
          (length (active_contexts_ st))]).

(** [context] is the position in [active_contexts_] of the context that the
    pointer refers to; a position outside the vector stands for the null
    pointer that the completion callback of [query] filters out. *)
Definition handleResult (context : nat) (status : Z)
  (result : option (list Node)) (latency : Z) (st : t) : t * list Effect :=
  match active_contexts_ st !! context with
  | None => (st, [])
  | Some ctx =>
      let ips := addresses status result in
      let st1 :=
        if status =? Ares.ARES_SUCCESS then note_success latency st
        else with_core (note_failure (core st)) st in
      (mk (core st1) (channel_ st1) (initialized_ st1)
          (<[context := mkContext (hostname ctx) (callback ctx) true]>
             (active_contexts_ st1))
          (latency_history_ st1),
       match callback ctx with
       | Some f =>
           [Callback f
              (Resolver.mkResult status (hostname ctx) ips latency
                 (ares_strerror status) false)]
       | None => []
       end)
  end.

Definition cleanupCompletedContexts (st : t) : t :=
  mk (core st) (channel_ st) (initialized_ st)
     (filter (λ ctx, completed ctx = false) (active_contexts_ st))
     (latency_history_ st).

(** The completion callbacks that the library makes from inside a call, each
    with the position of its context and the latency measured. *)
Fixpoint completions (status : Z) (made : list (nat * Z)) (st : t)
  : t * list Effect :=
  match made with
  | [] => (st, [])
  | (context, latency) :: rest =>
      let '(st1, effects) := handleResult context status None latency st in
      let '(st2, more) := completions status rest st1 in
      (st2, effects ++ more)
  end.

(** [during_cancel]: the completion callbacks that [ares_cancel] makes. *)
Definition shutdown (during_cancel : list (nat * Z)) (st : t)
  : t * list Effect :=
  if initialized_ st then
    let '(st1, cancelled) :=
      completions Ares.ARES_ECANCELLED during_cancel
        (mk (core st) (channel_ st) false (active_contexts_ st)
            (latency_history_ st)) in
    (mk (core st1) (channel_ st1) false [] (latency_history_ st1),
     cancelled ++
     omap (λ ctx,
             (λ f, Callback f (status_only Ares.ARES_ECANCELLED))
               <$> callback ctx)
          (active_contexts_ st1))
  else (st, []).

End WithLibraries.

(** The callbacks among the effects, in order. *)
Fixpoint callbacks (effects : list Effect)
  : list (nat * Resolver.ResolveResult) :=
  match effects with
  | [] => []
  | Callback f r :: rest => (f, r) :: callbacks rest
  | _ :: rest => callbacks rest
  end.

(** The sum and the rounded-down mean of a list of latencies. *)
Definition sum_latencies (l : list Z) : Z := fold_right Z.add 0 l.

Definition mean_latency (l : list Z) : Z :=
  sum_latencies l / Z.of_nat (length l).

(** One of the three library calls of [initialize] did not succeed. *)
Definition library_failed (lib : Library) : Prop :=
  library_init lib ≠ Ares.ARES_SUCCESS
  ∨ threadsafety lib = false
  ∨ init_options lib ≠ Ares.ARES_SUCCESS.

End Strategy.

(** ** PluginManager (PluginManager.h, PluginManager.cpp)

    A factory is a [std::function] that returns a shared pointer; [None]
    stands for a null pointer and for a [std::exception] thrown by the
    factory, which [createQueryStrategy] and [createCache] turn into one. *)

Module PluginManager.

Definition QueryStrategyFactory : Type :=
  Config.DNSResolverConfig → option Strategy.t.

Definition CacheFactory : Type := Config.CacheConfig → option LRUCache.t.

Record t := mk {
  queryStrategyFactories_ : gmap string QueryStrategyFactory;
  cacheFactories_ : gmap string CacheFactory
}.

Definition new : t := mk ∅ ∅.

Definition registerQueryStrategyFactory (name : string)
  (factory : QueryStrategyFactory) (pm : t) : t :=
  mk (<[name := factory]> (queryStrategyFactories_ pm)) (cacheFactories_ pm).

Definition createQueryStrategy (name : string)
  (config : Config.DNSResolverConfig) (pm : t) : option Strategy.t :=
  match queryStrategyFactories_ pm !! name with
  | None => None
  | Some factory => factory config
  end.

Definition registerCacheFactory (name : string) (factory : CacheFactory)
  (pm : t) : t :=
  mk (queryStrategyFactories_ pm) (<[name := factory]> (cacheFactories_ pm)).

Definition createCache (name : string) (config : Config.CacheConfig) (pm : t)
  : option LRUCache.t :=
  match cacheFactories_ pm !! name with
  | None => None
  | Some factory => factory config
  end.

(** The plugin part of [DNSResolver::initialize]: the two built-in factories
    are registered on a new manager and looked up by their names. *)
Definition builtin_plugins (lib : Strategy.Library)
  (config : Config.DNSResolverConfig)
  : option Strategy.t * option LRUCache.t :=
  let pm1 :=
    registerQueryStrategyFactory "cares"
      (λ config, Some (Strategy.create config lib)) new in
  let pm2 :=
    registerCacheFactory "lru"
      (λ config, Some (LRUCache.new (Config.max_size config)
                         (Config.ttl config)))
      pm1 in
  (createQueryStrategy "cares" config pm2,
   createCache "lru" (Config.cache config) pm2).

End PluginManager.

(** ** Counting the look-ups of a cache *)

Module CacheLog.

(** The number of [get] calls since the last [clear]. *)
Definition lookups (ops : list LRUCache.op) : Z :=
  fold_left
    (λ n o,
       match o with
       | LRUCache.OpGet _ _ _ => n + 1
       | LRUCache.OpClear => 0
       | _ => n
       end)
    ops 0.

End CacheLog.

(** ** The resolver and its strategy together

    [DNSResolver::resolve] and [DNSResolver::handleQueryResult] hand the
    strategy a closure that captures the retry count and the user callback
    and calls [handleQueryResult] with them; the strategy stores it in the
    context of the query and invokes it from [query], [handleResult] and
    [shutdown]. *)

Module Pipeline.

(** [handlers]: the closures made so far; closure number [i] is the
    callback [Some i] of the strategy. *)
Record World := mkWorld {
  resolver : Resolver.t;
  strategy : Strategy.t;
  handlers : list (Z * Resolver.ResolveCallback)
}.

(** The query that a call of the resolver leaves with the strategy: name,
    retry count and user callback. *)
Fixpoint dispatched_query (effects : list Resolver.Effect)
  : option (string * Z * Resolver.ResolveCallback) :=
  match effects with
  | [] => None
  | Resolver.StrategyQuery name n cb :: _ => Some (name, n, cb)
  | _ :: rest => dispatched_query rest
  end.

(** The delays slept, in order. *)
Fixpoint sleeps (effects : list Resolver.Effect) : list Z :=
  match effects with
  | [] => []
  | Resolver.SleepFor delay :: rest => delay :: sleeps rest
  | _ :: rest => sleeps rest
  end.

Section WithLibraries.

Variable ranges_sort : list Cares.Scored → list Cares.Scored.
Variable ares_strerror : Z → string.

(** [activeQueryStrategy_->query(name, closure)] with a new closure for
    [n] and [cb]: the world afterwards, and the result that the strategy
    passes to the closure before [query] returns, if it does. *)
Definition start_query (name : string) (n : Z)
  (cb : Resolver.ResolveCallback) (w : World)
  : World * option Resolver.ResolveResult :=
  let '(s1, effects) :=
    Strategy.query ranges_sort name (Some (length (handlers w)))
      (strategy w) in
  (mkWorld (resolver w) s1 (handlers w ++ [(n, cb)]),
   match Strategy.callbacks effects with
   | (_, result) :: _ => Some result
   | [] => None
   end).

(** The strategy invokes closure [id] with [result]: [handleQueryResult]
    runs with the captured retry count and callback, and when it retries
    and the strategy answers the new query at once, the new closure runs
    from inside that call.  Every run of [handleQueryResult] takes the next
    element of [readings]; what is left of them is returned. *)
Fixpoint invoke_handler (readings : list Resolver.Readings) (id : nat)
  (result : Resolver.ResolveResult) (w : World)
  : World * list Resolver.Effect * list Resolver.Readings :=
  match readings with
  | [] => (w, [], [])
  | rd :: later =>
      match handlers w !! id with
      | None => (w, [], readings)
      | Some (n, cb) =>
          let '(r1, effects) :=
            Resolver.handleQueryResult ares_strerror (resolver w) n result cb
              rd in
          let w1 := mkWorld r1 (strategy w) (handlers w) in
          match dispatched_query effects with
          | None => (w1, effects, later)
          | Some (name, n', cb') =>
              let '(w2, answer) := start_query name n' cb' w1 in
              match answer with
              | None => (w2, effects, later)
              | Some result' =>
                  let '(w3, more, rest) :=
                    invoke_handler later (length (handlers w1)) result' w2 in
                  (w3, effects ++ more, rest)
              end
          end
      end
  end.

(** The closures that the strategy invokes one after the other; when one
    of them stops short, the loop that invokes them does not get to the
    next. *)
Fixpoint invoke_all (readings : list Resolver.Readings)
  (calls : list (nat * Resolver.ResolveResult)) (w : World)
  : World * list Resolver.Effect * list Resolver.Readings :=
  match calls with
  | [] => (w, [], readings)
  | (id, result) :: rest =>
      let '(w1, effects, readings1) := invoke_handler readings id result w in
      if Resolver.stalls effects then (w1, effects, readings1)
      else
        let '(w2, more, readings2) := invoke_all readings1 rest w1 in
        (w2, effects ++ more, readings2)
  end.

(** [DNSResolver::shutdown] with the strategy behind it.  The closures run
    while [CaresQueryStrategy::shutdown] is in progress; it has cleared its
    [initialized_] before the first of them runs, and a [query] on a
    strategy that is not initialized reads and writes nothing else, so the
    closures are run here on the state that the strategy's [shutdown]
    leaves. *)
Definition shutdown (during_cancel : list (nat * Z))
  (readings : list Resolver.Readings) (w : World)
  : World * list Resolver.Effect :=
  let '(r1, strategy_called) := Lifecycle.shutdown (resolver w) in
  if strategy_called then
    let '(s1, effects) :=
      Strategy.shutdown ranges_sort ares_strerror during_cancel (strategy w) in
    let '(w1, trace, _) :=
      invoke_all readings (Strategy.callbacks effects)
        (mkWorld r1 s1 (handlers w)) in
    (w1, trace)
  else (mkWorld r1 (strategy w) (handlers w), []).

End WithLibraries.

(** What the closures rely on while the strategy is shut down: the resolver
    still holds its strategy, which is not initialized. *)
Definition stopped (w : World) : Prop :=
  Resolver.activeQueryStrategy_ (resolver w) = true
  ∧ Strategy.initialized_ (strategy w) = false.

End Pipeline.

(** ** Sample data for the strategy *)

Module StrategySamples.

(** A library in which [ares_library_init] fails with ARES_EFILE. *)
Definition broken_library : Strategy.Library := Strategy.mkLibrary 14 true 0.

Definition working_library : Strategy.Library := Strategy.mkLibrary 0 true 0.

(** An initialized strategy with one query in flight. *)
Definition one_pending : Strategy.t :=
  Strategy.mk (Cares.new Samples.default_config) true true
    [Strategy.mkContext "a.test" (Some 1%nat) false] ∅.

Definition lone_server : Config.DNSServerConfig :=
  Config.mkServer "10.0.0.1" 53 1 2000 true.

(** The resolver of [Samples.quick_retry] (three attempts) with the strategy
    of [one_pending]: closure number 1, which the pending context holds,
    captures retry count 0 and user callback 9. *)
Definition pending_world : Pipeline.World :=
  Pipeline.mkWorld (Samples.resolver_of Samples.quick_retry) one_pending
    [(0, Some 7%nat); (0, Some 9%nat)].

End StrategySamples.

(** * Properties *)

(** ** Hostname validation *)

Section HostnameFacts.
Import Hostname.

Lemma forallb_false_iff {A} (f : A → bool) (l : list A) :
  forallb f l = false ↔ ∃ x, In x l ∧ f x = false.
Proof.
  induction l as [|a l IH]; simpl.
  - split; [discriminate | intros (x & [] & _)].
  - rewrite andb_false_iff, IH. split.
    + intros [Ha | (x & Hx & Hfx)]; [exists a | exists x]; auto.
    + intros (x & [<- | Hx] & Hfx); [left | right; exists x]; auto.
Qed.

Lemma label_char_false (c : ascii) :
  label_char c = false ↔ isalnum c = false ∧ c ≠ "-"%char.
Proof.
  unfold label_char. rewrite orb_false_iff.
  split; intros [H1 H2]; split; auto.
  - intros ->. discriminate.
  - destruct (Ascii.eqb_spec c "-"); congruence.
Qed.

Lemma isValidHostnameLabel_false (label : list ascii) :
  isValidHostnameLabel label = false ↔ bad_label label.
Proof.
  unfold bad_label. destruct label as [|front rest]; [split; auto |].
  cbn [isValidHostnameLabel].
  destruct (Nat.ltb_spec MAX_LABEL_LENGTH (length (front :: rest))) as [Hlen|Hlen].
  { split; auto. }
  destruct (isalnum front) eqn:Hf; cbn [negb orb].
  2:{ split; auto. intros _. right; right; left. exists front. split; auto. }
  destruct (isalnum (List.last (front :: rest) front)) eqn:Hl; cbn [negb].
  2:{ split; auto. intros _. right; right; left. exists front. split; auto. }
  rewrite forallb_false_iff. split.
  - intros (c & Hc & Hch). apply label_char_false in Hch.
    right; right; right. exists c. tauto.
  - intros [H | [H | [(f & Hhd & Hbad) | (c & Hc & Hch)]]].
    + discriminate.
    + lia.
    + cbn in Hhd. inversion Hhd; subst f. destruct Hbad; congruence.
    + exists c. split; auto. apply label_char_false. tauto.
Qed.

Lemma length_zero_empty (s : string) :
  (String.length s =? 0)%nat = true ↔ s = ""%string.
Proof.
  destruct s; cbn; split; auto; discriminate.
Qed.

Lemma isValidHostname_false (hostname : string) :
  isValidHostname hostname = false ↔ fails_validation hostname.
Proof.
  unfold isValidHostname, fails_validation.
  destruct (String.length hostname =? 0)%nat eqn:H0; cbn [orb].
  { apply length_zero_empty in H0. split; auto. }
  destruct (Nat.ltb_spec MAX_HOSTNAME_LENGTH (String.length hostname)) as [Hl|Hl].
  { split; auto. }
  rewrite forallb_false_iff. split.
  - intros (label & Hin & Hbad). right; right. exists label.
    split; auto. now apply isValidHostnameLabel_false.
  - intros [-> | [H | (label & Hin & Hbad)]].
    + discriminate.
    + lia.
    + exists label. split; auto. now apply isValidHostnameLabel_false.
Qed.

(** The split of a name that ends in one dot. *)

Lemma list_ascii_of_string_app (s1 s2 : string) :
  list_ascii_of_string (String.append s1 s2)
  = list_ascii_of_string s1 ++ list_ascii_of_string s2.
Proof.
  induction s1 as [|c s1 IH]; [reflexivity |].
  change (c :: list_ascii_of_string (String.append s1 s2)
          = c :: (list_ascii_of_string s1 ++ list_ascii_of_string s2)).
  now rewrite IH.
Qed.

Lemma string_length_list (s : string) :
  String.length s = length (list_ascii_of_string s).
Proof.
  induction s as [|c s IH]; [reflexivity |].
  change (S (String.length s) = S (length (list_ascii_of_string s))).
  now rewrite IH.
Qed.

Lemma getline_labels_trailing_dot (l cur : list ascii) :
  (l = [] → cur ≠ []) →
  (l ≠ [] → List.last l "a"%char ≠ "."%char) →
  getline_labels cur (l ++ ["."%char]) = getline_labels cur l.
Proof.
  revert cur. induction l as [|c rest IH]; intros cur Hnil Hlast.
  - cbn. destruct cur; [now destruct Hnil | reflexivity].
  - cbn [app getline_labels].
    assert (Hrest : rest ≠ [] → List.last rest "a"%char ≠ "."%char).
    { intros Hne. specialize (Hlast ltac:(discriminate)).
      destruct rest; [congruence | exact Hlast]. }
    destruct (Ascii.eqb_spec c ".") as [-> | Hc].
    + f_equal. apply IH; auto.
      intros ->. exfalso. apply (Hlast ltac:(discriminate)). reflexivity.
    + apply IH; auto. intros _. now destruct cur.
Qed.

Lemma ends_with_dot_last (s : string) :
  ends_with_dot s = false →
  list_ascii_of_string s ≠ [] →
  List.last (list_ascii_of_string s) "a"%char ≠ "."%char.
Proof.
  induction s as [|c s IH]; [intros _ H; now destruct H |].
  intros He _. destruct s as [|c' s'].
  - cbn in *. destruct (Ascii.eqb_spec c "."); congruence.
  - apply IH; [exact He | discriminate].
Qed.

End HostnameFacts.

Section TrailingDot.
Import Hostname.

Example fqdn_accepted : isValidHostname "example.test." = true.
Proof. reflexivity. Qed.

Example lone_dot_rejected : isValidHostname "." = false.
Proof. reflexivity. Qed.

Example double_dot_rejected : isValidHostname "example.test.." = false.
Proof. reflexivity. Qed.

(** C10, as stated, fails: a valid name of 253 characters is rejected once a
    single dot is appended, because the length test counts the dot. *)
Lemma trailing_dot_length_counterexample :
  ends_with_dot Samples.name253 = false
  ∧ String.length Samples.name253 = 253%nat
  ∧ isValidHostname Samples.name253 = true
  ∧ isValidHostname (String.append Samples.name253 ".") = false.
Proof. repeat split; vm_compute; reflexivity. Qed.

(** C10 (amended): for a name [s] that does not end in a dot, when [s]
    followed by one dot is at most 253 characters long, the dotted name is
    accepted exactly when [s] is: the split yields the same labels. *)
Theorem trailing_dot_accepted_iff (s : string) :
  ends_with_dot s = false →
  (String.length (String.append s ".") ≤ MAX_HOSTNAME_LENGTH)%nat →
  isValidHostname (String.append s ".") = isValidHostname s.
Proof.
  intros Hend Hlen.
  destruct s as [|c s']; [reflexivity |].
  set (s := String c s') in *.
  assert (Hl : String.length (String.append s ".") = S (String.length s)).
  { rewrite !string_length_list, list_ascii_of_string_app, length_app.
    cbn. lia. }
  assert (Hlabels : labels (String.append s ".") = labels s).
  { unfold labels. rewrite list_ascii_of_string_app.
    apply getline_labels_trailing_dot.
    - intros H. discriminate H.
    - apply ends_with_dot_last, Hend. }
  unfold isValidHostname. rewrite Hlabels, Hl.
  replace (String.length s =? 0)%nat with false by reflexivity.
  cbn [Nat.eqb orb].
  destruct (Nat.ltb_spec MAX_HOSTNAME_LENGTH (S (String.length s))); [lia |].
  destruct (Nat.ltb_spec MAX_HOSTNAME_LENGTH (String.length s)); [lia |].
  reflexivity.
Qed.

Lemma trailing_dot_accepted_iff_witness :
  ends_with_dot "example.test" = false
  ∧ (String.length (String.append "example.test" ".") ≤ MAX_HOSTNAME_LENGTH)%nat
  ∧ isValidHostname (String.append "example.test" ".")
    = isValidHostname "example.test".
Proof.
  split; [reflexivity |].
  split; [vm_compute; lia |].
  apply (trailing_dot_accepted_iff "example.test"); [reflexivity | vm_compute; lia].
Defined.

End TrailingDot.

(** ** LRUCache *)

Section LRUCacheFacts.
Import LRUCache.

Lemma expired_false (now : Z) (e : CacheEntry) :
  expired now e = false ↔ now < expire_time e.
Proof. unfold expired. rewrite Z.leb_gt. reflexivity. Qed.

Lemma cleanup_lookup (now : Z) (c : t) (k : string) (e : CacheEntry) :
  cache_ (cleanup now c) !! k = Some e
  ↔ cache_ c !! k = Some e ∧ now < expire_time e.
Proof.
  cbn [cleanup cache_]. rewrite map_lookup_filter_Some. cbn.
  now rewrite expired_false.
Qed.

Lemma elem_of_lru_erase (h k : string) (l : list string) :
  k ∈ lru_erase h l ↔ k ≠ h ∧ k ∈ l.
Proof. unfold lru_erase. now rewrite list_elem_of_filter. Qed.

Lemma wf_new (n : nat) (ttl : Z) : wf (new n ttl).
Proof.
  split; cbn; [constructor |].
  intros k. rewrite lookup_empty. split.
  - intros H. inversion H.
  - intros [x Hx]. discriminate.
Qed.

Lemma wf_cleanup (now : Z) (c : t) : wf c → wf (cleanup now c).
Proof.
  intros [Hnd Hkeys]. split.
  - cbn. now apply NoDup_filter.
  - intros k. cbn [cleanup lru_list_ cache_].
    rewrite list_elem_of_filter, Hkeys. split.
    + intros [Hk [e He]]. rewrite He in Hk. exists e.
      apply map_lookup_filter_Some. auto.
    + intros [e He]. apply map_lookup_filter_Some in He as [He Hf].
      cbn in Hf. rewrite He. eauto.
Qed.

Lemma wf_erase (h : string) (c : t) (ttl' : Z) (n : nat) (hi mi : Z) :
  wf c →
  wf (mkCache n ttl' (delete h (cache_ c)) (lru_erase h (lru_list_ c)) hi mi).
Proof.
  intros [Hnd Hkeys]. split; cbn.
  - now apply NoDup_filter.
  - intros k. rewrite elem_of_lru_erase, Hkeys, lookup_delete.
    destruct (decide (h = k)) as [-> | Hne]; split.
    + intros [Hk _]. congruence.
    + intros [x Hx]. discriminate.
    + tauto.
    + intros Hs. split; [congruence | exact Hs].
Qed.

Lemma wf_touch (h : string) (e : CacheEntry) (c : t) (ttl' : Z) (n : nat)
  (hi mi : Z) :
  wf c →
  wf (mkCache n ttl' (<[h := e]> (cache_ c))
        (h :: lru_erase h (lru_list_ c)) hi mi).
Proof.
  intros [Hnd Hkeys]. split; cbn.
  - apply NoDup_cons. split.
    + rewrite elem_of_lru_erase. tauto.
    + now apply NoDup_filter.
  - intros k. rewrite elem_of_cons, elem_of_lru_erase, Hkeys, lookup_insert.
    destruct (decide (h = k)) as [-> | Hne].
    + split; eauto.
    + split.
      * intros [-> | [_ Hs]]; [congruence | exact Hs].
      * intros Hs. right. split; [congruence | exact Hs].
Qed.

Lemma wf_evict (c : t) : wf c → wf (evict c).
Proof.
  intros [Hnd Hkeys]. unfold evict.
  destruct (last (lru_list_ c)) as [k|] eqn:Hlast; [| now split].
  apply last_Some in Hlast as [l' Hl'].
  split; cbn; rewrite Hl' in *; rewrite removelast_last.
  - apply NoDup_app in Hnd. tauto.
  - intros x. rewrite lookup_delete.
    apply NoDup_app in Hnd as (_ & Hdisj & _).
    specialize (Hkeys x). rewrite elem_of_app, list_elem_of_singleton in Hkeys.
    destruct (decide (k = x)) as [-> | Hne]; split.
    + intros Hx. exfalso. apply (Hdisj x Hx). now apply list_elem_of_singleton.
    + intros [y Hy]. discriminate.
    + intros Hx. apply Hkeys. now left.
    + intros Hs. apply Hkeys in Hs as [Hx | ->]; [exact Hx | congruence].
Qed.

Lemma size_evict (c : t) :
  wf c → (0 < size c)%nat → size (evict c) = pred (size c).
Proof.
  intros [Hnd Hkeys] Hpos. unfold evict, size in *.
  destruct (last (lru_list_ c)) as [k|] eqn:Hlast.
  - cbn. apply map_size_delete_Some, Hkeys.
    now apply last_Some_elem_of.
  - apply last_None in Hlast.
    assert (Hne : base.size (cache_ c) ≠ 0%nat) by lia.
    apply map_size_ne_0_lookup in Hne as [k Hk].
    apply Hkeys in Hk. rewrite Hlast in Hk. inversion Hk.
Qed.

Lemma wf_get (h : string) (n1 n2 : Z) (c : t) :
  (get h n1 n2 c).2 ≠ ErasedRead → wf c → wf (get h n1 n2 c).1.
Proof.
  intros Hr Hwf. apply (wf_cleanup n1) in Hwf. revert Hr. unfold get.
  destruct (cache_ (cleanup n1 c) !! h) as [e|] eqn:He.
  - destruct (expired n2 e); cbn [fst snd]; [congruence | intros _].
    rewrite <- (insert_id _ _ _ He) at 1. now apply wf_touch.
  - intros _. exact Hwf.
Qed.

Lemma wf_update (h : string) (a : list string) (now : Z) (c : t) :
  wf c → wf (update h a now c).
Proof.
  intros Hwf. unfold update.
  destruct (cache_ c !! h) as [e|] eqn:He; [now apply wf_touch |].
  assert (Hwf1 : wf (if decide (max_size_ c ≤ base.size (cache_ c))%nat
                     then evict c else c)
                 ∧ cache_ (if decide (max_size_ c ≤ base.size (cache_ c))%nat
                           then evict c else c) !! h = None).
  { destruct (decide _); [| auto]. split; [now apply wf_evict |].
    unfold evict. destruct (last (lru_list_ c)); [| exact He].
    cbn. rewrite lookup_delete. now destruct (decide _). }
  destruct Hwf1 as [[Hnd Hkeys] Hnone]. split; cbn.
  - apply NoDup_cons. split; [| exact Hnd].
    rewrite Hkeys, Hnone. intros [x Hx]. discriminate.
  - intros k. rewrite elem_of_cons, Hkeys, lookup_insert.
    destruct (decide (h = k)) as [-> | Hne].
    + split; eauto.
    + split; [| eauto].
      intros [-> | Hs]; [congruence | exact Hs].
Qed.

Lemma wf_remove (h : string) (c : t) : wf c → wf (remove h c).
Proof.
  intros Hwf. unfold remove. destruct (cache_ c !! h); [| exact Hwf].
  now apply wf_erase.
Qed.

Lemma step_get (h : string) (n1 n2 : Z) (c c' : t) :
  step c (OpGet h n1 n2) = Some c'
  ↔ (get h n1 n2 c).2 ≠ ErasedRead ∧ c' = (get h n1 n2 c).1.
Proof.
  cbn [step]. destruct (get h n1 n2 c) as [c1 []]; cbn [fst snd];
    split; try (intros [= <-]; split; [discriminate | reflexivity]);
    try (intros [_ ->]; reflexivity); try discriminate.
  intros [H _]. now contradict H.
Qed.

Lemma wf_step (c c' : t) (o : op) : step c o = Some c' → wf c → wf c'.
Proof.
  destruct o; cbn [step].
  - intros Hs. apply step_get in Hs as [Hr ->]. now apply wf_get.
  - intros [= <-]. apply wf_update.
  - intros [= <-]. apply wf_remove.
  - intros [= <-] _. apply (wf_new (max_size_ c) (ttl_ c)).
Qed.

Lemma max_size_get (h : string) (n1 n2 : Z) (c : t) :
  max_size_ (get h n1 n2 c).1 = max_size_ c.
Proof.
  unfold get. destruct (cache_ (cleanup n1 c) !! h) as [e|];
    [destruct (expired n2 e) |]; reflexivity.
Qed.

Lemma max_size_step (c c' : t) (o : op) :
  step c o = Some c' → max_size_ c' = max_size_ c.
Proof.
  destruct o; cbn [step].
  - intros Hs. apply step_get in Hs as [_ ->]. apply max_size_get.
  - intros [= <-]. unfold update. destruct (cache_ c !! hostname); [reflexivity |].
    destruct (decide _); [| reflexivity].
    unfold evict. now destruct (last (lru_list_ c)).
  - intros [= <-]. unfold remove. now destruct (cache_ c !! hostname).
  - now intros [= <-].
Qed.

Lemma size_cleanup (now : Z) (c : t) : (size (cleanup now c) ≤ size c)%nat.
Proof. apply map_subseteq_size, map_filter_subseteq. Qed.

Lemma size_get (h : string) (n1 n2 : Z) (c : t) :
  (size (get h n1 n2 c).1 ≤ size c)%nat.
Proof.
  pose proof (size_cleanup n1 c) as Hc. unfold get.
  destruct (cache_ (cleanup n1 c) !! h) as [e|] eqn:He;
    [destruct (expired n2 e) |]; unfold size in *; cbn [fst cache_];
    try exact Hc.
  rewrite map_size_delete, He. cbn [Nat.pred]. lia.
Qed.

Lemma size_update (h : string) (a : list string) (now : Z) (c : t) :
  wf c → (1 ≤ max_size_ c)%nat → (size c ≤ max_size_ c)%nat →
  (size (update h a now c) ≤ max_size_ c)%nat.
Proof.
  intros Hwf Hmax Hsize. unfold update.
  destruct (cache_ c !! h) as [e|] eqn:He.
  - unfold size in *. cbn. rewrite map_size_insert_Some; eauto.
  - destruct (decide (max_size_ c ≤ base.size (cache_ c))%nat) as [Hfull|Hroom].
    + pose proof (size_evict c Hwf ltac:(unfold size; lia)) as Hev.
      unfold size in *. cbn [cache_].
      rewrite map_size_insert.
      destruct (cache_ (evict c) !! h); unfold Datatypes.id; lia.
    + unfold size in *. cbn [cache_].
      rewrite map_size_insert_None by exact He. lia.
Qed.

Lemma size_remove (h : string) (c : t) : (size (remove h c) ≤ size c)%nat.
Proof.
  unfold remove, size. destruct (cache_ c !! h) eqn:He; [| lia].
  cbn. rewrite map_size_delete, He. cbn. lia.
Qed.

Lemma run_cons (o : op) (ops : list op) (c c' : t) :
  run (o :: ops) c = Some c'
  ↔ ∃ c1, step c o = Some c1 ∧ run ops c1 = Some c'.
Proof.
  cbn [run]. destruct (step c o) as [c1|]; split.
  - eauto.
  - now intros (c2 & [= <-] & H).
  - discriminate.
  - now intros (c2 & H & _).
Qed.

(** With a capacity of at least one, no sequence of calls lets the cache
    grow beyond [max_size_]. *)
Lemma size_bounded (max_size : nat) (ttl : Z) (ops : list op) (c : t) :
  (1 ≤ max_size)%nat →
  run ops (new max_size ttl) = Some c →
  (size c ≤ max_size)%nat.
Proof.
  intros Hmax.
  assert (H : ∀ c0, wf c0 → max_size_ c0 = max_size →
              (size c0 ≤ max_size)%nat →
              run ops c0 = Some c →
              (size c ≤ max_size)%nat).
  { induction ops as [|o ops IH]; intros c0 Hwf Hm Hs Hrun.
    - cbn in Hrun. now inversion Hrun; subst.
    - apply run_cons in Hrun as (c1 & Hstep & Hrun).
      apply (IH c1); [eapply wf_step; eauto | | | exact Hrun].
      + erewrite max_size_step; eauto.
      + destruct o; cbn [step] in Hstep.
        * apply step_get in Hstep as [_ ->].
          pose proof (size_get hostname now_cleanup now c0). lia.
        * inversion Hstep; subst c1.
          rewrite <- Hm. apply size_update; [exact Hwf | lia | lia].
        * inversion Hstep; subst c1.
          pose proof (size_remove hostname c0). lia.
        * inversion Hstep; subst c1.
          unfold size, clear. cbn. rewrite map_size_empty. lia. }
  apply H; [apply wf_new | reflexivity |].
  unfold size, new. cbn. rewrite map_size_empty. lia.
Qed.

Lemma cleanup_lookup_eq (now : Z) (c : t) (k : string) :
  cache_ (cleanup now c) !! k
  = match cache_ c !! k with
    | Some e => if expired now e then None else Some e
    | None => None
    end.
Proof.
  cbn [cleanup cache_]. rewrite map_lookup_filter.
  destruct (cache_ c !! k) as [e|]; [| reflexivity]. cbn.
  destruct (expired now e); [rewrite option_guard_False | rewrite option_guard_True];
    cbn; congruence.
Qed.

Lemma cleanup_lru_not_in (now : Z) (c : t) (k : string) (e : CacheEntry) :
  cache_ c !! k = Some e → expired now e = true →
  k ∉ lru_list_ (cleanup now c).
Proof.
  intros He Hx. cbn [cleanup lru_list_]. rewrite list_elem_of_filter, He.
  intros [H _]. congruence.
Qed.

(** What [get] does, by the entry found for the key and the two clock
    readings: the sweep removes the entries that have expired at
    [now_cleanup]; a key then absent is a miss; a key present and unexpired
    at [now] is a hit, moved to the front of the LRU list; a key that the
    sweep leaves and that has expired at [now] is erased and then read. *)
Lemma get_cases (hostname : string) (now_cleanup now : Z) (c : t) :
  let c' := (get hostname now_cleanup now c).1 in
  let r := (get hostname now_cleanup now c).2 in
  match cache_ c !! hostname with
  | Some e =>
      if expired now_cleanup e then
        r = Miss
        ∧ cache_ c' !! hostname = None
        ∧ (hostname ∉ lru_list_ c')
        ∧ misses_ c' = wrap64 (misses_ c + 1)
        ∧ hits_ c' = hits_ c
      else if expired now e then
        r = ErasedRead
      else
        r = Hit (ips e)
        ∧ cache_ c' !! hostname = Some e
        ∧ lru_list_ c'
          = hostname :: lru_erase hostname (lru_list_ (cleanup now_cleanup c))
        ∧ hits_ c' = wrap64 (hits_ c + 1)
        ∧ misses_ c' = misses_ c
  | None =>
      r = Miss
      ∧ cache_ c' !! hostname = None
      ∧ misses_ c' = wrap64 (misses_ c + 1)
      ∧ hits_ c' = hits_ c
  end
  ∧ (r ≠ ErasedRead →
     ∀ k e, cache_ c' !! k = Some e
            ↔ (cache_ c !! k = Some e ∧ now_cleanup < expire_time e))
  ∧ (∀ addrs, r = Hit addrs →
       ∃ e, cache_ c !! hostname = Some e ∧ addrs = ips e
            ∧ now < expire_time e ∧ now_cleanup < expire_time e).
Proof.
  cbv zeta. unfold get.
  pose proof (cleanup_lookup_eq now_cleanup c hostname) as Hh.
  destruct (cache_ c !! hostname) as [e|] eqn:He.
  - destruct (expired now_cleanup e) eqn:Hx1; rewrite Hh.
    + cbn [fst snd cache_ lru_list_ hits_ misses_].
      split; [| split; [intros _ k e'; apply cleanup_lookup | discriminate]].
      split; [reflexivity |]. split; [exact Hh |].
      split; [| split; reflexivity].
      eapply cleanup_lru_not_in; eauto.
    + destruct (expired now e) eqn:Hx2;
        cbn [fst snd cache_ lru_list_ hits_ misses_].
      * split; [reflexivity |]. split; [congruence | discriminate].
      * split.
        { split; [reflexivity |]. split; [exact Hh |].
          split; [reflexivity |]. split; reflexivity. }
        split; [intros _ k e'; apply cleanup_lookup |].
        intros addrs Ha. inversion Ha; subst. exists e.
        split; [reflexivity |]. split; [reflexivity |].
        split; now apply expired_false.
  - rewrite Hh. cbn [fst snd cache_ lru_list_ hits_ misses_].
    split; [| split; [intros _ k e'; apply cleanup_lookup | discriminate]].
    split; [reflexivity |]. split; [exact Hh |]. split; reflexivity.
Qed.

(** [get] reads an erased entry exactly when the key's entry outlives the
    sweep and has expired at the second reading. *)
Lemma get_reads_erased (hostname : string) (now_cleanup now : Z) (c : t) :
  (get hostname now_cleanup now c).2 = ErasedRead
  ↔ reads_erased hostname now_cleanup now c = true.
Proof.
  pose proof (get_cases hostname now_cleanup now c) as [H _].
  cbv zeta in H. unfold reads_erased.
  destruct (cache_ c !! hostname) as [e|].
  - destruct (expired now_cleanup e); cbn [negb andb].
    + destruct H as [-> _]. split; discriminate.
    + destruct (expired now e).
      * rewrite H. tauto.
      * destruct H as [-> _]. split; discriminate.
  - destruct H as [-> _]. split; discriminate.
Qed.

Lemma reads_erased_get (h k : string) (a b n1 n2 : Z) (c : t) :
  (get h a b c).2 ≠ ErasedRead →
  reads_erased k n1 n2 c = false →
  reads_erased k n1 n2 (get h a b c).1 = false.
Proof.
  intros Hr Hk. pose proof (get_cases h a b c) as (_ & Hmap & _).
  cbv zeta in Hmap. specialize (Hmap Hr k). unfold reads_erased in *.
  destruct (cache_ (get h a b c).1 !! k) as [e|]; [| reflexivity].
  destruct (proj1 (Hmap e) eq_refl) as [He _]. now rewrite He in Hk.
Qed.

(** With one clock reading for the sweep and the check, [get] never reaches
    the branch that erases the entry. *)
Lemma get_same_reading (hostname : string) (now : Z) (c : t) :
  (get hostname now now c).2 ≠ ErasedRead.
Proof.
  rewrite get_reads_erased. unfold reads_erased.
  destruct (cache_ c !! hostname) as [e|]; [| discriminate].
  destruct (expired now e); discriminate.
Qed.

(** C5: an entry stored at time 0 with a ttl of 1 ms expires at 1000000 ns.
    A [get] whose sweep reads the clock at 999999 keeps it; the reading
    after the lookup is 1000000, so the entry counts as expired:
    [cache_.erase(it)] destroys it and the next statement reads
    [entry.lru_iterator] from it.  The claim has this call evict the entry
    and count a miss. *)
Theorem get_reads_erased_entry :
  let c := update "a.test" ["192.0.2.1"%string] 0 (new 10 1) in
  cache_ c !! "a.test"%string = Some (mkEntry ["192.0.2.1"%string] 1000000)
  ∧ (get "a.test" 999999 1000000 c).2 = ErasedRead
  ∧ misses_ (get "a.test" 999999 1000000 c).1 = misses_ c.
Proof. vm_compute. repeat split; reflexivity. Qed.

(** C6 at capacity zero: the first [update] finds the cache full, [evict]
    has no tail to remove, and the entry is inserted all the same.  The cache
    then holds one entry although [max_size_] is 0. *)
Theorem update_exceeds_zero_capacity :
  let c := update "a.test" ["192.0.2.1"%string] 0 (new 0 300000) in
  max_size_ c = 0%nat ∧ size c = 1%nat ∧ lru_list_ c = ["a.test"%string].
Proof. vm_compute. repeat split; reflexivity. Qed.

(** S7 of the specification: capacity 2, entries a, b, c. *)
Example lru_eviction_order :
  let c := update "c" ["3.3.3.3"%string] 2
             (update "b" ["2.2.2.2"%string] 1
                (update "a" ["1.1.1.1"%string] 0 (new 2 1000))) in
  (get "a" 3 3 c).2 = Miss
  ∧ (get "b" 3 3 c).2 = Hit ["2.2.2.2"%string]
  ∧ (get "c" 3 3 c).2 = Hit ["3.3.3.3"%string].
Proof. vm_compute. repeat split; reflexivity. Qed.

End LRUCacheFacts.

(** ** Server selection *)

Section CaresFacts.
Import Cares.

Lemma float_ltb_irrefl (x : float) : PrimFloat.ltb x x = false.
Proof.
  rewrite ltb_spec. unfold SFltb, SFcompare.
  destruct (Prim2SF x) as [s | s | | s m e]; try reflexivity.
  - destruct s; reflexivity.
  - destruct s; rewrite Z.compare_refl, Pos.compare_refl; reflexivity.
Qed.

Lemma elem_of_available_servers (st : t) (a : string) (sc : float) :
  (a, sc) ∈ available_servers st
  ↔ ∃ server health,
      server ∈ Config.servers (config_ st)
      ∧ Config.enabled server = true
      ∧ server_health_ st !! Config.address server = Some health
      ∧ healthy health = true
      ∧ a = Config.address server
      ∧ sc = score server health.
Proof.
  unfold available_servers. rewrite list_elem_of_omap. unfold candidate. split.
  - intros (server & Hin & Hc).
    destruct (Config.enabled server) eqn:Hen; [| discriminate].
    destruct (server_health_ st !! Config.address server) as [h|] eqn:Hh;
      [| discriminate].
    destruct (healthy h) eqn:Hhe; [| discriminate].
    inversion Hc; subst. exists server, h. auto 10.
  - intros (server & h & Hin & Hen & Hh & Hhe & -> & ->).
    exists server. split; [exact Hin |]. now rewrite Hen, Hh, Hhe.
Qed.

Lemma available_servers_nil (st : t) :
  available_servers st = []
  ↔ ∀ server, server ∈ Config.servers (config_ st) → ¬ eligible st server.
Proof.
  split.
  - intros Hnil server Hin (Hen & h & Hh & Hhe).
    assert (Hx : (Config.address server, score server h) ∈ available_servers st).
    { apply elem_of_available_servers. exists server, h. auto 10. }
    rewrite Hnil in Hx. inversion Hx.
  - intros Hno. destruct (available_servers st) as [|[a sc] l] eqn:Hav;
      [reflexivity |].
    assert (Hx : (a, sc) ∈ available_servers st) by (rewrite Hav; left).
    apply elem_of_available_servers in Hx
      as (server & h & Hin & Hen & Hh & Hhe & _ & _).
    exfalso. apply (Hno server Hin). split; eauto.
Qed.

Lemma sorted_front_is_best (ranges_sort : list Scored → list Scored)
  (l : list Scored) (top : Scored) (rest : list Scored) :
  sort_contract ranges_sort l →
  ranges_sort l = top :: rest →
  top ∈ l ∧ ∀ x, x ∈ l → PrimFloat.ltb top.2 x.2 = false.
Proof.
  intros [Hperm Hsorted] Heq. rewrite Heq in *. split.
  - rewrite <- Hperm. left.
  - intros x Hx. rewrite <- Hperm in Hx.
    apply StronglySorted_inv in Hsorted as [_ Hall].
    apply elem_of_cons in Hx as [-> | Hx].
    + apply float_ltb_irrefl.
    + rewrite Forall_forall in Hall. apply Hall. exact Hx.
Qed.

(** C4, as stated, fails on two counts.  With the three equally scored
    servers of the default configuration, a sort that meets the library's
    contract may put the last one first, and [selectServer] then returns it
    instead of the first configured server.  And a configured server whose
    address is the empty string makes [selectServer] return the empty string
    although a server is configured. *)
Lemma selectServer_counterexample :
  let st := Cares.new Samples.default_config in
  let unnamed := Cares.new Samples.unnamed_server_config in
  available_servers st
  = [("114.114.114.114"%string, 1%float); ("8.8.8.8"%string, 1%float);
     ("1.1.1.1"%string, 1%float)]
  ∧ sort_contract tie_reversing_sort (available_servers st)
  ∧ (selectServer tie_reversing_sort st).1 = "1.1.1.1"%string
  ∧ Config.servers (config_ unnamed) ≠ []
  ∧ sort_contract stable_sort (available_servers unnamed)
  ∧ (selectServer stable_sort unnamed).1 = ""%string.
Proof.
  cbv zeta.
  assert (Hav : available_servers (Cares.new Samples.default_config)
                = [("114.114.114.114"%string, 1%float);
                   ("8.8.8.8"%string, 1%float);
                   ("1.1.1.1"%string, 1%float)]) by (vm_compute; reflexivity).
  split; [exact Hav |].
  split.
  { rewrite Hav. split.
    - change (tie_reversing_sort
                [("114.114.114.114"%string, 1%float);
                 ("8.8.8.8"%string, 1%float); ("1.1.1.1"%string, 1%float)])
        with [("1.1.1.1"%string, 1%float); ("8.8.8.8"%string, 1%float);
              ("114.114.114.114"%string, 1%float)].
      apply Permutation_rev.
    - repeat constructor. }
  split; [vm_compute; reflexivity |].
  split; [discriminate |].
  split; [| vm_compute; reflexivity].
  split.
  - apply Permutation_refl.
  - repeat constructor.
Qed.

(** C4 (amended): under the library's contract for the sort, [selectServer]
    - returns the empty string and changes nothing when no server is
      configured, and otherwise returns the address of a configured server;
    - when some configured server is eligible (enabled, with a tracked
      health record that says healthy), leaves the health map alone and
      returns the address of an eligible server whose score
      [weight / (1.0 + avg_latency)] no eligible server exceeds;
    - when none is eligible, sets [healthy] to true and [error_count] to 0
      in every tracked record and returns the first configured address.
    Which of several equally scored servers is returned is not fixed. *)
Theorem selectServer_spec (ranges_sort : list Scored → list Scored) (st : t) :
  sort_contract ranges_sort (available_servers st) →
  let ret := (selectServer ranges_sort st).1 in
  let st' := (selectServer ranges_sort st).2 in
  match Config.servers (config_ st) with
  | [] => ret = ""%string ∧ st' = st
  | first :: _ =>
      (∃ server, server ∈ Config.servers (config_ st)
                 ∧ ret = Config.address server)
      ∧ ((∃ server, server ∈ Config.servers (config_ st) ∧ eligible st server) →
         st' = st
         ∧ ∃ server health,
             server ∈ Config.servers (config_ st)
             ∧ Config.enabled server = true
             ∧ server_health_ st !! Config.address server = Some health
             ∧ healthy health = true
             ∧ ret = Config.address server
             ∧ ∀ server' health',
                 server' ∈ Config.servers (config_ st) →
                 Config.enabled server' = true →
                 server_health_ st !! Config.address server' = Some health' →
                 healthy health' = true →
                 PrimFloat.ltb (score server health) (score server' health')
                 = false)
      ∧ ((∀ server, server ∈ Config.servers (config_ st) →
                    ¬ eligible st server) →
         ret = Config.address first
         ∧ config_ st' = config_ st
         ∧ ∀ k, server_health_ st' !! k
                = (λ h, mkHealth true (avg_latency h) 0)
                    <$> server_health_ st !! k)
  end.
Proof.
  intros Hsort. cbv zeta. unfold selectServer.
  destruct (Config.servers (config_ st)) as [|first others] eqn:Hservers;
    [split; reflexivity |].
  pose proof (available_servers_nil st) as Hnil. rewrite Hservers in Hnil.
  pose proof (elem_of_available_servers st) as Hmem. rewrite Hservers in Hmem.
  destruct (available_servers st) as [|x l] eqn:Hav.
  - cbn [fst snd]. split; [exists first; split; [left | reflexivity] |].
    split.
    + intros (server & Hin & Hel). exfalso.
      destruct Hnil as [Hnil _]. exact (Hnil eq_refl server Hin Hel).
    + intros _. split; [reflexivity |]. split; [reflexivity |].
      intros k. cbn [server_health_]. apply lookup_fmap.
  - destruct (ranges_sort (x :: l)) as [|top rest] eqn:Hsorted.
    { destruct Hsort as [Hperm _]. rewrite Hsorted in Hperm.
      apply Permutation_nil in Hperm. discriminate. }
    destruct (sorted_front_is_best _ _ _ _ Hsort Hsorted) as [Htop Hbest].
    destruct top as [a sc]. cbn [fst snd] in *.
    apply Hmem in Htop as (server & h & Hin & Hen & Hh & Hhe & -> & ->).
    split; [exists server; split; [exact Hin | reflexivity] |].
    split.
    + intros _. split; [reflexivity |].
      exists server, h. repeat (split; [assumption || reflexivity |]).
      intros server' h' Hin' Hen' Hh' Hhe'.
      apply (Hbest (Config.address server', score server' h')).
      apply Hmem. exists server', h'. auto 10.
    + intros Hno. exfalso. apply (Hno server Hin). split; eauto.
Qed.

(** Scenario S6: recovery flips both servers back and answers with the
    first configured one, whatever the sort. *)
Example recovery_returns_first_server (ranges_sort : list Scored → list Scored) :
  let out := selectServer ranges_sort Samples.both_unhealthy in
  out.1 = "10.0.0.1"%string
  ∧ server_health_ out.2 !! "10.0.0.1"%string = Some (mkHealth true 7 0)
  ∧ server_health_ out.2 !! "10.0.0.2"%string = Some (mkHealth true 9 0).
Proof. vm_compute. repeat split; reflexivity. Qed.

Lemma selectServer_spec_witness :
  let st := Cares.new Samples.default_config in
  sort_contract stable_sort (available_servers st)
  ∧ (selectServer stable_sort st).2 = st
  ∧ ∃ server, server ∈ Config.servers (config_ st)
              ∧ (selectServer stable_sort st).1 = Config.address server.
Proof.
  cbv zeta.
  assert (Hc : sort_contract stable_sort
                 (available_servers (Cares.new Samples.default_config))).
  { split.
    - apply Permutation_refl.
    - repeat constructor. }
  split; [exact Hc |].
  pose proof (selectServer_spec stable_sort
                (Cares.new Samples.default_config) Hc) as H.
  cbv zeta in H.
  change (Config.servers (config_ (Cares.new Samples.default_config)))
    with Samples.default_servers in H.
  unfold Samples.default_servers at 1 in H.
  destruct H as (Hret & Hsome & _).
  split; [| exact Hret].
  apply Hsome.
  exists (Config.mkServer "8.8.8.8" 53 1 2000 true).
  split; [right; left |].
  split; [reflexivity |].
  exists fresh_health. split; reflexivity.
Defined.

End CaresFacts.

(** ** RunningStats *)

Section RunningStatsFacts.
Import RunningStats.



(** *** The order of binary64 values *)












(** *** min() and max() in binary64 *)



(** *** The counter *)






(** *** The recurrence in arithmetic without rounding *)

Section Exact.
Local Open Scope R_scope.







End Exact.



End RunningStatsFacts.

(** ** The resolver *)

Section ResolverFacts.
Import Resolver.
Variable ares_strerror : Z → string.

(** C7: on an initialized resolver, a name that fails validation (empty,
    longer than 253 characters, or with a label that is empty, longer than
    63 characters, not starting and ending with an alphanumeric character,
    or holding a character other than alphanumerics and hyphen) makes
    [resolve] call the user callback with ARES_EBADNAME and do nothing else:
    the resolver (cache, metrics) is unchanged and no event or query is
    issued. *)
Theorem resolve_rejects_invalid_hostname (st : t) (name : string) (f : nat)
  (rd : Readings) :
  initialized_ st = true →
  Hostname.fails_validation name →
  resolve ares_strerror st name (Some f) rd
  = (st, [UserCallback f
            (mkResult Ares.ARES_EBADNAME name [] 0
               (ares_strerror Ares.ARES_EBADNAME) false)]).
Proof.
  intros Hinit Hbad. apply isValidHostname_false in Hbad.
  unfold resolve. rewrite Hinit, Hbad. reflexivity.
Qed.

(** *** The cache read and the metrics calls *)

Lemma cache_get_erased (name : string) (rd : Readings) (st : t) :
  (cache_get name rd st).2 = LRUCache.ErasedRead
  ↔ reads_erased name rd st = true.
Proof.
  unfold cache_get, reads_erased. destruct (activeCache_ st) as [c|].
  - rewrite <- get_reads_erased.
    now destruct (LRUCache.get name (now_cleanup rd) (now_lookup rd) c).
  - split; discriminate.
Qed.

Lemma cache_get_found (name : string) (rd : Readings) (st : t) :
  reads_erased name rd st = false →
  (cache_get name rd st).2 ≠ LRUCache.ErasedRead.
Proof. rewrite cache_get_erased. congruence. Qed.

Lemma reads_erased_cache_get (name name' : string) (rd rd' : Readings)
  (st : t) :
  (cache_get name rd st).2 ≠ LRUCache.ErasedRead →
  reads_erased name' rd' st = false →
  reads_erased name' rd' (with_cache (cache_get name rd st).1 st) = false.
Proof.
  unfold cache_get, reads_erased. cbn [with_cache activeCache_].
  destruct (activeCache_ st) as [c|]; [| auto].
  pose proof (reads_erased_get name name' (now_cleanup rd) (now_lookup rd)
                (now_cleanup rd') (now_lookup rd') c) as H.
  destruct (LRUCache.get name (now_cleanup rd) (now_lookup rd) c) as [c' r].
  cbn [fst snd] in *. exact H.
Qed.

Lemma record_result_last_cleanup (result : ResolveResult) (rd : Readings)
  (m : BasicMetrics.t) :
  BasicMetrics.last_cleanup_ (record_result ares_strerror result rd m)
  = BasicMetrics.last_cleanup_ m.
Proof.
  unfold record_result, BasicMetrics.recordQuery.
  destruct (_ && _); reflexivity.
Qed.

Lemma record_result_total_retries (result : ResolveResult) (rd : Readings)
  (m : BasicMetrics.t) :
  BasicMetrics.total_retries_ (record_result ares_strerror result rd m)
  = BasicMetrics.total_retries_ m.
Proof.
  unfold record_result, BasicMetrics.recordQuery.
  destruct (_ && _); reflexivity.
Qed.

Lemma follows_refl (st : t) : follows st st.
Proof. split; auto. Qed.

Lemma follows_trans (st st1 st2 : t) :
  follows st st1 → follows st1 st2 → follows st st2.
Proof.
  intros [A1 A2] [B1 B2]. split.
  - auto.
  - intros rd. now rewrite B2.
Qed.

Lemma follows_with_metrics (f : BasicMetrics.t → BasicMetrics.t) (st : t) :
  (∀ m, BasicMetrics.last_cleanup_ (f m) = BasicMetrics.last_cleanup_ m) →
  follows st (with_metrics f st).
Proof.
  intros Hf. split; [auto |].
  intros rd. unfold metrics_return. cbn [with_metrics metrics_].
  destruct (metrics_ st) as [m|]; [| reflexivity]. cbn.
  unfold record_returns, BasicMetrics.cleanup_due. now rewrite Hf.
Qed.

Lemma follows_cache_get (name : string) (rd : Readings) (st : t) :
  (cache_get name rd st).2 ≠ LRUCache.ErasedRead →
  follows st (with_cache (cache_get name rd st).1 st).
Proof.
  intros Hr. split; [| reflexivity].
  intros name' rd'. now apply reads_erased_cache_get.
Qed.

Lemma follows_completes (st st1 : t) (a : ResolveResult * Readings) :
  follows st st1 → completes st a → completes st1 a.
Proof.
  intros [F1 F2] [C1 C2]. split; [auto | now rewrite F2].
Qed.

(** Neither [resolve] nor [handleQueryResult] ever adds to or removes from
    [active_contexts_]. *)
Lemma resolve_active_contexts (st : t) (name : string) (cb : ResolveCallback)
  (rd : Readings) :
  active_contexts_ (resolve ares_strerror st name cb rd).1
  = active_contexts_ st.
Proof.
  unfold resolve.
  destruct (negb (initialized_ st)); [reflexivity |].
  destruct (negb (Hostname.isValidHostname name)); [reflexivity |].
  destruct (_ <=? _); [reflexivity |].
  destruct (cache_get name rd st) as [c' [ips| |]]; try reflexivity.
  destruct (activeQueryStrategy_ st); reflexivity.
Qed.

Lemma handleQueryResult_active_contexts (st : t) (n : Z)
  (result : ResolveResult) (cb : ResolveCallback) (rd : Readings) :
  active_contexts_ (handleQueryResult ares_strerror st n result cb rd).1
  = active_contexts_ st.
Proof.
  unfold handleQueryResult.
  destruct (cache_get (hostname result) rd st) as [c' found].
  destruct found;
    repeat (match goal with |- context [if ?b then _ else _] => destruct b end);
    reflexivity.
Qed.

(** The admission test as the code performs it. *)
Lemma resolve_busy (st : t) (name : string) (f : nat) (rd : Readings) :
  initialized_ st = true →
  Hostname.isValidHostname name = true →
  Config.max_concurrent_queries (configManager_ st)
  ≤ Z.of_nat (length (active_contexts_ st)) →
  resolve ares_strerror st name (Some f) rd
  = (st, [UserCallback f
            (mkResult Ares.ARES_EOF name [] 0
               (ares_strerror Ares.ARES_EOF) false)]).
Proof.
  intros Hinit Hvalid Hfull. unfold resolve. rewrite Hinit, Hvalid. cbn [negb].
  apply Z.leb_le in Hfull. rewrite Hfull. reflexivity.
Qed.

(** *** One strategy result *)

Lemma retryable_not_success (code : Z) :
  retryable code = true → (code =? Ares.ARES_SUCCESS) = false.
Proof.
  unfold retryable. destruct (code =? Ares.ARES_SUCCESS); [discriminate | auto].
Qed.

Lemma retryable_spec (code : Z) :
  retryable code = true
  ↔ code ≠ Ares.ARES_SUCCESS ∧ code ≠ Ares.ARES_ENODATA
    ∧ code ≠ Ares.ARES_ENOTFOUND.
Proof.
  unfold retryable. rewrite !andb_true_iff, !negb_true_iff, !Z.eqb_neq. tauto.
Qed.

(** The handler stops at the cache read when that read comes to an entry it
    has erased. *)
Lemma handleQueryResult_erased (st : t) (n : Z) (result : ResolveResult)
  (cb : ResolveCallback) (rd : Readings) :
  reads_erased (hostname result) rd st = true →
  handleQueryResult ares_strerror st n result cb rd
  = (with_cache (cache_get (hostname result) rd st).1 st,
     [CacheReadsErasedEntry]).
Proof.
  intros He. apply cache_get_erased in He. unfold handleQueryResult.
  destruct (cache_get (hostname result) rd st) as [c' found].
  cbn [fst snd] in *. now subst found.
Qed.

(** The handler stops inside [recordQuery] when the clean-up is due: the
    counters of the query are updated, nothing after the call is done. *)
Lemma handleQueryResult_locked (st : t) (n : Z) (result : ResolveResult)
  (cb : ResolveCallback) (rd : Readings) :
  reads_erased (hostname result) rd st = false →
  metrics_return rd st = false →
  handleQueryResult ares_strerror st n result cb rd
  = (with_metrics (record_result ares_strerror result rd)
       (with_cache (cache_get (hostname result) rd st).1 st),
     [MetricsLocksOwnMutex]).
Proof.
  intros He Hm. apply cache_get_found in He. unfold handleQueryResult.
  destruct (cache_get (hostname result) rd st) as [c' found].
  cbn [fst snd] in *. rewrite Hm. cbn [negb].
  destruct found; [reflexivity | reflexivity | congruence].
Qed.

(** Otherwise the handler goes on to its three cases. *)
Lemma handleQueryResult_returns (st : t) (n : Z) (result : ResolveResult)
  (cb : ResolveCallback) (rd : Readings) :
  reads_erased (hostname result) rd st = false →
  metrics_return rd st = true →
  handleQueryResult ares_strerror st n result cb rd
  = let cache1 := (cache_get (hostname result) rd st).1 in
    let old := addresses_read (cache_get (hostname result) rd st).2 in
    let st1 :=
      with_metrics (record_result ares_strerror result rd)
        (with_cache cache1 st) in
    if (status result =? Ares.ARES_SUCCESS)
       && negb (bool_decide (ip_addresses result = [])) then
      (with_cache
         (LRUCache.update (hostname result) (ip_addresses result)
            (now_update rd) <$> cache1) st1,
       (if bool_decide (old = ip_addresses result) then []
        else notifyAddressChange st (hostname result) old
               (ip_addresses result) rd)
       ++ deliver_result st result cb)
    else if retryable (status result)
            && (wrap32 n
                <? Config.max_attempts (Config.retry (configManager_ st)))
    then
      (with_metrics (BasicMetrics.recordRetry (hostname result) (n + 1)) st1,
       SleepFor (backoff_delay (Config.retry (configManager_ st)) (n + 1))
       :: if activeQueryStrategy_ st
          then [StrategyQuery (hostname result) (n + 1) cb] else [])
    else (st1, deliver_result st result cb).
Proof.
  intros He Hm. apply cache_get_found in He. unfold handleQueryResult.
  destruct (cache_get (hostname result) rd st) as [c' found].
  cbn [fst snd] in *. rewrite Hm. cbn [negb].
  destruct found; [reflexivity | reflexivity | congruence].
Qed.

(** A retryable failure below the attempt limit: a retry is recorded, the
    handler sleeps for the backoff delay and hands the query back to the
    strategy with the incremented count; the user callback is not called. *)
Lemma handleQueryResult_retry (st : t) (n : Z) (result : ResolveResult)
  (cb : ResolveCallback) (rd : Readings) :
  completes st (result, rd) →
  retryable (status result) = true →
  wrap32 n < Config.max_attempts (Config.retry (configManager_ st)) →
  handleQueryResult ares_strerror st n result cb rd
  = (with_metrics (BasicMetrics.recordRetry (hostname result) (n + 1))
       (with_metrics (record_result ares_strerror result rd)
          (with_cache (cache_get (hostname result) rd st).1 st)),
     SleepFor (backoff_delay (Config.retry (configManager_ st)) (n + 1))
     :: if activeQueryStrategy_ st
        then [StrategyQuery (hostname result) (n + 1) cb] else []).
Proof.
  intros [He Hm] Hretry Hlimit.
  rewrite handleQueryResult_returns by assumption. cbv zeta.
  rewrite (retryable_not_success _ Hretry), Hretry. cbn [andb].
  apply Z.ltb_lt in Hlimit. rewrite Hlimit. reflexivity.
Qed.

Lemma record_follows (st : t) (result : ResolveResult) (rd : Readings) :
  completes st (result, rd) →
  follows st
    (with_metrics (record_result ares_strerror result rd)
       (with_cache (cache_get (hostname result) rd st).1 st)).
Proof.
  intros [He _].
  eapply follows_trans; [apply follows_cache_get, cache_get_found, He |].
  apply follows_with_metrics, record_result_last_cleanup.
Qed.

Lemma handleQueryResult_retry_follows (st : t) (n : Z)
  (result : ResolveResult) (rd : Readings) :
  completes st (result, rd) →
  follows st
    (with_metrics (BasicMetrics.recordRetry (hostname result) (n + 1))
       (with_metrics (record_result ares_strerror result rd)
          (with_cache (cache_get (hostname result) rd st).1 st))).
Proof.
  intros Hend.
  eapply follows_trans; [apply record_follows, Hend |].
  now apply follows_with_metrics.
Qed.

(** Without wrap-around the delay is the one of the specification. *)
Lemma backoff_delay_exact (retry : Config.RetryConfig) (n : Z) :
  0 ≤ n < 32 →
  0 ≤ Config.base_delay_ms retry →
  Config.base_delay_ms retry * 2 ^ n < 2 ^ 32 →
  backoff_delay retry (n + 1)
  = Z.min (Config.base_delay_ms retry * 2 ^ n) (Config.max_delay_ms retry).
Proof.
  intros Hn Hbase Hsmall. unfold backoff_delay, wrap32.
  replace (n + 1 - 1) with n by lia.
  rewrite Z.shiftl_1_l.
  assert (H2 : 0 < 2 ^ n) by (apply Z.pow_pos_nonneg; lia).
  assert (H3 : 2 ^ n < 2 ^ 32) by (apply Z.pow_lt_mono_r; lia).
  rewrite (Z.mod_small (2 ^ n)) by lia.
  rewrite Z.mod_small by nia. reflexivity.
Qed.

(** C1 where the product does not wrap and the handler runs to its end: the
    retry is recorded and the query is handed back to the strategy after
    [min (base_delay_ms * 2^retry_count, max_delay_ms)]. *)
Lemma handleQueryResult_retry_backoff (st : t) (n : Z) (m : BasicMetrics.t)
  (result : ResolveResult) (cb : ResolveCallback) (rd : Readings) :
  let retry := Config.retry (configManager_ st) in
  completes st (result, rd) →
  retryable (status result) = true →
  0 ≤ n < Config.max_attempts retry →
  Config.max_attempts retry ≤ 10 →
  0 ≤ Config.base_delay_ms retry →
  Config.base_delay_ms retry * 2 ^ n < 2 ^ 32 →
  metrics_ st = Some m →
  activeQueryStrategy_ st = true →
  let out := handleQueryResult ares_strerror st n result cb rd in
  out.2 = [SleepFor (Z.min (Config.base_delay_ms retry * 2 ^ n)
                           (Config.max_delay_ms retry));
           StrategyQuery (hostname result) (n + 1) cb]
  ∧ ∃ m', metrics_ out.1 = Some m'
          ∧ BasicMetrics.total_retries_ m'
            = wrap64 (BasicMetrics.total_retries_ m + 1).
Proof.
  cbv zeta. intros Hc Hretry Hn Hmax Hbase Hsmall Hm Hstrategy.
  rewrite handleQueryResult_retry; [| exact Hc | exact Hretry |].
  2:{ unfold wrap32. rewrite Z.mod_small by lia. lia. }
  cbn [fst snd]. rewrite Hstrategy, backoff_delay_exact by lia.
  split; [reflexivity |].
  cbn [with_metrics with_cache metrics_]. rewrite Hm.
  cbn [fmap option_fmap option_map].
  eexists. split; [reflexivity |].
  cbn [BasicMetrics.recordRetry BasicMetrics.total_retries_].
  now rewrite record_result_total_retries.
Qed.

(** C1, second half: a result with status ARES_ENODATA or ARES_ENOTFOUND is
    delivered to the user callback as it is; nothing is handed to the
    strategy and the retry counter keeps its value. *)
Lemma handleQueryResult_no_retry (st : t) (n : Z) (m : BasicMetrics.t)
  (result : ResolveResult) (f : nat) (rd : Readings) :
  completes st (result, rd) →
  status result = Ares.ARES_ENODATA ∨ status result = Ares.ARES_ENOTFOUND →
  metrics_ st = Some m →
  let out := handleQueryResult ares_strerror st n result (Some f) rd in
  out.2 = UserCallback f result
          :: (if eventPublisher_ st
              then [QueryCompleted (hostname result) (ip_addresses result) false]
              else [])
  ∧ dispatched out.2 = None
  ∧ ∃ m', metrics_ out.1 = Some m'
          ∧ BasicMetrics.total_retries_ m' = BasicMetrics.total_retries_ m.
Proof.
  cbv zeta. intros [He Hmr] Hstatus Hm.
  rewrite handleQueryResult_returns by assumption. cbv zeta.
  assert (Hs : (status result =? Ares.ARES_SUCCESS) = false
               ∧ retryable (status result) = false).
  { destruct Hstatus as [-> | ->]; split; reflexivity. }
  destruct Hs as [Hs Hr]. rewrite Hs, Hr. cbn [andb fst snd].
  unfold deliver_result. rewrite Hs.
  split; [reflexivity |].
  split; [destruct (eventPublisher_ st); reflexivity |].
  cbn [with_metrics with_cache metrics_]. rewrite Hm.
  cbn [fmap option_fmap option_map].
  eexists. split; [reflexivity |].
  apply record_result_total_retries.
Qed.


(** *** A whole resolution *)

Lemma iter_bump (k : nat) (x : Z) :
  0 ≤ x < 2 ^ 64 → Nat.iter k bump x = wrap64 (x + Z.of_nat k).
Proof.
  intros Hx. induction k as [|k IH].
  - cbn. unfold wrap64. rewrite Z.add_0_r, Z.mod_small; lia.
  - rewrite Nat.iter_succ, IH. unfold bump, wrap64.
    rewrite Zplus_mod_idemp_l. f_equal. lia.
Qed.

Lemma iter_bump_succ (k : nat) (x : Z) :
  bump (Nat.iter k bump x) = wrap64 (x + Z.of_nat k + 1).
Proof.
  induction k as [|k IH].
  - cbn. unfold bump. f_equal. lia.
  - rewrite Nat.iter_succ, IH. unfold bump, wrap64.
    rewrite Zplus_mod_idemp_l. f_equal. lia.
Qed.

Lemma record_result_failure (result : ResolveResult) (rd : Readings)
  (m : BasicMetrics.t) :
  record_returns rd m = true →
  (status result =? Ares.ARES_SUCCESS) = false →
  record_result ares_strerror result rd m
  = BasicMetrics.recordError "resolution_failure"
      (ares_strerror (status result))
      (BasicMetrics.recordQuery (hostname result) (resolution_time result)
         false (now_steady rd) m).1.
Proof.
  intros Hret Hs. unfold record_result, record_returns in *.
  rewrite Hs. unfold BasicMetrics.recordQuery. rewrite Hret. reflexivity.
Qed.


Lemma record_failure_counters (result : ResolveResult) (n : Z)
  (rd : Readings) (m : BasicMetrics.t) :
  record_returns rd m = true →
  retryable (status result) = true →
  BasicMetrics.after_failures 1 m
    (BasicMetrics.recordRetry (hostname result) n
       (record_result ares_strerror result rd m)).
Proof.
  intros Hret Hretry.
  rewrite record_result_failure
    by (auto using retryable_not_success).
  unfold BasicMetrics.after_failures.
  repeat split; try reflexivity.
  unfold BasicMetrics.error_count. cbn. rewrite lookup_insert_eq. reflexivity.
Qed.

Lemma after_failures_trans (j k : nat) (m m1 m2 : BasicMetrics.t) :
  BasicMetrics.after_failures j m m1 → BasicMetrics.after_failures k m1 m2 →
  BasicMetrics.after_failures (k + j) m m2.
Proof.
  unfold BasicMetrics.after_failures.
  intros (A1 & A2 & A3 & A4 & A5 & A6) (B1 & B2 & B3 & B4 & B5 & B6).
  rewrite !Nat.iter_add. repeat split; congruence.
Qed.

(** Retryable failures within the attempt limit, each taken to its end by
    the handler: every one is recorded and handed back to the strategy, and
    the user callback is not called. *)
Lemma deliver_failures_trace (cb : ResolveCallback)
  (fails : list (ResolveResult * Readings)) :
  ∀ (st : t) (n : Z),
    activeQueryStrategy_ st = true →
    0 ≤ n →
    n + Z.of_nat (length fails)
    ≤ Config.max_attempts (Config.retry (configManager_ st)) →
    Config.max_attempts (Config.retry (configManager_ st)) < 2 ^ 32 →
    Forall (λ a, retryable (status a.1) = true) fails →
    Forall (completes st) fails →
    ∃ st1 pre,
      (∀ rest,
         deliver ares_strerror st n cb (fails ++ rest)
         = ((deliver ares_strerror st1 (n + Z.of_nat (length fails)) cb
               rest).1,
            pre ++ (deliver ares_strerror st1 (n + Z.of_nat (length fails)) cb
                      rest).2))
      ∧ Lifecycle.user_callbacks pre = []
      ∧ configManager_ st1 = configManager_ st
      ∧ activeQueryStrategy_ st1 = true
      ∧ eventPublisher_ st1 = eventPublisher_ st
      ∧ follows st st1
      ∧ ∀ m, metrics_ st = Some m →
             ∃ m1, metrics_ st1 = Some m1
                   ∧ BasicMetrics.after_failures (length fails) m m1.
Proof.
  induction fails as [|[result rd] fails IH];
    intros st n Hstrategy Hn Hlen Hmax Hall Hends.
  - exists st, []. repeat split; try reflexivity; auto.
    + intros rest. cbn [app length Z.of_nat]. rewrite Z.add_0_r.
      now destruct (deliver ares_strerror st n cb rest).
    + intros m Hm. exists m. split; [exact Hm |].
      unfold BasicMetrics.after_failures. cbn. tauto.
  - apply Forall_cons in Hall as [Hretry Hall]. cbn [fst] in Hretry.
    apply Forall_cons in Hends as [Hend Hends].
    cbn [length] in Hlen.
    assert (Hlimit : wrap32 n < Config.max_attempts
                                  (Config.retry (configManager_ st))).
    { unfold wrap32. rewrite Z.mod_small; lia. }
    pose proof (handleQueryResult_retry st n result cb rd Hend
                  Hretry Hlimit) as Hstep.
    pose proof (handleQueryResult_retry_follows st n result rd Hend)
      as Hfollows.
    rewrite Hstrategy in Hstep.
    set (st' := with_metrics
                  (BasicMetrics.recordRetry (hostname result) (n + 1))
                  (with_metrics (record_result ares_strerror result rd)
                     (with_cache (cache_get (hostname result) rd st).1 st)))
      in *.
    destruct (IH st' (n + 1))
      as (st1 & pre & Hrun & Hpre & Hcfg & Hs1 & Hev & Hf1 & Hmet);
      [exact Hstrategy | lia
       | subst st'; cbn [with_metrics with_cache configManager_]; lia
       | exact Hmax | exact Hall
       | eapply Forall_impl; [exact Hends |];
         intros a; now apply follows_completes |].
    exists st1,
      (SleepFor (backoff_delay (Config.retry (configManager_ st)) (n + 1))
       :: StrategyQuery (hostname result) (n + 1) cb :: pre).
    split; [| split; [| split; [| split; [| split; [| split]]]]].
    + intros rest. cbn [app deliver]. rewrite Hstep. cbn [dispatched].
      rewrite (Hrun rest).
      replace (n + Z.of_nat (length ((result, rd) :: fails)))
        with (n + 1 + Z.of_nat (length fails)) by (cbn [length]; lia).
      reflexivity.
    + cbn. exact Hpre.
    + exact Hcfg.
    + exact Hs1.
    + exact Hev.
    + eapply follows_trans; eauto.
    + intros m Hm.
      destruct (Hmet (BasicMetrics.recordRetry (hostname result) (n + 1)
                        (record_result ares_strerror result rd m)))
        as (m1 & Hm1 & Hcount).
      { subst st'. cbn [with_metrics with_cache metrics_]. now rewrite Hm. }
      exists m1. split; [exact Hm1 |].
      replace (length ((result, rd) :: fails)) with (length fails + 1)%nat
        by (cbn; lia).
      eapply after_failures_trans; [| exact Hcount].
      apply record_failure_counters; [| exact Hretry].
      destruct Hend as [_ Hret]. unfold metrics_return in Hret.
      cbn [snd] in Hret. now rewrite Hm in Hret.
Qed.





Lemma resolve_dispatches (st : t) (name : string) (cb : ResolveCallback)
  (rd : Readings) :
  initialized_ st = true →
  Hostname.isValidHostname name = true →
  Z.of_nat (length (active_contexts_ st))
  < Config.max_concurrent_queries (configManager_ st) →
  (cache_get name rd st).2 = LRUCache.Miss →
  activeQueryStrategy_ st = true →
  resolve ares_strerror st name cb rd
  = (with_metrics (BasicMetrics.recordCacheMiss name)
       (with_cache (cache_get name rd st).1 st),
     (if eventPublisher_ st then [QueryStarted name] else [])
     ++ [StrategyQuery name 0 cb]).
Proof.
  intros Hinit Hvalid Hfree Hmiss Hstrategy. unfold resolve.
  rewrite Hinit, Hvalid. cbn [negb].
  apply Z.leb_gt in Hfree. rewrite Hfree.
  destruct (cache_get name rd st) as [c' hit]. cbn [snd] in Hmiss. subst hit.
  rewrite Hstrategy. reflexivity.
Qed.

Lemma resolve_miss_follows (st : t) (name : string) (rd : Readings) :
  (cache_get name rd st).2 = LRUCache.Miss →
  follows st
    (with_metrics (BasicMetrics.recordCacheMiss name)
       (with_cache (cache_get name rd st).1 st)).
Proof.
  intros Hmiss.
  eapply follows_trans;
    [apply follows_cache_get; rewrite Hmiss; discriminate |].
  now apply follows_with_metrics.
Qed.


End ResolverFacts.

Section ResolverScenarios.
Import Resolver.

(** C2, scenario S5: [max_concurrent_queries = 1]; a first [resolve] leaves
    its query with the strategy, which never answers.  The list of active
    contexts is still empty, so the second [resolve] is admitted and
    dispatched as well; no callback with ARES_EOF is made. *)
Theorem second_resolve_is_not_rejected :
  let st0 := Samples.resolver_of Samples.one_at_a_time in
  let first := resolve Samples.strerror st0 "b.test" (Some 1%nat)
                 (Samples.at_time 0) in
  let second := resolve Samples.strerror first.1 "a.test" (Some 2%nat)
                  (Samples.at_time 1) in
  first.2 = [QueryStarted "b.test"; StrategyQuery "b.test" 0 (Some 1%nat)]
  ∧ active_contexts_ first.1 = []
  ∧ second.2 = [QueryStarted "a.test"; StrategyQuery "a.test" 0 (Some 2%nat)].
Proof. vm_compute. repeat split; reflexivity. Qed.

(** C1 at a base delay of 2^31 ms: the product [base_delay_ms * 2] wraps to
    0 in [uint32_t], so the second retry is scheduled without any delay,
    where the formula of the claim gives [max_delay_ms]. *)
Theorem backoff_delay_wraps :
  let config := Samples.long_delay in
  let st := Samples.resolver_of config in
  let failed := Samples.answer Ares.ARES_ESERVFAIL "a.test" [] in
  Config.validateConfig config = true
  ∧ (handleQueryResult Samples.strerror st 1 failed (Some 1%nat)
       (Samples.at_time 0)).2
    = [SleepFor 0; StrategyQuery "a.test" 2 (Some 1%nat)]
  ∧ Z.min (Config.base_delay_ms (Config.retry config) * 2 ^ 1)
          (Config.max_delay_ms (Config.retry config))
    = 4294967295.
Proof. vm_compute. repeat split; reflexivity. Qed.

Lemma resolve_rejects_invalid_hostname_witness :
  initialized_ (Samples.resolver_of Samples.default_config) = true
  ∧ Hostname.fails_validation "-bad.test."
  ∧ resolve Samples.strerror (Samples.resolver_of Samples.default_config)
      "-bad.test." (Some 1%nat) (Samples.at_time 0)
    = (Samples.resolver_of Samples.default_config,
       [UserCallback 1
          (mkResult Ares.ARES_EBADNAME "-bad.test." [] 0 "error" false)]).
Proof.
  assert (Hbad : Hostname.fails_validation "-bad.test.").
  { apply isValidHostname_false. reflexivity. }
  split; [reflexivity |]. split; [exact Hbad |].
  apply (resolve_rejects_invalid_hostname Samples.strerror
           (Samples.resolver_of Samples.default_config) "-bad.test." 1
           (Samples.at_time 0)); [reflexivity | exact Hbad].
Defined.





(** Scenario S3: two ARES_ESERVFAIL answers and a success, base delay 10 ms:
    the handler sleeps 10 ms, then 20 ms, and calls the user once. *)
Example retry_delays_double :
  let st := Samples.resolver_of Samples.quick_retry in
  let fail := (Samples.answer Ares.ARES_ESERVFAIL "a.test" [],
               Samples.at_time 1) in
  let succ := Samples.answer Ares.ARES_SUCCESS "a.test" ["3.3.3.3"%string] in
  (resolve_and_deliver Samples.strerror st "a.test" (Some 1%nat)
     (Samples.at_time 0) [fail; fail; (succ, Samples.at_time 2)]).2
  = [QueryStarted "a.test"; StrategyQuery "a.test" 0 (Some 1%nat);
     SleepFor 10; StrategyQuery "a.test" 1 (Some 1%nat);
     SleepFor 20; StrategyQuery "a.test" 2 (Some 1%nat);
     AddressChanged
       (mkEvent "a.test" [] ["3.3.3.3"%string] 2 "dns_resolver" 300000 "A"
          false);
     UserCallback 1 succ;
     QueryCompleted "a.test" ["3.3.3.3"%string] true].
Proof. vm_compute. reflexivity. Qed.

(** Scenario S4: ARES_ENOTFOUND is handed to the user at once. *)
Example not_found_is_not_retried :
  let st := Samples.resolver_of Samples.quick_retry in
  let answer := Samples.answer Ares.ARES_ENOTFOUND "a.test" [] in
  let out := resolve_and_deliver Samples.strerror st "a.test" (Some 1%nat)
               (Samples.at_time 0) [(answer, Samples.at_time 1)] in
  out.2 = [QueryStarted "a.test"; StrategyQuery "a.test" 0 (Some 1%nat);
           UserCallback 1 answer; QueryCompleted "a.test" [] false]
  ∧ BasicMetrics.total_retries_ <$> metrics_ out.1 = Some 0.
Proof. vm_compute. split; reflexivity. Qed.

End ResolverScenarios.

(** * Further properties of the code *)

(** ** LRUCache: invariants, round trips, eviction order *)

Section LRUCacheMore.
Import LRUCache.

Lemma wf_run (ops : list op) (c c' : t) :
  run ops c = Some c' → wf c → wf c'.
Proof.
  revert c. induction ops as [|o ops IH]; intros c Hrun Hc.
  - cbn in Hrun. now inversion Hrun; subst.
  - apply run_cons in Hrun as (c1 & Hstep & Hrun).
    apply (IH c1 Hrun). eapply wf_step; eauto.
Qed.

(** X1: from an empty cache, after any sequence of [get], [update], [remove]
    and [clear] in which no [get] reads an entry it has erased, [lru_list_]
    has no duplicate and holds exactly the keys of [cache_]. *)
Theorem lru_list_matches_keys (max_size : nat) (ttl : Z) (ops : list op)
  (c : t) :
  run ops (new max_size ttl) = Some c → wf c.
Proof. intros Hrun. apply (wf_run _ _ _ Hrun), wf_new. Qed.

Lemma lru_list_matches_keys_witness :
  let ops := [OpUpdate "a" ["1.1.1.1"%string] 0;
              OpUpdate "b" ["2.2.2.2"%string] 1;
              OpGet "a" 2 2; OpRemove "b"] in
  ∃ c, run ops (new 2 1000) = Some c ∧ wf c ∧ lru_list_ c = ["a"%string].
Proof.
  cbv zeta. eexists. split; [vm_compute; reflexivity |].
  split; [| reflexivity].
  apply (lru_list_matches_keys 2 1000
           [OpUpdate "a" ["1.1.1.1"%string] 0;
            OpUpdate "b" ["2.2.2.2"%string] 1;
            OpGet "a" 2 2; OpRemove "b"]).
  vm_compute. reflexivity.
Defined.

Lemma wf_length (c : t) : wf c → length (lru_list_ c) = size c.
Proof.
  intros [Hnd Hkeys]. unfold size.
  rewrite <- (size_dom (D := gset string)).
  rewrite <- (size_list_to_set (C := gset string) (lru_list_ c)) by exact Hnd.
  f_equal. apply set_eq. intros k.
  rewrite elem_of_list_to_set, elem_of_dom. apply Hkeys.
Qed.

(** X2: a cache built with a capacity of at least one never holds more than
    [max_size_] entries, and its LRU list is exactly as long as the map is
    large, after any sequence of [get], [update], [remove] and [clear] in
    which no [get] reads an entry it has erased. *)
Theorem capacity_is_respected (max_size : nat) (ttl : Z) (ops : list op)
  (c : t) :
  (1 ≤ max_size)%nat →
  run ops (new max_size ttl) = Some c →
  (size c ≤ max_size)%nat ∧ length (lru_list_ c) = size c.
Proof.
  intros Hmax Hrun. split.
  - eapply size_bounded; eauto.
  - apply wf_length. apply (wf_run _ _ _ Hrun), wf_new.
Qed.

Lemma capacity_is_respected_witness :
  let ops := [OpUpdate "a" ["1.1.1.1"%string] 0;
              OpUpdate "b" ["2.2.2.2"%string] 1;
              OpGet "a" 2 3;
              OpUpdate "c" ["3.3.3.3"%string] 4] in
  (1 ≤ 2)%nat
  ∧ ∃ c, run ops (new 2 1000) = Some c
         ∧ (size c ≤ 2)%nat ∧ length (lru_list_ c) = size c.
Proof.
  cbv zeta. split; [lia |].
  eexists. split; [vm_compute; reflexivity |].
  apply (capacity_is_respected 2 1000
           [OpUpdate "a" ["1.1.1.1"%string] 0;
            OpUpdate "b" ["2.2.2.2"%string] 1;
            OpGet "a" 2 3;
            OpUpdate "c" ["3.3.3.3"%string] 4]); [lia |].
  vm_compute. reflexivity.
Defined.

Lemma update_lookup (h : string) (a : list string) (now : Z) (c : t) :
  cache_ (update h a now c) !! h = Some (mkEntry a (add_ttl now (ttl_ c))).
Proof.
  unfold update. destruct (cache_ c !! h); cbn [cache_].
  - apply lookup_insert_eq.
  - rewrite lookup_insert_eq. do 2 f_equal.
    destruct (decide _); [| reflexivity].
    unfold evict. now destruct (last (lru_list_ c)).
Qed.

Lemma wrap_s64_small (z : Z) : - 2 ^ 63 ≤ z < 2 ^ 63 → wrap_s64 z = z.
Proof. intros Hz. unfold wrap_s64. rewrite Z.mod_small; lia. Qed.

(** Where neither the conversion of the ttl to clock ticks nor the sum
    leaves [int64_t], the expiry time is the exact sum. *)
Lemma add_ttl_fits (now ttl : Z) :
  fits now ttl → add_ttl now ttl = now + ttl * TICKS_PER_MS.
Proof.
  intros [H1 H2]. unfold add_ttl.
  rewrite (wrap_s64_small (ttl * TICKS_PER_MS)) by exact H1.
  now rewrite wrap_s64_small by exact H2.
Qed.

Lemma get_after_update (h : string) (a : list string) (now n1 n2 : Z) (c : t) :
  n1 < add_ttl now (ttl_ c) → n2 < add_ttl now (ttl_ c) →
  (get h n1 n2 (update h a now c)).2 = Hit a.
Proof.
  intros H1 H2. unfold get.
  assert (E1 : expired n1 (mkEntry a (add_ttl now (ttl_ c))) = false)
    by (apply expired_false; cbn; lia).
  assert (E2 : expired n2 (mkEntry a (add_ttl now (ttl_ c))) = false)
    by (apply expired_false; cbn; lia).
  rewrite cleanup_lookup_eq, update_lookup, E1, E2. reflexivity.
Qed.

(** X3: an [update] at clock reading [now] followed by a [get] of the same
    name whose two readings are before [now] plus the ttl (milliseconds,
    converted to the nanosecond ticks of the clock) returns the addresses
    just stored, whatever the cache held before and whatever its capacity,
    provided the conversion and the sum stay within [int64_t]. *)
Theorem update_then_get (h : string) (a : list string) (now n1 n2 : Z)
  (c : t) :
  fits now (ttl_ c) →
  n1 < now + ttl_ c * TICKS_PER_MS → n2 < now + ttl_ c * TICKS_PER_MS →
  (get h n1 n2 (update h a now c)).2 = Hit a.
Proof.
  intros Hfits H1 H2. apply get_after_update; rewrite add_ttl_fits; auto.
Qed.

Lemma update_then_get_witness :
  fits 0 (ttl_ (new 2 1000))
  ∧ 999999999 < 0 + ttl_ (new 2 1000) * TICKS_PER_MS
  ∧ (get "a" 999999999 999999999
       (update "a" ["1.1.1.1"%string] 0 (new 2 1000))).2
    = Hit ["1.1.1.1"%string].
Proof.
  assert (Hfits : fits 0 (ttl_ (new 2 1000))) by (vm_compute; intuition discriminate).
  split; [exact Hfits |]. split; [reflexivity |].
  apply (update_then_get "a" ["1.1.1.1"%string] 0 999999999 999999999
           (new 2 1000) Hfits); reflexivity.
Defined.

(** X4: storing a new name in a full cache (capacity at least one) removes
    exactly the entry at the back of the LRU list: that entry is gone, every
    other entry is untouched, the new name is in front and the size is
    unchanged. *)
Theorem update_evicts_lru_tail (h victim : string) (a : list string)
  (now : Z) (c : t) :
  wf c →
  cache_ c !! h = None →
  (max_size_ c ≤ size c)%nat →
  last (lru_list_ c) = Some victim →
  let c' := update h a now c in
  cache_ c' !! victim = None
  ∧ (∀ k, k ≠ victim → k ≠ h → cache_ c' !! k = cache_ c !! k)
  ∧ lru_list_ c' = h :: removelast (lru_list_ c)
  ∧ size c' = size c.
Proof.
  intros Hwf Hnew Hfull Hlast. cbv zeta.
  assert (Hv : is_Some (cache_ c !! victim)).
  { apply Hwf. now apply last_Some_elem_of. }
  assert (Hne : victim ≠ h).
  { intros ->. rewrite Hnew in Hv. now destruct Hv. }
  unfold update, size. rewrite Hnew.
  destruct (decide (max_size_ c ≤ base.size (cache_ c))%nat) as [_ | Hn];
    [| unfold size in Hfull; lia].
  unfold evict. rewrite Hlast. cbn [cache_ lru_list_].
  split; [| split; [| split]].
  - rewrite lookup_insert_ne by congruence. apply lookup_delete_eq.
  - intros k Hk1 Hk2.
    rewrite lookup_insert_ne by congruence. now rewrite lookup_delete_ne.
  - reflexivity.
  - rewrite map_size_insert_None by (rewrite lookup_delete_ne; congruence).
    rewrite map_size_delete_Some by exact Hv.
    assert (base.size (cache_ c) ≠ 0%nat); [| lia].
    intros H0. apply map_size_empty_inv in H0. rewrite H0 in Hv.
    rewrite lookup_empty in Hv. now destruct Hv.
Qed.

Lemma update_evicts_lru_tail_witness :
  let c := update "b" ["2.2.2.2"%string] 1
             (update "a" ["1.1.1.1"%string] 0 (new 2 1000)) in
  last (lru_list_ c) = Some "a"%string
  ∧ cache_ (update "c" ["3.3.3.3"%string] 2 c) !! "a"%string = None.
Proof.
  cbv zeta. split; [reflexivity |].
  apply (update_evicts_lru_tail "c" "a" ["3.3.3.3"%string] 2
           (update "b" ["2.2.2.2"%string] 1
              (update "a" ["1.1.1.1"%string] 0 (new 2 1000)))).
  - apply wf_update, wf_update, wf_new.
  - reflexivity.
  - vm_compute. lia.
  - reflexivity.
Defined.

(** X5: [update] removes no other entry when the name is already cached or
    the cache has room: every other name keeps its addresses and its expiry
    time. *)
Theorem update_keeps_other_entries (h : string) (a : list string) (now : Z)
  (c : t) :
  is_Some (cache_ c !! h) ∨ (size c < max_size_ c)%nat →
  ∀ k, k ≠ h → cache_ (update h a now c) !! k = cache_ c !! k.
Proof.
  intros Hcase k Hk. unfold update.
  destruct (cache_ c !! h) as [e|] eqn:He; cbn [cache_].
  - now rewrite lookup_insert_ne by congruence.
  - destruct Hcase as [[x Hx] | Hroom]; [discriminate |].
    destruct (decide (max_size_ c ≤ base.size (cache_ c))%nat) as [Hfull | _];
      [unfold size in Hroom; lia |].
    now rewrite lookup_insert_ne by congruence.
Qed.

Lemma update_keeps_other_entries_witness :
  let c := update "a" ["1.1.1.1"%string] 0 (new 2 1000) in
  (size c < max_size_ c)%nat
  ∧ cache_ (update "b" ["2.2.2.2"%string] 1 c) !! "a"%string
    = cache_ c !! "a"%string.
Proof.
  cbv zeta.
  assert (Hroom : (size (update "a" ["1.1.1.1"%string] 0 (new 2 1000))
                   < max_size_ (update "a" ["1.1.1.1"%string] 0 (new 2 1000)))%nat)
    by (vm_compute; lia).
  split; [exact Hroom |].
  apply (update_keeps_other_entries "b" ["2.2.2.2"%string] 1
           (update "a" ["1.1.1.1"%string] 0 (new 2 1000)));
    [right; exact Hroom | discriminate].
Defined.

(** X6: after [remove] the name is a miss for [get], whatever the clock says;
    every other entry and both counters are as before, and removing a name
    that is not cached changes nothing at all. *)
Theorem remove_then_get_misses (h : string) (n1 n2 : Z) (c : t) :
  (get h n1 n2 (remove h c)).2 = Miss
  ∧ (∀ k, k ≠ h → cache_ (remove h c) !! k = cache_ c !! k)
  ∧ hits_ (remove h c) = hits_ c
  ∧ misses_ (remove h c) = misses_ c
  ∧ (cache_ c !! h = None → remove h c = c).
Proof.
  assert (Hgone : cache_ (remove h c) !! h = None).
  { unfold remove. destruct (cache_ c !! h) eqn:He; [| exact He].
    apply lookup_delete_eq. }
  split; [| split; [| split; [| split]]].
  - unfold get. rewrite cleanup_lookup_eq, Hgone. reflexivity.
  - intros k Hk. unfold remove. destruct (cache_ c !! h); [| reflexivity].
    cbn. now rewrite lookup_delete_ne by congruence.
  - unfold remove. now destruct (cache_ c !! h).
  - unfold remove. now destruct (cache_ c !! h).
  - intros He. unfold remove. now rewrite He.
Qed.

Lemma last_of_front (h : string) (rest : list string) :
  NoDup (h :: rest) → rest ≠ [] → last (h :: rest) ≠ Some h.
Proof.
  intros Hnd Hne. apply NoDup_cons in Hnd as [Hnotin _].
  destruct rest as [|x rest']; [congruence |].
  rewrite last_cons_cons. intros Hl.
  apply Hnotin. now apply last_Some_elem_of.
Qed.

(** X7: the name that was just written, or just read with a hit, is not the
    next eviction victim as long as the cache holds another entry: it is at
    the front of the LRU list and the back holds a different name. *)
Theorem most_recent_is_not_next_victim (h : string) (a : list string)
  (now n1 n2 : Z) (c : t) :
  wf c →
  ((2 ≤ size (update h a now c))%nat →
   head (lru_list_ (update h a now c)) = Some h
   ∧ last (lru_list_ (update h a now c)) ≠ Some h)
  ∧ ((∃ ips, (get h n1 n2 c).2 = Hit ips) →
     (2 ≤ size (get h n1 n2 c).1)%nat →
     head (lru_list_ (get h n1 n2 c).1) = Some h
     ∧ last (lru_list_ (get h n1 n2 c).1) ≠ Some h).
Proof.
  intros Hwf.
  assert (Hfront : ∀ c', wf c' → (2 ≤ size c')%nat →
            ∀ rest, lru_list_ c' = h :: rest →
            head (lru_list_ c') = Some h ∧ last (lru_list_ c') ≠ Some h).
  { intros c' Hwf' Hsize rest Hl.
    pose proof (wf_length c' Hwf') as Hlen.
    destruct Hwf' as [Hnd _]. rewrite Hl in *.
    split; [reflexivity |].
    apply last_of_front; [exact Hnd |].
    intros ->. cbn in Hlen. lia. }
  split.
  - intros Hsize. pose proof (wf_update h a now c Hwf) as Hwf'.
    apply (Hfront _ Hwf' Hsize (tl (lru_list_ (update h a now c)))).
    unfold update. destruct (cache_ c !! h); reflexivity.
  - intros Hhit Hsize.
    assert (Hwf' : wf (get h n1 n2 c).1).
    { apply wf_get; [| exact Hwf]. destruct Hhit as [ips ->]. discriminate. }
    apply (Hfront _ Hwf' Hsize (tl (lru_list_ (get h n1 n2 c).1))).
    revert Hhit. unfold get.
    destruct (cache_ (cleanup n1 c) !! h) as [e|];
      [destruct (expired n2 e) |]; cbn [fst snd];
      try (intros [x Hx]; discriminate).
    reflexivity.
Qed.

Lemma most_recent_is_not_next_victim_witness :
  let c := update "b" ["2.2.2.2"%string] 1
             (update "a" ["1.1.1.1"%string] 0 (new 2 1000)) in
  wf c
  ∧ last (lru_list_ (get "a" 2 2 c).1) ≠ Some "a"%string.
Proof.
  cbv zeta.
  assert (Hwf : wf (update "b" ["2.2.2.2"%string] 1
                      (update "a" ["1.1.1.1"%string] 0 (new 2 1000))))
    by (apply wf_update, wf_update, wf_new).
  split; [exact Hwf |].
  apply (most_recent_is_not_next_victim "a" [] 0 2 2 _ Hwf).
  - vm_compute. eauto.
  - vm_compute. lia.
Defined.

End LRUCacheMore.

(** ** Hostname validation: what an accepted name looks like *)

Section HostnameMore.
Import Hostname.

Lemma getline_labels_cover (s cur : list ascii) (c : ascii) :
  In c cur ∨ (In c s ∧ c ≠ "."%char) →
  ∃ label, In label (getline_labels cur s) ∧ In c label.
Proof.
  revert cur. induction s as [|d s IH]; intros cur Hc.
  - destruct Hc as [Hc | [[] _]].
    destruct cur as [|x cur']; [destruct Hc |].
    exists (x :: cur'). split; [now left | exact Hc].
  - cbn [getline_labels]. destruct (Ascii.eqb_spec d ".") as [-> | Hd].
    + destruct Hc as [Hc | [[<- | Hc] Hne]].
      * exists cur. split; [now left | exact Hc].
      * congruence.
      * destruct (IH [] (or_intror (conj Hc Hne))) as (label & Hl & Hin).
        exists label. split; [now right | exact Hin].
    + apply IH. destruct Hc as [Hc | [[<- | Hc] Hne]].
      * left. apply in_or_app. now left.
      * left. apply in_or_app. right. now left.
      * right. split; assumption.
Qed.

Lemma getline_labels_first (s cur : list ascii) :
  cur ≠ [] →
  ∃ more rest, getline_labels cur s = (cur ++ more) :: rest.
Proof.
  revert cur. induction s as [|d s IH]; intros cur Hne.
  - exists [], []. cbn. rewrite app_nil_r. now destruct cur.
  - cbn [getline_labels]. destruct (Ascii.eqb d ".").
    + exists [], (getline_labels [] s). now rewrite app_nil_r.
    + destruct (IH (cur ++ [d])) as (more & rest & Heq).
      { now destruct cur. }
      exists (d :: more), rest. rewrite Heq. now rewrite <- app_assoc.
Qed.

Lemma getline_labels_double_dot (s1 s2 cur : list ascii) :
  In [] (getline_labels cur (s1 ++ "."%char :: "."%char :: s2)).
Proof.
  revert cur. induction s1 as [|d s1 IH]; intros cur.
  - cbn. right. now left.
  - cbn [app getline_labels]. destruct (Ascii.eqb d ".").
    + right. apply IH.
    + apply IH.
Qed.

Lemma valid_labels (hostname : string) :
  isValidHostname hostname = true →
  ∀ label, In label (labels hostname) → isValidHostnameLabel label = true.
Proof.
  unfold isValidHostname. intros H.
  destruct (_ || _); [discriminate |].
  rewrite forallb_forall in H. intros label Hl. apply H.
  first [exact Hl | now apply list_elem_of_In].
Qed.

(** X8: every character of an accepted hostname is an ASCII letter, a digit,
    a hyphen or a dot. *)
Theorem valid_hostname_characters (hostname : string) (c : ascii) :
  isValidHostname hostname = true →
  In c (list_ascii_of_string hostname) →
  isalnum c = true ∨ c = "-"%char ∨ c = "."%char.
Proof.
  intros Hvalid Hc.
  destruct (Ascii.eqb_spec c ".") as [-> | Hdot]; [auto |].
  destruct (getline_labels_cover (list_ascii_of_string hostname) [] c)
    as (label & Hl & Hin); [right; auto |].
  pose proof (valid_labels hostname Hvalid label Hl) as Hlabel.
  unfold isValidHostnameLabel in Hlabel.
  destruct label as [|front rest]; [discriminate |].
  destruct (_ <? _)%nat; [discriminate |].
  destruct (_ || _); [discriminate |].
  rewrite forallb_forall in Hlabel.
  assert (Hch : label_char c = true).
  { apply Hlabel. first [exact Hin | now apply list_elem_of_In]. }
  unfold label_char in Hch. apply orb_true_iff in Hch as [H | H]; auto.
  right; left. now apply Ascii.eqb_eq.
Qed.

Lemma valid_hostname_characters_witness :
  isValidHostname "a-1.test" = true
  ∧ (isalnum "-" = true ∨ "-"%char = "-"%char ∨ "-"%char = "."%char).
Proof.
  split; [reflexivity |].
  apply (valid_hostname_characters "a-1.test" "-"); [reflexivity |].
  cbn. auto.
Defined.

(** X9: an accepted hostname has between 1 and 253 characters, begins with a
    letter or a digit (never with a dot or a hyphen) and holds no two
    consecutive dots. *)
Theorem valid_hostname_shape (hostname : string) :
  isValidHostname hostname = true →
  (1 ≤ String.length hostname ≤ MAX_HOSTNAME_LENGTH)%nat
  ∧ (∃ c rest, hostname = String c rest ∧ isalnum c = true)
  ∧ ∀ s1 s2, hostname ≠ String.append s1 (String "." (String "." s2)).
Proof.
  intros Hvalid. pose proof (valid_labels hostname Hvalid) as Hlabels.
  split; [| split].
  - unfold isValidHostname in Hvalid.
    destruct (String.length hostname =? 0)%nat eqn:H0; [discriminate |].
    destruct (Nat.ltb_spec MAX_HOSTNAME_LENGTH (String.length hostname));
      [discriminate |].
    apply Nat.eqb_neq in H0. lia.
  - destruct hostname as [|c rest]; [discriminate |].
    exists c, rest. split; [reflexivity |].
    unfold labels in Hlabels. cbn [list_ascii_of_string getline_labels] in Hlabels.
    destruct (Ascii.eqb c ".").
    + specialize (Hlabels [] ltac:(now left)). discriminate.
    + destruct (getline_labels_first (list_ascii_of_string rest) ([] ++ [c]))
        as (more & others & Heq); [discriminate |].
      rewrite Heq in Hlabels. specialize (Hlabels _ ltac:(now left)).
      change (([] ++ [c]) ++ more) with (c :: more) in Hlabels.
      unfold isValidHostnameLabel in Hlabels.
      destruct (_ <? _)%nat; [discriminate |].
      destruct (isalnum c); [reflexivity | discriminate].
  - intros s1 s2 ->.
    specialize (Hlabels []). unfold labels in Hlabels.
    rewrite list_ascii_of_string_app in Hlabels.
    cbn [list_ascii_of_string] in Hlabels.
    specialize (Hlabels (getline_labels_double_dot _ _ _)). discriminate.
Qed.

Lemma valid_hostname_shape_witness :
  isValidHostname "example.test" = true
  ∧ ∃ c rest, "example.test"%string = String c rest ∧ isalnum c = true.
Proof.
  split; [reflexivity |].
  apply (valid_hostname_shape "example.test"). reflexivity.
Defined.

End HostnameMore.

(** ** The resolver: life cycle, admission, callbacks *)

Section ResolverMore.
Import Resolver Lifecycle.
Variable ares_strerror : Z → string.

(** X10: [initialize] succeeds exactly when the resolver is already
    initialized or its configuration passes [validateConfig]; the flag it
    leaves is the value it returns; and calling it again changes nothing and
    returns the same value. *)
Theorem initialize_is_idempotent (st : t) :
  ((initialize st).2 = true
   ↔ initialized_ st = true
     ∨ Config.validateConfig (configManager_ st) = true)
  ∧ initialized_ (initialize st).1 = (initialize st).2
  ∧ initialize (initialize st).1 = initialize st.
Proof.
  unfold initialize.
  destruct (initialized_ st) eqn:Hi; cbn [fst snd].
  - rewrite Hi. split; [tauto | split; reflexivity].
  - destruct (Config.validateConfig (configManager_ st)) eqn:Hv;
      cbn [negb fst snd initialized_].
    + split; [tauto | split; reflexivity].
    + rewrite Hi, Hv. cbn [negb].
      split; [| split; reflexivity].
      split; [discriminate | intros [H | H]; discriminate].
Qed.

(** X11: after [shutdown] every [resolve] is answered with
    ARES_ENOTINITIALIZED and changes nothing, whatever the name; a second
    [shutdown] changes nothing and does not call the strategy again. *)
Theorem shutdown_stops_resolution (st : t) (name : string) (f : nat)
  (rd : Readings) :
  resolve ares_strerror (shutdown st).1 name (Some f) rd
  = ((shutdown st).1,
     [UserCallback f
        (mkResult Ares.ARES_ENOTINITIALIZED name [] 0
           (ares_strerror Ares.ARES_ENOTINITIALIZED) false)])
  ∧ shutdown (shutdown st).1 = ((shutdown st).1, false).
Proof.
  assert (Hoff : initialized_ (shutdown st).1 = false).
  { unfold shutdown. destruct (initialized_ st) eqn:Hi; [reflexivity | exact Hi]. }
  split.
  - unfold resolve. rewrite Hoff. reflexivity.
  - unfold shutdown at 1. now rewrite Hoff.
Qed.

(** X12: a [shutdown] followed by a successful [initialize] starts over with
    an empty cache: no name resolved before the restart is served from the
    cache afterwards. *)
Theorem restart_empties_cache (st : t) (name : string) (rd : Readings) :
  initialized_ st = true →
  Config.validateConfig (configManager_ st) = true →
  let st' := (initialize (shutdown st).1).1 in
  initialized_ st' = true
  ∧ activeCache_ st'
    = Some (LRUCache.new (Config.max_size (Config.cache (configManager_ st)))
              (Config.ttl (Config.cache (configManager_ st))))
  ∧ (cache_get name rd st').2 = LRUCache.Miss.
Proof.
  intros Hi Hv. cbv zeta. unfold shutdown, initialize. rewrite Hi.
  cbn [fst initialized_ configManager_]. rewrite Hv. cbn [negb fst].
  split; [reflexivity |]. split; [reflexivity |].
  unfold cache_get. cbn [activeCache_].
  unfold LRUCache.get. rewrite cleanup_lookup_eq. cbn.
  rewrite lookup_empty. reflexivity.
Qed.

Lemma restart_empties_cache_witness :
  initialized_ Samples.seeded_resolver = true
  ∧ (cache_get "x.test" (Samples.at_time 1) Samples.seeded_resolver).2
    = LRUCache.Hit ["1.1.1.1"%string]
  ∧ (cache_get "x.test" (Samples.at_time 1)
       (initialize (shutdown Samples.seeded_resolver).1).1).2 = LRUCache.Miss.
Proof.
  split; [reflexivity |]. split; [vm_compute; reflexivity |].
  apply (restart_empties_cache Samples.seeded_resolver "x.test"
           (Samples.at_time 1)); reflexivity.
Defined.

(** *** The list of active contexts *)

Lemma step_active_contexts (st : t) (c : call) :
  active_contexts_ (step ares_strerror st c) = active_contexts_ st.
Proof.
  destruct c; cbn [step].
  - unfold initialize. destruct (initialized_ st); [reflexivity |].
    destruct (negb _); reflexivity.
  - unfold shutdown. destruct (initialized_ st); reflexivity.
  - apply resolve_active_contexts.
  - apply handleQueryResult_active_contexts.
  - reflexivity.
Qed.

Lemma run_active_contexts (calls : list call) (st : t) :
  active_contexts_ (run ares_strerror calls st) = active_contexts_ st.
Proof.
  revert st. induction calls as [|c calls IH]; intros st; [reflexivity |].
  cbn [run fold_left]. fold (run ares_strerror calls (step ares_strerror st c)).
  now rewrite IH, step_active_contexts.
Qed.

(** X13: whatever calls a resolver has seen since its construction
    (initialize, shutdown, resolve, results handed back by the strategy,
    configuration updates), its list of active contexts is empty; hence, once
    initialized, it answers a valid name with ARES_EOF exactly when
    [max_concurrent_queries] is 0 (or less), however many queries are in
    flight. *)
Theorem busy_only_when_limit_is_zero (config : Config.DNSResolverConfig)
  (metrics : option BasicMetrics.t) (events : bool) (calls : list call)
  (name : string) (f : nat) (rd : Readings) :
  let st := run ares_strerror calls (constructed config metrics events) in
  initialized_ st = true →
  Hostname.isValidHostname name = true →
  active_contexts_ st = []
  ∧ ((resolve ares_strerror st name (Some f) rd).2
     = [UserCallback f
          (mkResult Ares.ARES_EOF name [] 0 (ares_strerror Ares.ARES_EOF)
             false)]
     ↔ Config.max_concurrent_queries (configManager_ st) ≤ 0).
Proof.
  cbv zeta. intros Hi Hv.
  set (st := run ares_strerror calls (constructed config metrics events)) in *.
  assert (Hctx : active_contexts_ st = []).
  { subst st. now rewrite run_active_contexts. }
  split; [exact Hctx |].
  unfold resolve. rewrite Hi, Hv, Hctx. cbn [negb length].
  change (Z.of_nat 0) with 0.
  destruct (Z.leb_spec (Config.max_concurrent_queries (configManager_ st)) 0)
    as [Hle | Hgt].
  - cbn [snd invoke failure]. split; [intros _; exact Hle | reflexivity].
  - split; [| lia]. intros Heff. exfalso.
    destruct (cache_get name rd st) as [c' [ips | |]].
    + cbn [snd invoke] in Heff.
      destruct (eventPublisher_ st); cbn in Heff; inversion Heff.
    + destruct (activeQueryStrategy_ st); cbn [snd invoke failure] in Heff;
        destruct (eventPublisher_ st); cbn in Heff; inversion Heff.
    + cbn [snd] in Heff.
      destruct (eventPublisher_ st); cbn in Heff; inversion Heff.
Qed.

(** *** Callbacks *)

Lemma user_callbacks_app (e1 e2 : list Effect) :
  user_callbacks (e1 ++ e2) = user_callbacks e1 ++ user_callbacks e2.
Proof.
  induction e1 as [|e e1 IH]; [reflexivity |].
  destruct e; cbn; rewrite IH; reflexivity.
Qed.

Lemma completes_dec (st : t) (a : ResolveResult * Readings) :
  completes st a
  ∨ reads_erased (hostname a.1) a.2 st = true
  ∨ metrics_return a.2 st = false.
Proof.
  unfold completes.
  destruct (reads_erased (hostname a.1) a.2 st);
    destruct (metrics_return a.2 st); auto.
Qed.

(** A handler that stops at the cache read or inside [recordQuery] neither
    calls the user nor hands a query to the strategy. *)
Lemma handleQueryResult_stalled (st : t) (n : Z) (result : ResolveResult)
  (cb : ResolveCallback) (rd : Readings) :
  reads_erased (hostname result) rd st = true
  ∨ metrics_return rd st = false →
  let out := handleQueryResult ares_strerror st n result cb rd in
  dispatched out.2 = None ∧ user_callbacks out.2 = [].
Proof.
  cbv zeta. intros H.
  destruct (reads_erased (hostname result) rd st) eqn:He.
  - rewrite handleQueryResult_erased by exact He. split; reflexivity.
  - destruct H as [H | H]; [discriminate |].
    rewrite handleQueryResult_locked by assumption. split; reflexivity.
Qed.

Lemma handleQueryResult_final (st : t) (n : Z) (result : ResolveResult)
  (f : nat) (rd : Readings) :
  completes st (result, rd) →
  retryable (status result)
  && (wrap32 n <? Config.max_attempts (Config.retry (configManager_ st)))
  = false →
  let out := handleQueryResult ares_strerror st n result (Some f) rd in
  dispatched out.2 = None
  ∧ user_callbacks out.2 = [(f, result)]
  ∧ metrics_ out.1 = record_result ares_strerror result rd <$> metrics_ st.
Proof.
  cbv zeta. intros [He Hm] Hfinal.
  rewrite handleQueryResult_returns by assumption. cbv zeta.
  destruct (cache_get (hostname result) rd st) as [c' found]. cbn [fst snd].
  rewrite Hfinal. unfold notifyAddressChange, deliver_result.
  destruct ((status result =? Ares.ARES_SUCCESS)
            && negb (bool_decide (ip_addresses result = []))); cbn [fst snd].
  - destruct (bool_decide (addresses_read found = ip_addresses result));
      destruct (eventPublisher_ st); cbn [negb];
      destruct (ip_addresses result); repeat split; reflexivity.
  - destruct (eventPublisher_ st); repeat split; reflexivity.
Qed.

Lemma resolve_cases (st : t) (name : string) (f : nat) (rd : Readings) :
  let out := resolve ares_strerror st name (Some f) rd in
  (dispatched out.2 = None ∧ ∃ r, user_callbacks out.2 = [(f, r)])
  ∨ (dispatched out.2 = None
     ∧ user_callbacks out.2 = []
     ∧ reads_erased name rd st = true)
  ∨ (dispatched out.2 = Some 0
     ∧ user_callbacks out.2 = []
     ∧ activeQueryStrategy_ out.1 = true
     ∧ configManager_ out.1 = configManager_ st
     ∧ follows st out.1).
Proof.
  cbv zeta. unfold resolve.
  destruct (negb (initialized_ st)); [left; split; [reflexivity | eauto] |].
  destruct (negb (Hostname.isValidHostname name));
    [left; split; [reflexivity | eauto] |].
  destruct (_ <=? _); [left; split; [reflexivity | eauto] |].
  pose proof (cache_get_erased name rd st) as Herased.
  pose proof (resolve_miss_follows st name rd) as Hfollows.
  destruct (cache_get name rd st) as [c' [ips | |]]; cbn [fst snd] in *.
  - left. destruct (eventPublisher_ st); split; cbn; eauto.
  - destruct (activeQueryStrategy_ st) eqn:Hs.
    + right; right. specialize (Hfollows eq_refl).
      destruct (eventPublisher_ st); cbn; rewrite ?Hs; auto.
    + left. destruct (eventPublisher_ st); split; cbn; eauto.
  - right; left. apply proj1 in Herased. specialize (Herased eq_refl).
    destruct (eventPublisher_ st); cbn; auto.
Qed.

Lemma deliver_at_most_once (f : nat)
  (answers : list (ResolveResult * Readings)) :
  ∀ (st : t) (n : Z),
    activeQueryStrategy_ st = true →
    (length (user_callbacks
               (deliver ares_strerror st n (Some f) answers).2) ≤ 1)%nat.
Proof.
  induction answers as [|[result rd] rest IH]; intros st n Hs; [cbn; lia |].
  cbn [deliver].
  destruct (completes_dec st (result, rd)) as [Hend | Hstall].
  - destruct (retryable (status result)
              && (wrap32 n
                  <? Config.max_attempts (Config.retry (configManager_ st))))
      eqn:Hcase.
    + apply andb_true_iff in Hcase as [Hr Hl]. apply Z.ltb_lt in Hl.
      rewrite (handleQueryResult_retry ares_strerror st n result (Some f) rd
                 Hend Hr Hl).
      rewrite Hs. cbn [dispatched].
      match goal with
      | |- context [deliver ares_strerror ?s ?m (Some f) rest] =>
          specialize (IH s m Hs);
          destruct (deliver ares_strerror s m (Some f) rest) as [st2 more]
      end.
      exact IH.
    + destruct (handleQueryResult_final st n result f rd Hend Hcase)
        as (Hd & Hc & _).
      destruct (handleQueryResult ares_strerror st n result (Some f) rd)
        as [st1 effects].
      cbn [fst snd] in *. rewrite Hd. cbn [snd]. rewrite Hc. cbn. lia.
  - destruct (handleQueryResult_stalled st n result (Some f) rd Hstall)
      as [Hd Hc].
    destruct (handleQueryResult ares_strerror st n result (Some f) rd)
      as [st1 effects].
    cbn [fst snd] in *. rewrite Hd. cbn [snd]. rewrite Hc. cbn. lia.
Qed.

Lemma deliver_calls_back (f : nat)
  (answers : list (ResolveResult * Readings)) :
  ∀ (st : t) (n : Z),
    activeQueryStrategy_ st = true →
    0 ≤ n ≤ Config.max_attempts (Config.retry (configManager_ st)) →
    Config.max_attempts (Config.retry (configManager_ st)) < 2 ^ 32 →
    Config.max_attempts (Config.retry (configManager_ st)) - n
    < Z.of_nat (length answers) →
    Forall (completes st) answers →
    ∃ r, user_callbacks (deliver ares_strerror st n (Some f) answers).2
         = [(f, r)]
         ∧ In r (map fst answers).
Proof.
  induction answers as [|[result rd] rest IH];
    intros st n Hs Hn Hmax Hlen Hends; [cbn in Hlen; lia |].
  apply Forall_cons in Hends as [Hend Hends].
  cbn [deliver].
  destruct (retryable (status result)
            && (wrap32 n
                <? Config.max_attempts (Config.retry (configManager_ st))))
    eqn:Hcase.
  - apply andb_true_iff in Hcase as [Hr Hl]. apply Z.ltb_lt in Hl.
    assert (Hn' : n < Config.max_attempts (Config.retry (configManager_ st))).
    { unfold wrap32 in Hl. rewrite Z.mod_small in Hl by lia. exact Hl. }
    rewrite (handleQueryResult_retry ares_strerror st n result (Some f) rd
               Hend Hr Hl).
    pose proof (handleQueryResult_retry_follows ares_strerror st n result rd
                  Hend) as Hfollows.
    rewrite Hs. cbn [dispatched].
    match goal with
    | |- context [deliver ares_strerror ?s ?m (Some f) rest] =>
        destruct (IH s m) as (r & Hr' & Hin);
        [exact Hs | cbn [with_metrics with_cache configManager_]; lia
         | exact Hmax
         | cbn [with_metrics with_cache configManager_];
           cbn [length] in Hlen; lia
         | eapply Forall_impl; [exact Hends |];
           intros a; now apply follows_completes |];
        destruct (deliver ares_strerror s m (Some f) rest) as [st2 more]
    end.
    exists r. cbn [snd] in *. split; [exact Hr' | right; exact Hin].
  - destruct (handleQueryResult_final st n result f rd Hend Hcase)
      as (Hd & Hc & _).
    destruct (handleQueryResult ares_strerror st n result (Some f) rd)
      as [st1 effects].
    cbn [fst snd] in *. rewrite Hd. cbn [snd].
    exists result. split; [exact Hc | now left].
Qed.

(** X14: when the strategy answers each attempt that is handed to it at
    most once, one [resolve] call never leads to more than one invocation of
    the user callback, whatever the answers are; and when it answers every
    attempt (more answers than [max_attempts]) and neither the cache read of
    [resolve] nor the handler of any answer stops short (no cache read
    comes to an entry it has erased, [recordQuery] returns), the callback is
    invoked exactly once. *)
Theorem user_is_called_back_once (st : t) (name : string) (f : nat)
  (rd : Readings) (answers : list (ResolveResult * Readings)) :
  0 ≤ Config.max_attempts (Config.retry (configManager_ st)) < 2 ^ 32 →
  let out := resolve_and_deliver ares_strerror st name (Some f) rd answers in
  (length (user_callbacks out.2) ≤ 1)%nat
  ∧ (Config.max_attempts (Config.retry (configManager_ st))
     < Z.of_nat (length answers) →
     reads_erased name rd st = false →
     Forall (completes st) answers →
     ∃ r, user_callbacks out.2 = [(f, r)]).
Proof.
  intros Hmax. cbv zeta. unfold resolve_and_deliver.
  destruct (resolve_cases st name f rd)
    as [(Hd & r & Hc) | [(Hd & Hc & He) | (Hd & Hc & Hs & Hcfg & Hfollows)]];
    destruct (resolve ares_strerror st name (Some f) rd) as [st1 effects];
    cbn [fst snd] in *; rewrite Hd.
  - cbn [snd]. rewrite Hc. split; [cbn; lia | eauto].
  - cbn [snd]. rewrite Hc. split; [cbn; lia | congruence].
  - pose proof (deliver_at_most_once f answers st1 0 Hs) as Hle.
    split.
    + destruct (deliver ares_strerror st1 0 (Some f) answers) as [st2 more].
      cbn [snd] in *. now rewrite user_callbacks_app, Hc.
    + intros Hlen _ Hends.
      destruct (deliver_calls_back f answers st1 0 Hs) as (r & Hr & _);
        try (rewrite Hcfg; lia).
      { eapply Forall_impl; [exact Hends |].
        intros a. now apply follows_completes. }
      destruct (deliver ares_strerror st1 0 (Some f) answers) as [st2 more].
      cbn [snd] in *. exists r. now rewrite user_callbacks_app, Hc.
Qed.

Lemma record_result_failed (result : ResolveResult) (rd : Readings)
  (m : BasicMetrics.t) :
  (status result =? Ares.ARES_SUCCESS) = false →
  BasicMetrics.failed_queries_ (record_result ares_strerror result rd m)
  = bump (BasicMetrics.failed_queries_ m).
Proof.
  intros Hs. unfold record_result, BasicMetrics.recordQuery. rewrite Hs.
  destruct (_ && _); reflexivity.
Qed.

(** X15: when every attempt of a [resolve] fails retryably and the handler
    runs to its end on each answer (no cache read comes to an entry it has
    erased, [recordQuery] returns), the handler gives up after
    [max_attempts] retries: the answer to attempt number [max_attempts] is
    handed to the user callback, [total_retries_] has grown by
    [max_attempts] and [failed_queries_] by [max_attempts + 1]. *)
Theorem retries_stop_at_max_attempts (st : t) (m : BasicMetrics.t)
  (name : string) (f : nat) (rd rd' : Readings)
  (fails : list (ResolveResult * Readings)) (final : ResolveResult) :
  initialized_ st = true →
  Hostname.isValidHostname name = true →
  Z.of_nat (length (active_contexts_ st))
  < Config.max_concurrent_queries (configManager_ st) →
  (cache_get name rd st).2 = LRUCache.Miss →
  activeQueryStrategy_ st = true →
  metrics_ st = Some m →
  BasicMetrics.in_range m →
  Z.of_nat (length fails)
  = Config.max_attempts (Config.retry (configManager_ st)) →
  Config.max_attempts (Config.retry (configManager_ st)) < 2 ^ 32 →
  Forall (λ a, retryable (status a.1) = true) fails →
  retryable (status final) = true →
  Forall (completes st) (fails ++ [(final, rd')]) →
  let k := Config.max_attempts (Config.retry (configManager_ st)) in
  let out := resolve_and_deliver ares_strerror st name (Some f) rd
               (fails ++ [(final, rd')]) in
  user_callbacks out.2 = [(f, final)]
  ∧ ∃ m', metrics_ out.1 = Some m'
          ∧ BasicMetrics.total_retries_ m'
            = wrap64 (BasicMetrics.total_retries_ m + k)
          ∧ BasicMetrics.failed_queries_ m'
            = wrap64 (BasicMetrics.failed_queries_ m + k + 1).
Proof.
  intros Hinit Hvalid Hfree Hmiss Hstrategy Hm Hrange Hlen Hmax Hall Hfinal
    Hends.
  cbv zeta. unfold resolve_and_deliver.
  rewrite resolve_dispatches by assumption.
  pose proof (resolve_miss_follows st name rd Hmiss) as Hf0.
  set (st0 := with_metrics (BasicMetrics.recordCacheMiss name)
                (with_cache (cache_get name rd st).1 st)) in *.
  set (started := if eventPublisher_ st then [QueryStarted name] else []).
  replace (dispatched (started ++ [StrategyQuery name 0 (Some f)]))
    with (Some 0) by (subst started; destruct (eventPublisher_ st); reflexivity).
  apply Forall_app in Hends as [Hends Hend].
  apply Forall_cons in Hend as [Hend _].
  destruct (deliver_failures_trace ares_strerror (Some f) fails st0 0)
    as (st1 & pre & Hrun & Hpre & Hcfg & _ & _ & Hf1 & Hmet);
    try assumption; try lia.
  { subst st0. cbn [with_metrics with_cache configManager_]. lia. }
  { eapply Forall_impl; [exact Hends |].
    intros a. now apply follows_completes. }
  rewrite (Hrun [(final, rd')]). cbn [deliver].
  assert (Hstop : retryable (status final)
                  && (wrap32 (0 + Z.of_nat (length fails))
                      <? Config.max_attempts (Config.retry (configManager_ st1)))
                  = false).
  { apply andb_false_iff. right. apply Z.ltb_ge.
    rewrite Hcfg. subst st0. cbn [with_metrics with_cache configManager_].
    unfold wrap32. rewrite Z.mod_small; lia. }
  assert (Hend1 : completes st1 (final, rd')).
  { eapply follows_completes; [| exact Hend].
    eapply follows_trans; eauto. }
  destruct (handleQueryResult_final st1 (0 + Z.of_nat (length fails)) final f
              rd' Hend1 Hstop) as (Hd & Hc & Hmetrics).
  destruct (handleQueryResult ares_strerror st1 (0 + Z.of_nat (length fails))
              final (Some f) rd') as [st3 effects].
  cbn [fst snd] in *. rewrite Hd. cbn [fst snd].
  split.
  - rewrite !user_callbacks_app, Hpre, Hc.
    subst started. destruct (eventPublisher_ st); reflexivity.
  - destruct (Hmet (BasicMetrics.recordCacheMiss name m))
      as (m1 & Hm1 & C1 & C2 & C3 & C4 & C5 & C6).
    { subst st0. cbn [with_metrics with_cache metrics_]. now rewrite Hm. }
    rewrite Hmetrics, Hm1. cbn [fmap option_fmap option_map].
    eexists. split; [reflexivity |].
    destruct Hrange as (R1 & R2 & R3 & R4 & R5 & R6 & R7).
    rewrite record_result_total_retries,
      (record_result_failed _ _ _ (retryable_not_success _ Hfinal)).
    rewrite <- Hlen. split.
    + rewrite C4. now apply iter_bump.
    + rewrite C2. apply iter_bump_succ.
Qed.

Lemma get_keeps_ttl (h : string) (n1 n2 : Z) (c : LRUCache.t) :
  LRUCache.ttl_ (LRUCache.get h n1 n2 c).1 = LRUCache.ttl_ c.
Proof.
  unfold LRUCache.get.
  destruct (LRUCache.cache_ (LRUCache.cleanup n1 c) !! h) as [e|];
    [destruct (LRUCache.expired n2 e) |]; reflexivity.
Qed.

Lemma get_lookup_subset (h k : string) (n1 n2 : Z) (c : LRUCache.t)
  (e : LRUCache.CacheEntry) :
  LRUCache.cache_ (LRUCache.get h n1 n2 c).1 !! k = Some e →
  LRUCache.cache_ c !! k = Some e.
Proof.
  unfold LRUCache.get.
  destruct (LRUCache.cache_ (LRUCache.cleanup n1 c) !! h) as [e'|];
    [destruct (LRUCache.expired n2 e') |]; cbn [fst LRUCache.cache_];
    intros Hk.
  - apply lookup_delete_Some in Hk as [_ Hk]. now apply cleanup_lookup in Hk.
  - now apply cleanup_lookup in Hk.
  - now apply cleanup_lookup in Hk.
Qed.

Lemma handleQueryResult_stores (st : t) (n : Z) (result : ResolveResult)
  (cb : ResolveCallback) (rd : Readings) (c : LRUCache.t) :
  activeCache_ st = Some c →
  status result = Ares.ARES_SUCCESS →
  ip_addresses result ≠ [] →
  completes st (result, rd) →
  let c' := (LRUCache.get (hostname result) (now_cleanup rd) (now_lookup rd)
               c).1 in
  (handleQueryResult ares_strerror st n result cb rd).1
  = with_cache
      (Some (LRUCache.update (hostname result) (ip_addresses result)
               (now_update rd) c'))
      (with_metrics (record_result ares_strerror result rd) st).
Proof.
  intros Hcache Hstatus Hips [He Hm]. cbv zeta.
  rewrite handleQueryResult_returns by assumption. cbv zeta.
  unfold cache_get. rewrite Hcache.
  destruct (LRUCache.get (hostname result) (now_cleanup rd) (now_lookup rd) c)
    as [c' found].
  rewrite Hstatus. cbn [Z.eqb Ares.ARES_SUCCESS andb].
  rewrite bool_decide_eq_false_2 by exact Hips. reflexivity.
Qed.

Lemma record_result_cache_hits (result : ResolveResult) (rd : Readings)
  (m : BasicMetrics.t) :
  BasicMetrics.cache_hits_ (record_result ares_strerror result rd m)
  = BasicMetrics.cache_hits_ m.
Proof.
  unfold record_result, BasicMetrics.recordQuery.
  destruct (_ && _); reflexivity.
Qed.

(** X16: once a successful answer with addresses has been handled to the
    end (its cache read does not come to an entry it has erased,
    [recordQuery] returns), a [resolve] of the same name whose clock
    readings are before the time of the update plus the ttl (milliseconds,
    converted to the nanosecond ticks of the clock, both within [int64_t])
    is served from the cache: the user callback receives exactly these
    addresses with [from_cache] set, a cache hit is recorded, and nothing is
    handed to the strategy. *)
Theorem handled_answer_is_served_from_cache (st : t) (n : Z)
  (result : ResolveResult) (cb : ResolveCallback) (f : nat)
  (rd rd' : Readings) (c : LRUCache.t) (m : BasicMetrics.t) :
  initialized_ st = true →
  activeCache_ st = Some c →
  metrics_ st = Some m →
  Z.of_nat (length (active_contexts_ st))
  < Config.max_concurrent_queries (configManager_ st) →
  status result = Ares.ARES_SUCCESS →
  ip_addresses result ≠ [] →
  Hostname.isValidHostname (hostname result) = true →
  completes st (result, rd) →
  LRUCache.fits (now_update rd) (LRUCache.ttl_ c) →
  now_cleanup rd'
  < now_update rd + LRUCache.ttl_ c * LRUCache.TICKS_PER_MS →
  now_lookup rd'
  < now_update rd + LRUCache.ttl_ c * LRUCache.TICKS_PER_MS →
  let st1 := (handleQueryResult ares_strerror st n result cb rd).1 in
  let out := resolve ares_strerror st1 (hostname result) (Some f) rd' in
  user_callbacks out.2
  = [(f, mkResult Ares.ARES_SUCCESS (hostname result) (ip_addresses result)
           (elapsed_ms rd') "" true)]
  ∧ dispatched out.2 = None
  ∧ (BasicMetrics.cache_hits_ <$> metrics_ out.1)
    = Some (wrap64 (BasicMetrics.cache_hits_ m + 1)).
Proof.
  intros Hinit Hcache Hm Hfree Hstatus Hips Hvalid Hend Hfits H1 H2. cbv zeta.
  rewrite (handleQueryResult_stores st n result cb rd c Hcache Hstatus Hips
             Hend).
  pose proof (get_keeps_ttl (hostname result) (now_cleanup rd)
                (now_lookup rd) c) as Httl.
  set (c' := (LRUCache.get (hostname result) (now_cleanup rd) (now_lookup rd)
                c).1) in *.
  unfold resolve. cbn [with_cache with_metrics initialized_ configManager_
                         active_contexts_ eventPublisher_].
  rewrite Hinit, Hvalid. cbn [negb].
  apply Z.leb_gt in Hfree. rewrite Hfree.
  unfold cache_get. cbn [activeCache_ with_cache with_metrics].
  pose proof (get_after_update (hostname result) (ip_addresses result)
                (now_update rd) (now_cleanup rd') (now_lookup rd') c') as Hhit.
  rewrite Httl, add_ttl_fits in Hhit by exact Hfits.
  specialize (Hhit H1 H2).
  destruct (LRUCache.get (hostname result) (now_cleanup rd') (now_lookup rd')
              (LRUCache.update (hostname result) (ip_addresses result)
                 (now_update rd) c')) as [c'' hit].
  cbn [snd] in Hhit. subst hit.
  cbn [fst snd metrics_ with_metrics with_cache invoke].
  rewrite Hm. cbn [fmap option_fmap option_map].
  cbn [BasicMetrics.recordCacheHit BasicMetrics.cache_hits_].
  rewrite record_result_cache_hits.
  destruct (eventPublisher_ st); repeat split; reflexivity.
Qed.

(** X17: an answer that is a failure, or a success without addresses, never
    adds or changes a cache entry: whatever the cache holds afterwards it
    held before. *)
Theorem failures_are_not_cached (st : t) (n : Z) (result : ResolveResult)
  (cb : ResolveCallback) (rd : Readings) (c : LRUCache.t) :
  activeCache_ st = Some c →
  status result ≠ Ares.ARES_SUCCESS ∨ ip_addresses result = [] →
  ∃ c', activeCache_ (handleQueryResult ares_strerror st n result cb rd).1
        = Some c'
        ∧ ∀ k e, LRUCache.cache_ c' !! k = Some e →
                 LRUCache.cache_ c !! k = Some e.
Proof.
  intros Hcache Hcase. unfold handleQueryResult, cache_get. rewrite Hcache.
  pose proof (get_lookup_subset (hostname result)) as Hsub.
  specialize (Hsub) with (n1 := now_cleanup rd) (n2 := now_lookup rd) (c := c).
  destruct (LRUCache.get (hostname result) (now_cleanup rd) (now_lookup rd) c)
    as [c' found].
  cbn [fst] in Hsub.
  assert (Hno : (status result =? Ares.ARES_SUCCESS)
                && negb (bool_decide (ip_addresses result = [])) = false).
  { destruct Hcase as [Hs | Hi].
    - apply Z.eqb_neq in Hs. now rewrite Hs.
    - rewrite bool_decide_eq_true_2 by exact Hi. apply andb_false_r. }
  rewrite Hno. exists c'.
  split; [| intros k e; apply Hsub].
  destruct found; try reflexivity;
    (destruct (negb (metrics_return rd st)); [reflexivity |]);
    destruct (retryable (status result) && _); reflexivity.
Qed.

End ResolverMore.

Section ResolverMoreScenarios.
Import Resolver Lifecycle.

Lemma busy_only_when_limit_is_zero_witness :
  let st := run Samples.strerror
              [Initialize;
               Resolve "b.test" (Some 1%nat) (Samples.at_time 0)]
              (constructed Samples.one_at_a_time (Some (BasicMetrics.new 0)) true)
  in
  initialized_ st = true
  ∧ active_contexts_ st = [].
Proof.
  cbv zeta. split; [reflexivity |].
  apply (busy_only_when_limit_is_zero Samples.strerror Samples.one_at_a_time
           (Some (BasicMetrics.new 0)) true
           [Initialize; Resolve "b.test" (Some 1%nat) (Samples.at_time 0)]
           "a.test" 2 (Samples.at_time 1)); reflexivity.
Defined.

Lemma user_is_called_back_once_witness :
  let st := Samples.resolver_of Samples.quick_retry in
  let fail := (Samples.answer Ares.ARES_ESERVFAIL "a.test" [],
               Samples.at_time 1) in
  0 ≤ Config.max_attempts (Config.retry (configManager_ st)) < 2 ^ 32
  ∧ Forall (completes st) [fail; fail; fail; fail]
  ∧ ∃ r, user_callbacks
           (resolve_and_deliver Samples.strerror st "a.test" (Some 1%nat)
              (Samples.at_time 0) [fail; fail; fail; fail]).2
         = [(1%nat, r)].
Proof.
  cbv zeta.
  assert (H : 0 ≤ Config.max_attempts
                    (Config.retry
                       (configManager_ (Samples.resolver_of Samples.quick_retry)))
              < 2 ^ 32) by (cbn; lia).
  assert (Hends :
            Forall (completes (Samples.resolver_of Samples.quick_retry))
              [(Samples.answer Ares.ARES_ESERVFAIL "a.test" [],
                Samples.at_time 1);
               (Samples.answer Ares.ARES_ESERVFAIL "a.test" [],
                Samples.at_time 1);
               (Samples.answer Ares.ARES_ESERVFAIL "a.test" [],
                Samples.at_time 1);
               (Samples.answer Ares.ARES_ESERVFAIL "a.test" [],
                Samples.at_time 1)])
    by (repeat constructor).
  split; [exact H |]. split; [exact Hends |].
  apply (proj2 (user_is_called_back_once Samples.strerror
                  (Samples.resolver_of Samples.quick_retry) "a.test" 1
                  (Samples.at_time 0) _ H));
    [cbn; lia | reflexivity | exact Hends].
Defined.

Lemma retries_stop_at_max_attempts_witness :
  let st := Samples.resolver_of Samples.quick_retry in
  let fail := (Samples.answer Ares.ARES_ESERVFAIL "a.test" [],
               Samples.at_time 1) in
  let final := Samples.answer Ares.ARES_ETIMEOUT "a.test" [] in
  BasicMetrics.in_range (BasicMetrics.new 0)
  ∧ Forall (completes st) ([fail; fail; fail] ++ [(final, Samples.at_time 2)])
  ∧ user_callbacks
      (resolve_and_deliver Samples.strerror st "a.test" (Some 1%nat)
         (Samples.at_time 0)
         ([fail; fail; fail] ++ [(final, Samples.at_time 2)])).2
    = [(1%nat, final)].
Proof.
  cbv zeta.
  assert (Hrange : BasicMetrics.in_range (BasicMetrics.new 0)).
  { unfold BasicMetrics.in_range. cbn.
    repeat (split; [lia |]).
    intros type e He. rewrite lookup_empty in He. discriminate. }
  assert (Hends :
            Forall (completes (Samples.resolver_of Samples.quick_retry))
              ([(Samples.answer Ares.ARES_ESERVFAIL "a.test" [],
                 Samples.at_time 1);
                (Samples.answer Ares.ARES_ESERVFAIL "a.test" [],
                 Samples.at_time 1);
                (Samples.answer Ares.ARES_ESERVFAIL "a.test" [],
                 Samples.at_time 1)]
               ++ [(Samples.answer Ares.ARES_ETIMEOUT "a.test" [],
                    Samples.at_time 2)]))
    by (repeat constructor).
  split; [exact Hrange |]. split; [exact Hends |].
  apply (retries_stop_at_max_attempts Samples.strerror
           (Samples.resolver_of Samples.quick_retry) (BasicMetrics.new 0)
           "a.test" 1 (Samples.at_time 0) (Samples.at_time 2)
           [(Samples.answer Ares.ARES_ESERVFAIL "a.test" [], Samples.at_time 1);
            (Samples.answer Ares.ARES_ESERVFAIL "a.test" [], Samples.at_time 1);
            (Samples.answer Ares.ARES_ESERVFAIL "a.test" [], Samples.at_time 1)]
           (Samples.answer Ares.ARES_ETIMEOUT "a.test" []));
    try reflexivity; try exact Hrange; try exact Hends; try (cbn; lia).
  repeat constructor.
Defined.

Lemma handled_answer_is_served_from_cache_witness :
  let st := Samples.resolver_of Samples.default_config in
  let result := Samples.answer Ares.ARES_SUCCESS "a.test" ["3.3.3.3"%string] in
  let st1 := (handleQueryResult Samples.strerror st 0 result (Some 1%nat)
                (Samples.at_time 0)).1 in
  status result = Ares.ARES_SUCCESS
  ∧ completes st (result, Samples.at_time 0)
  ∧ LRUCache.fits 0 300000
  ∧ 299999999999 < 0 + 300000 * LRUCache.TICKS_PER_MS
  ∧ dispatched (resolve Samples.strerror st1 "a.test" (Some 2%nat)
                  (Samples.at_time 299999999999)).2 = None.
Proof.
  cbv zeta.
  assert (Hfits : LRUCache.fits 0 300000)
    by (vm_compute; intuition discriminate).
  assert (Hend : completes (Samples.resolver_of Samples.default_config)
                   (Samples.answer Ares.ARES_SUCCESS "a.test"
                      ["3.3.3.3"%string], Samples.at_time 0))
    by (split; reflexivity).
  split; [reflexivity |]. split; [exact Hend |]. split; [exact Hfits |].
  split; [reflexivity |].
  apply (handled_answer_is_served_from_cache Samples.strerror
           (Samples.resolver_of Samples.default_config) 0
           (Samples.answer Ares.ARES_SUCCESS "a.test" ["3.3.3.3"%string])
           (Some 1%nat) 2 (Samples.at_time 0) (Samples.at_time 299999999999)
           (LRUCache.new (Z.to_nat 10000) 300000) (BasicMetrics.new 0));
    try reflexivity; try exact Hend; try exact Hfits; discriminate.
Defined.

Lemma failures_are_not_cached_witness :
  let st := Samples.resolver_of Samples.default_config in
  status (Samples.answer Ares.ARES_ESERVFAIL "a.test" []) ≠ Ares.ARES_SUCCESS
  ∧ ∃ c', activeCache_
            (handleQueryResult Samples.strerror st 0
               (Samples.answer Ares.ARES_ESERVFAIL "a.test" []) (Some 1%nat)
               (Samples.at_time 0)).1 = Some c'
          ∧ ∀ k e, LRUCache.cache_ c' !! k = Some e →
                   LRUCache.cache_ (LRUCache.new (Z.to_nat 10000) 300000) !! k
                   = Some e.
Proof.
  cbv zeta.
  assert (H : status (Samples.answer Ares.ARES_ESERVFAIL "a.test" [])
              ≠ Ares.ARES_SUCCESS) by discriminate.
  split; [exact H |].
  apply (failures_are_not_cached Samples.strerror
           (Samples.resolver_of Samples.default_config) 0
           (Samples.answer Ares.ARES_ESERVFAIL "a.test" []) (Some 1%nat)
           (Samples.at_time 0) (LRUCache.new (Z.to_nat 10000) 300000));
    [reflexivity | left; exact H].
Defined.

End ResolverMoreScenarios.

(** ** BasicMetrics over sequences of recordings *)

Section RecordingFacts.
Import BasicMetrics Recording.

Lemma wrap64_succ_l (a b : Z) :
  wrap64 (wrap64 (a + b) + 1) = wrap64 (wrap64 (a + 1) + b).
Proof.
  unfold wrap64. rewrite !Zplus_mod_idemp_l. f_equal. lia.
Qed.

Lemma wrap64_succ_r (a b : Z) :
  wrap64 (wrap64 (a + b) + 1) = wrap64 (a + wrap64 (b + 1)).
Proof.
  unfold wrap64. rewrite Zplus_mod_idemp_l, Zplus_mod_idemp_r. f_equal. lia.
Qed.

Lemma wrap64_range (z : Z) : 0 ≤ wrap64 z < 2 ^ 64.
Proof. unfold wrap64. apply Z.mod_pos_bound. lia. Qed.

Lemma window_push_length (l : list float) (x : float) :
  (length l ≤ MAX_SAMPLES)%nat →
  (length (if (MAX_SAMPLES <? length (l ++ [x]))%nat then tl (l ++ [x])
           else l ++ [x]) ≤ MAX_SAMPLES)%nat.
Proof.
  intros Hl. destruct (Nat.ltb_spec MAX_SAMPLES (length (l ++ [x]))) as [H|H].
  - destruct l as [|y l]; cbn in *; rewrite ?length_app in *; cbn in *; lia.
  - exact H.
Qed.

Lemma consistent_step (m : t) (o : op) : consistent m → consistent (step m o).
Proof.
  intros (Htotal & Hs & Hf & Hlen).
  destruct o as [h d ok now | h | h | type detail | h a | now]; cbn [step];
    [| split; [exact Htotal | split; [exact Hs | split; [exact Hf | exact Hlen]]]..
     | repeat split; cbn; solve [reflexivity | lia]].
  unfold recordQuery, consistent.
  cbn [fst total_queries_ successful_queries_ failed_queries_
         query_durations_].
  split; [| split; [| split]].
  - rewrite Htotal. destruct ok; [apply wrap64_succ_l | apply wrap64_succ_r].
  - destruct ok; [apply wrap64_range | exact Hs].
  - destruct ok; [exact Hf | apply wrap64_range].
  - now apply window_push_length.
Qed.

Lemma consistent_run (ops : list op) (m : t) :
  consistent m → consistent (run ops m).
Proof.
  revert m. induction ops as [|o ops IH]; intros m Hm; [exact Hm |].
  apply IH. now apply consistent_step.
Qed.

Lemma consistent_new (now : Z) : consistent (new now).
Proof. repeat split; cbn; solve [reflexivity | lia]. Qed.

(** X18: whatever is recorded on a metrics object, in whatever order and
    with resets in between, [total_queries_] equals [successful_queries_ +
    failed_queries_] (in 64-bit unsigned arithmetic) and the window of recent
    durations never holds more than [MAX_SAMPLES] values. *)
Theorem counters_stay_consistent (now : Z) (ops : list op) :
  let m := run ops (new now) in
  total_queries_ m = wrap64 (successful_queries_ m + failed_queries_ m)
  ∧ (length (query_durations_ m) ≤ MAX_SAMPLES)%nat.
Proof.
  cbv zeta.
  destruct (consistent_run ops (new now) (consistent_new now))
    as (H1 & _ & _ & H2).
  split; assumption.
Qed.

Lemma run_snoc (ops : list op) (o : op) (m : t) :
  run (ops ++ [o]) m = step (run ops m) o.
Proof. unfold run. now rewrite fold_left_app. Qed.

Lemma samples_snoc (ops : list op) (o : op) :
  samples (ops ++ [o])
  = match o with
    | RecordQuery _ d _ _ => samples ops ++ [Z2F d]
    | ResetStats _ => []
    | _ => samples ops
    end.
Proof. unfold samples. now rewrite fold_left_app. Qed.

Lemma window_push (l : list float) (x : float) :
  (if (MAX_SAMPLES <? length (drop (length l - MAX_SAMPLES) l ++ [x]))%nat
   then tl (drop (length l - MAX_SAMPLES) l ++ [x])
   else drop (length l - MAX_SAMPLES) l ++ [x])
  = drop (length (l ++ [x]) - MAX_SAMPLES) (l ++ [x]).
Proof.
  rewrite !length_app, length_drop. cbn [length].
  destruct (Nat.ltb_spec MAX_SAMPLES
              (length l - (length l - MAX_SAMPLES) + 1)) as [H|H].
  - assert (Hge : (MAX_SAMPLES ≤ length l)%nat) by lia.
    replace (length l + 1 - MAX_SAMPLES)%nat
      with (length l - MAX_SAMPLES + 1)%nat by lia.
    rewrite <- drop_app_le by lia.
    generalize (length l - MAX_SAMPLES)%nat as k. intros k.
    generalize (l ++ [x]) as l'. intros l'.
    rewrite <- (drop_drop l' 1 k).
    destruct (drop k l'); reflexivity.
  - replace (length l - MAX_SAMPLES)%nat with 0%nat by lia.
    replace (length l + 1 - MAX_SAMPLES)%nat with 0%nat by lia.
    reflexivity.
Qed.

(** X19: the window of recent durations holds exactly the last
    [MAX_SAMPLES] durations recorded since the last reset (all of them when
    there are fewer), oldest first, each converted to [double]. *)
Theorem window_holds_latest_samples (now : Z) (ops : list op) :
  query_durations_ (run ops (new now))
  = drop (length (samples ops) - MAX_SAMPLES) (samples ops).
Proof.
  induction ops as [|o ops IH] using rev_ind; [reflexivity |].
  rewrite run_snoc, samples_snoc.
  destruct o as [h d ok now' | h | h | type detail | h a | now'];
    cbn [step]; try exact IH.
  - unfold recordQuery. cbn [fst query_durations_]. rewrite IH.
    apply window_push.
  - reflexivity.
Qed.

Lemma window_bound (now : Z) (ops : list op) :
  (length (query_durations_ (run ops (new now))) ≤ MAX_SAMPLES)%nat.
Proof.
  now destruct (consistent_run ops (new now) (consistent_new now))
    as (_ & _ & _ & H).
Qed.

Lemma quantile_indices_checked :
  forallb (λ size, index_in_range size 0.5
                   && index_in_range size 0x1.ccccccccccccdp-1
                   && index_in_range size 0x1.fae147ae147aep-1)
          (seq 1 MAX_SAMPLES) = true.
Proof. vm_compute. reflexivity. Qed.

Lemma subscript_in_range (sorted : list float) (q : float) :
  index_in_range (length sorted) q = true →
  ∃ x, subscript sorted (quantile_index (length sorted) q) = Some x
       ∧ x ∈ sorted.
Proof.
  unfold index_in_range, subscript.
  destruct (quantile_index (length sorted) q) as [i|]; [| discriminate].
  intros H. apply andb_true_iff in H as [H0 H1].
  apply Z.leb_le in H0. apply Z.ltb_lt in H1.
  destruct (Z.ltb_spec i 0) as [|_]; [lia |].
  destruct (lookup_lt_is_Some_2 sorted (Z.to_nat i)) as [x Hx]; [lia |].
  exists x. split; [exact Hx |]. eapply list_elem_of_lookup_2, Hx.
Qed.

(** X20: whatever has been recorded, the three subscripts that
    [getPrometheusMetrics] computes as [size * 0.5], [size * 0.9] and
    [size * 0.99] fall inside the sorted copy of the window: each quantile it
    prints is one of the recorded durations in the window. *)
Theorem quantiles_read_inside_the_window
  (std_sort : list float → list float) (now : Z) (ops : list op) :
  (∀ l, Permutation (std_sort l) l) →
  let m := run ops (new now) in
  query_durations_ m ≠ [] →
  ∃ p50 p90 p99,
    quantiles std_sort m = Some (Some p50, Some p90, Some p99)
    ∧ p50 ∈ query_durations_ m
    ∧ p90 ∈ query_durations_ m
    ∧ p99 ∈ query_durations_ m.
Proof.
  intros Hsort. cbv zeta. intros Hne.
  pose proof (window_bound now ops) as Hlen.
  unfold quantiles.
  destruct (query_durations_ (run ops (new now))) as [|d ds] eqn:Hd; [done |].
  set (sorted := std_sort (d :: ds)).
  assert (Hperm : Permutation sorted (d :: ds)) by apply Hsort.
  assert (Hsize : (1 ≤ length sorted ≤ MAX_SAMPLES)%nat).
  { rewrite (Permutation_length Hperm). cbn [length] in *. lia. }
  pose proof quantile_indices_checked as Hall.
  rewrite forallb_forall in Hall.
  specialize (Hall (length sorted)).
  assert (Hin : In (length sorted) (seq 1 MAX_SAMPLES))
    by (apply in_seq; lia).
  apply Hall in Hin.
  apply andb_true_iff in Hin as [Hin H99].
  apply andb_true_iff in Hin as [H50 H90].
  destruct (subscript_in_range sorted _ H50) as (p50 & E50 & I50).
  destruct (subscript_in_range sorted _ H90) as (p90 & E90 & I90).
  destruct (subscript_in_range sorted _ H99) as (p99 & E99 & I99).
  exists p50, p90, p99. rewrite E50, E90, E99.
  split; [reflexivity |].
  rewrite <- Hperm. repeat split; assumption.
Qed.

Lemma insert_sample_perm (x : float) (l : list float) :
  Permutation (insert_sample x l) (x :: l).
Proof.
  induction l as [|y l IH]; cbn; [reflexivity |].
  destruct (PrimFloat.ltb y x); [| reflexivity].
  rewrite IH. apply perm_swap.
Qed.

Lemma insertion_sort_perm (l : list float) :
  Permutation (insertion_sort l) l.
Proof.
  induction l as [|x l IH]; cbn; [reflexivity |].
  rewrite insert_sample_perm. now constructor.
Qed.

Lemma quantiles_read_inside_the_window_witness :
  let m := run [RecordQuery "a.test" 12 true 1;
                RecordQuery "b.test" 7 false 2] (new 0) in
  query_durations_ m ≠ []
  ∧ ∃ p50 p90 p99,
      quantiles insertion_sort m = Some (Some p50, Some p90, Some p99)
      ∧ p50 ∈ query_durations_ m
      ∧ p90 ∈ query_durations_ m
      ∧ p99 ∈ query_durations_ m.
Proof.
  cbv zeta.
  assert (H : query_durations_
                (run [RecordQuery "a.test" 12 true 1;
                      RecordQuery "b.test" 7 false 2] (new 0)) ≠ [])
    by (cbn; discriminate).
  split; [exact H |].
  apply (quantiles_read_inside_the_window insertion_sort 0
           [RecordQuery "a.test" 12 true 1; RecordQuery "b.test" 7 false 2]
           insertion_sort_perm H).
Defined.

End RecordingFacts.

(** ** BasicMetrics: the hourly clean-up *)

Section HousekeepingFacts.
Import Housekeeping.

Variable ticks_per_second : Z.

Lemma step_last_cleanup (st st1 : t) (c : call) :
  step ticks_per_second st c = Returns st1 →
  last_cleanup_ st1 = last_reset [c] (last_cleanup_ st).
Proof.
  destruct c; cbn [step last_reset fold_left]; unfold cleanupOldStats,
    updatePerformanceMetrics; intros H;
    repeat match type of H with
           | context [if ?b then _ else _] => destruct b
           end;
    inversion H; reflexivity.
Qed.

Lemma step_locks (st : t) (c : call) :
  step ticks_per_second st c = LocksOwnMutex ↔
  ∃ now now', c = Query now now'
              ∧ CLEANUP_INTERVAL ticks_per_second ≤ now - last_cleanup_ st.
Proof.
  split.
  - destruct c; cbn [step]; try discriminate.
    unfold cleanupOldStats.
    destruct (Z.ltb_spec (now_cleanup - last_cleanup_ st)
                (CLEANUP_INTERVAL ticks_per_second)); [discriminate |].
    intros _. eauto.
  - intros (now & now' & -> & Hdue). cbn [step]. unfold cleanupOldStats.
    destruct (Z.ltb_spec (now - last_cleanup_ st)
                (CLEANUP_INTERVAL ticks_per_second)); [lia | reflexivity].
Qed.

(** X21: a sequence of recording calls makes [recordQuery] lock the mutex
    it already holds exactly when one of the [recordQuery] calls happens an
    hour or more (of the steady clock) after the last [resetStats] before
    it, or after the construction when there is none; nothing else that is
    recorded in between moves that deadline. *)
Theorem recordQuery_locks_own_mutex (calls : list call) (st : t) :
  run ticks_per_second calls st = LocksOwnMutex ↔
  ∃ before now now' after,
    calls = before ++ Query now now' :: after
    ∧ CLEANUP_INTERVAL ticks_per_second
      ≤ now - last_reset before (last_cleanup_ st).
Proof.
  revert st. induction calls as [|c calls IH]; intros st.
  - split; [discriminate |].
    intros (before & now & now' & after & H & _).
    destruct before; discriminate.
  - cbn [run]. destruct (step ticks_per_second st c) as [st1|] eqn:Hstep.
    + pose proof (step_last_cleanup st st1 c Hstep) as Hstamp.
      rewrite IH. split.
      * intros (before & now & now' & after & -> & Hdue).
        exists (c :: before), now, now', after.
        split; [reflexivity |].
        unfold last_reset in *. cbn [fold_left] in *.
        now rewrite <- Hstamp.
      * intros (before & now & now' & after & Hcalls & Hdue).
        destruct before as [|c' before].
        -- cbn in Hcalls. injection Hcalls as -> ->.
           assert (Hlocks : step ticks_per_second st (Query now now')
                            = LocksOwnMutex)
             by (apply step_locks; eauto).
           congruence.
        -- cbn in Hcalls. injection Hcalls as <- ->.
           exists before, now, now', after.
           split; [reflexivity |].
           unfold last_reset in *. cbn [fold_left] in *.
           now rewrite Hstamp.
    + split; [intros _ | reflexivity].
      apply step_locks in Hstep as (now & now' & -> & Hdue).
      exists [], now, now', calls. split; [reflexivity | exact Hdue].
Qed.

End HousekeepingFacts.

(** ** CaresQueryStrategy: construction, server records, shutdown *)

Section StrategyFacts.
Import Strategy.

Variable ranges_sort : list Cares.Scored → list Cares.Scored.
Variable ares_strerror : Z → string.

Lemma no_health_no_candidates (config : Config.DNSResolverConfig) :
  Cares.available_servers (Cares.mk config ∅) = [].
Proof.
  apply available_servers_nil. intros server _ (_ & h & Hh & _).
  cbn in Hh. rewrite lookup_empty in Hh. discriminate.
Qed.

Lemma create_failed (config : Config.DNSResolverConfig) (lib : Library) :
  library_failed lib →
  create config lib = mk (Cares.mk config ∅) false true [] ∅.
Proof.
  intros Hfail. unfold create, initialize, constructed.
  cbn [initialized_ core channel_ active_contexts_ latency_history_].
  destruct (Z.eqb_spec (library_init lib) Ares.ARES_SUCCESS) as [E1|];
    [| reflexivity].
  destruct (threadsafety lib) eqn:E2; [| reflexivity].
  destruct (Z.eqb_spec (init_options lib) Ares.ARES_SUCCESS) as [E3|];
    [| reflexivity].
  destruct Hfail as [H | [H | H]]; congruence.
Qed.

(** X22: when one of the c-ares library calls of the construction fails,
    the strategy object still reports [isInitialized()]; it has no channel
    and tracks no server, and a [query] is passed on to [ares_getaddrinfo]
    with the null channel instead of being answered with
    ARES_ENOTINITIALIZED. *)
Theorem failed_construction_still_queries (config : Config.DNSResolverConfig)
  (lib : Library) (first : Config.DNSServerConfig)
  (others : list Config.DNSServerConfig) (name : string) (cb : option nat) :
  library_failed lib →
  Config.servers config = first :: others →
  Config.address first ≠ ""%string →
  let st := create config lib in
  isInitialized st = true
  ∧ channel_ st = false
  ∧ Cares.server_health_ (core st) = ∅
  ∧ (query ranges_sort name cb st).2
    = [GetAddrInfo false name (Config.ipv6_enabled config) 0].
Proof.
  intros Hfail Hservers Haddr. cbv zeta.
  rewrite (create_failed config lib Hfail).
  repeat (split; [reflexivity |]).
  unfold query. cbn [initialized_ negb core]. unfold Cares.selectServer.
  rewrite no_health_no_candidates. cbn [Cares.config_]. rewrite Hservers.
  apply String.eqb_neq in Haddr. rewrite Haddr. reflexivity.
Qed.

Lemma sliding_window_push {A} (n : nat) (l : list A) (x : A) :
  (if (n <? length (drop (length l - n) l ++ [x]))%nat
   then tl (drop (length l - n) l ++ [x])
   else drop (length l - n) l ++ [x])
  = drop (length (l ++ [x]) - n) (l ++ [x]).
Proof.
  rewrite !length_app, length_drop. cbn [length].
  destruct (Nat.ltb_spec n (length l - (length l - n) + 1)) as [H|H].
  - assert (Hge : (n ≤ length l)%nat) by lia.
    replace (length l + 1 - n)%nat with (length l - n + 1)%nat by lia.
    rewrite <- drop_app_le by lia.
    generalize (length l - n)%nat as k. intros k.
    generalize (l ++ [x]) as l'. intros l'.
    rewrite <- (drop_drop l' 1 k).
    destruct (drop k l'); reflexivity.
  - replace (length l - n)%nat with 0%nat by lia.
    replace (length l + 1 - n)%nat with 0%nat by lia.
    reflexivity.
Qed.

Lemma to_int64_small (z : Z) : 0 ≤ z < 2 ^ 63 → to_int64 z = z.
Proof.
  intros H. unfold to_int64. rewrite Z.mod_small by lia. lia.
Qed.

Lemma total_latency_from (h : list Z) (acc : Z) :
  Forall (λ x, 0 ≤ x < 2 ^ 56) h →
  0 ≤ acc →
  acc + Z.of_nat (length h) * 2 ^ 56 < 2 ^ 63 →
  fold_left (λ total latency, to_int64 (total + latency)) h acc
  = acc + sum_latencies h
  ∧ 0 ≤ sum_latencies h ≤ Z.of_nat (length h) * 2 ^ 56.
Proof.
  revert acc. induction h as [|x h IH]; intros acc Hall Hacc Hbound.
  - cbn. lia.
  - apply Forall_cons in Hall as [Hx Hall].
    cbn [fold_left sum_latencies fold_right length] in *.
    rewrite to_int64_small by lia.
    destruct (IH (acc + x) Hall) as [IH1 IH2]; [lia | lia |].
    fold (sum_latencies h) in *. rewrite IH1. lia.
Qed.

Lemma total_latency_exact (h : list Z) :
  Forall (λ x, 0 ≤ x < 2 ^ 56) h →
  (length h ≤ MAX_LATENCY_SAMPLES)%nat →
  total_latency h = sum_latencies h ∧ 0 ≤ sum_latencies h < 2 ^ 63.
Proof.
  intros Hall Hlen. unfold MAX_LATENCY_SAMPLES in Hlen.
  destruct (total_latency_from h 0 Hall) as [H1 H2]; [lia | lia |].
  unfold total_latency. rewrite H1. lia.
Qed.

Lemma average_exact (h : list Z) :
  Forall (λ x, 0 ≤ x < 2 ^ 56) h →
  (0 < length h ≤ MAX_LATENCY_SAMPLES)%nat →
  to_int64 (wrap64 (total_latency h) / Z.of_nat (length h)) = mean_latency h.
Proof.
  intros Hall Hlen.
  destruct (total_latency_exact h Hall) as [-> Hsum]; [lia |].
  unfold wrap64, mean_latency. rewrite Z.mod_small by lia.
  apply to_int64_small. split.
  - apply Z.div_pos; lia.
  - apply Z.div_lt_upper_bound; nia.
Qed.

Lemma updates_window (server : string) (ls : list Z) (st : t) :
  latency_history_ st !! server = None →
  Forall (λ x, 0 ≤ x < 2 ^ 56) ls →
  let st' :=
    fold_left (λ s latency, updateServerMetrics server latency s) ls st in
  let window := drop (length ls - MAX_LATENCY_SAMPLES) ls in
  default [] (latency_history_ st' !! server) = window
  ∧ (ls ≠ [] →
     latency_history_ st' !! server = Some window
     ∧ Cares.server_health_ (core st') !! server
       = Some (Cares.mkHealth true (mean_latency window) 0)).
Proof.
  intros Hnone. cbv zeta.
  induction ls as [|x ls IH] using rev_ind; intros Hall.
  - cbn. rewrite Hnone. split; [reflexivity | congruence].
  - apply Forall_app in Hall as [Hall Hx].
    destruct (IH Hall) as [IHw _]. clear IH.
    rewrite fold_left_app. cbn [fold_left].
    set (st1 := fold_left _ ls st) in *.
    unfold updateServerMetrics.
    cbn [latency_history_ core Cares.server_health_].
    rewrite !lookup_insert_eq. rewrite IHw. unfold push_latency.
    rewrite sliding_window_push.
    set (window := drop (length (ls ++ [x]) - MAX_LATENCY_SAMPLES) (ls ++ [x])).
    split; [reflexivity |]. intros _. split; [reflexivity |].
    f_equal. f_equal. apply average_exact.
    + apply Forall_drop. apply Forall_app. split; assumption.
    + subst window. rewrite length_drop, length_app. cbn [length].
      unfold MAX_LATENCY_SAMPLES. lia.
Qed.

(** X23: after successful answers with latencies [ls] have been credited
    to a server that had no history, its queue holds the last
    [MAX_LATENCY_SAMPLES] of them and its record says healthy, no errors,
    and an average latency that is the rounded-down mean of that window
    (latencies below 2^56 ms, so that the sum stays in range). *)
Theorem average_latency_over_recent_window (server : string) (ls : list Z)
  (st : t) :
  latency_history_ st !! server = None →
  ls ≠ [] →
  Forall (λ x, 0 ≤ x < 2 ^ 56) ls →
  let st' :=
    fold_left (λ s latency, updateServerMetrics server latency s) ls st in
  let window := drop (length ls - MAX_LATENCY_SAMPLES) ls in
  latency_history_ st' !! server = Some window
  ∧ Cares.server_health_ (core st') !! server
    = Some (Cares.mkHealth true (mean_latency window) 0).
Proof.
  intros Hnone Hne Hall. cbv zeta.
  destruct (updates_window server ls st Hnone Hall) as [_ H]. now apply H.
Qed.

Lemma lone_candidates (c : Cares.t) (srv : Config.DNSServerConfig)
  (h : Cares.ServerHealth) :
  Config.servers (Cares.config_ c) = [srv] →
  Config.enabled srv = true →
  Cares.server_health_ c !! Config.address srv = Some h →
  Cares.available_servers c
  = if Cares.healthy h then [(Config.address srv, Cares.score srv h)] else [].
Proof.
  intros Hs He Hh. unfold Cares.available_servers. rewrite Hs.
  cbn [omap list_omap]. unfold Cares.candidate. rewrite He, Hh.
  destruct (Cares.healthy h); reflexivity.
Qed.

Lemma sort_singleton (x : Cares.Scored) :
  (∀ l, Permutation (ranges_sort l) l) → ranges_sort [x] = [x].
Proof.
  intros Hsort. specialize (Hsort [x]). symmetry in Hsort.
  now apply Permutation_singleton_l in Hsort.
Qed.

Lemma note_failure_lone (c : Cares.t) (srv : Config.DNSServerConfig)
  (h : Cares.ServerHealth) :
  (∀ l, Permutation (ranges_sort l) l) →
  Config.servers (Cares.config_ c) = [srv] →
  Config.enabled srv = true →
  Cares.server_health_ c !! Config.address srv = Some h →
  let errors :=
    wrap32 ((if Cares.healthy h then Cares.error_count h else 0) + 1) in
  Cares.config_ (note_failure ranges_sort c) = Cares.config_ c
  ∧ Cares.server_health_ (note_failure ranges_sort c) !! Config.address srv
    = Some (Cares.mkHealth
              (negb (Config.server_error_threshold (Cares.config_ c)
                     <? errors))
              (Cares.avg_latency h) errors).
Proof.
  intros Hsort Hs He Hh. cbv zeta.
  unfold note_failure, Cares.selectServer. rewrite Hs.
  rewrite (lone_candidates c srv h Hs He Hh).
  destruct (Cares.healthy h) eqn:Hhealthy.
  - rewrite sort_singleton by exact Hsort. cbn [fst].
    unfold charge_error. cbn [Cares.config_ Cares.server_health_].
    rewrite Hh. cbn [from_option]. unfold Datatypes.id.
    rewrite lookup_insert_eq, Hhealthy.
    split; [reflexivity |].
    destruct (_ <? _); reflexivity.
  - unfold charge_error. cbn [Cares.config_ Cares.server_health_].
    rewrite lookup_fmap, Hh. cbn [fmap option_fmap option_map from_option].
    unfold Datatypes.id. rewrite lookup_insert_eq. unfold Cares.recover.
    cbn [Cares.healthy Cares.avg_latency Cares.error_count].
    split; [reflexivity |].
    destruct (_ <? _); reflexivity.
Qed.

Lemma lone_failures (c : Cares.t) (srv : Config.DNSServerConfig) (avg : Z)
  (k : nat) :
  (∀ l, Permutation (ranges_sort l) l) →
  Config.servers (Cares.config_ c) = [srv] →
  Config.enabled srv = true →
  Cares.server_health_ c !! Config.address srv
  = Some (Cares.mkHealth true avg 0) →
  0 ≤ Config.server_error_threshold (Cares.config_ c) < 2 ^ 32 - 1 →
  Z.of_nat k ≤ Config.server_error_threshold (Cares.config_ c) + 1 →
  let c' := Nat.iter k (note_failure ranges_sort) c in
  Cares.config_ c' = Cares.config_ c
  ∧ Cares.server_health_ c' !! Config.address srv
    = Some (Cares.mkHealth
              (Z.of_nat k <=? Config.server_error_threshold (Cares.config_ c))
              avg (Z.of_nat k)).
Proof.
  intros Hsort Hs He Hh Hthr. cbv zeta.
  induction k as [|k IH]; intros Hk.
  - unfold Nat.iter. cbn [nat_rect]. split; [reflexivity |]. rewrite Hh.
    change (Z.of_nat 0) with 0.
    destruct (Z.leb_spec 0 (Config.server_error_threshold (Cares.config_ c)));
      [reflexivity | lia].
  - destruct IH as [IHc IHh]; [lia |]. rewrite Nat.iter_succ.
    set (ck := Nat.iter k (note_failure ranges_sort) c) in *.
    assert (Hs' : Config.servers (Cares.config_ ck) = [srv]) by congruence.
    destruct (note_failure_lone ck srv _ Hsort Hs' He IHh) as [Hc' Hh'].
    split; [congruence |].
    rewrite Hh'. cbn [Cares.healthy Cares.error_count Cares.avg_latency].
    rewrite IHc.
    destruct (Z.leb_spec (Z.of_nat k)
                (Config.server_error_threshold (Cares.config_ c))); [| lia].
    unfold wrap32. rewrite Z.mod_small by lia.
    replace (Z.of_nat k + 1) with (Z.of_nat (S k)) by lia.
    f_equal. f_equal.
    destruct (Z.ltb_spec (Config.server_error_threshold (Cares.config_ c))
                (Z.of_nat (S k)));
      destruct (Z.leb_spec (Z.of_nat (S k))
                  (Config.server_error_threshold (Cares.config_ c)));
      reflexivity || lia.
Qed.

(** X24: when the only configured server keeps failing, its error count
    after [k] failures is [k] and it is marked unhealthy by failure number
    [server_error_threshold + 1], not earlier; the failure after that finds
    the record reset by [selectServer] and counts from 1 again. *)
Theorem lone_server_failure_threshold (c : Cares.t)
  (srv : Config.DNSServerConfig) (avg : Z) (k : nat) :
  (∀ l, Permutation (ranges_sort l) l) →
  Config.servers (Cares.config_ c) = [srv] →
  Config.enabled srv = true →
  Cares.server_health_ c !! Config.address srv
  = Some (Cares.mkHealth true avg 0) →
  0 ≤ Config.server_error_threshold (Cares.config_ c) < 2 ^ 32 - 1 →
  let threshold := Config.server_error_threshold (Cares.config_ c) in
  (Z.of_nat k ≤ threshold + 1 →
   Cares.server_health_ (Nat.iter k (note_failure ranges_sort) c)
     !! Config.address srv
   = Some (Cares.mkHealth (Z.of_nat k <=? threshold) avg (Z.of_nat k)))
  ∧ (Z.of_nat k = threshold + 2 →
     Cares.server_health_ (Nat.iter k (note_failure ranges_sort) c)
       !! Config.address srv
     = Some (Cares.mkHealth (1 <=? threshold) avg 1)).
Proof.
  intros Hsort Hs He Hh Hthr. cbv zeta. split.
  - intros Hk. now apply lone_failures.
  - intros Hk. destruct k as [|k]; [lia |]. rewrite Nat.iter_succ.
    destruct (lone_failures c srv avg k Hsort Hs He Hh Hthr) as [Hc Hk'];
      [lia |].
    set (ck := Nat.iter k (note_failure ranges_sort) c) in *.
    assert (Hs' : Config.servers (Cares.config_ ck) = [srv]) by congruence.
    destruct (note_failure_lone ck srv _ Hsort Hs' He Hk') as [_ Hh'].
    rewrite Hh'. cbn [Cares.healthy Cares.error_count Cares.avg_latency].
    rewrite Hc.
    destruct (Z.leb_spec (Z.of_nat k)
                (Config.server_error_threshold (Cares.config_ c))); [lia |].
    change (wrap32 (0 + 1)) with 1.
    f_equal. f_equal.
    destruct (Z.ltb_spec (Config.server_error_threshold (Cares.config_ c)) 1);
      destruct (Z.leb_spec 1 (Config.server_error_threshold (Cares.config_ c)));
      reflexivity || lia.
Qed.

Lemma callbacks_app (a b : list Effect) :
  callbacks (a ++ b) = callbacks a ++ callbacks b.
Proof.
  induction a as [|e a IH]; [reflexivity |].
  destruct e; cbn; now rewrite IH.
Qed.

Lemma note_success_frame (latency : Z) (st : t) :
  active_contexts_ (note_success ranges_sort latency st) = active_contexts_ st
  ∧ initialized_ (note_success ranges_sort latency st) = initialized_ st.
Proof.
  unfold note_success.
  destruct (Cares.selectServer ranges_sort (core st)); split; reflexivity.
Qed.

Lemma handleResult_frame_contexts (pos : nat) (status : Z)
  (result : option (list Node)) (latency : Z) (st : t) :
  let out := handleResult ranges_sort ares_strerror pos status result latency
               st in
  callback <$> active_contexts_ out.1 = callback <$> active_contexts_ st
  ∧ initialized_ out.1 = initialized_ st
  ∧ ∀ g r, (g, r) ∈ callbacks out.2 →
           Some g ∈ callback <$> active_contexts_ st.
Proof.
  cbv zeta. unfold handleResult.
  destruct (active_contexts_ st !! pos) as [ctx|] eqn:Hctx; cbn [fst snd].
  - destruct (note_success_frame latency st) as [Hc Hi].
    assert (Hsame :
      active_contexts_
        (if status =? Ares.ARES_SUCCESS
         then note_success ranges_sort latency st
         else with_core (note_failure ranges_sort (core st)) st)
      = active_contexts_ st
      ∧ initialized_
          (if status =? Ares.ARES_SUCCESS
           then note_success ranges_sort latency st
           else with_core (note_failure ranges_sort (core st)) st)
        = initialized_ st).
    { destruct (status =? Ares.ARES_SUCCESS); [split; assumption |].
      split; reflexivity. }
    destruct Hsame as [-> ->]. cbn [active_contexts_ initialized_].
    split; [| split; [reflexivity |]].
    + rewrite list_fmap_insert. cbn [callback].
      apply list_insert_id. now rewrite list_lookup_fmap, Hctx.
    + intros g r Hin. destruct (callback ctx) as [f|] eqn:Hf;
        [| inversion Hin].
      cbn in Hin. apply list_elem_of_singleton in Hin. injection Hin as -> _.
      apply list_elem_of_fmap. exists ctx. split; [now symmetry |].
      eapply list_elem_of_lookup_2, Hctx.
  - split; [reflexivity | split; [reflexivity |]].
    intros g r Hin. inversion Hin.
Qed.

Lemma completions_frame (status : Z) (made : list (nat * Z)) (st : t) :
  let out := completions ranges_sort ares_strerror status made st in
  callback <$> active_contexts_ out.1 = callback <$> active_contexts_ st
  ∧ ∀ g r, (g, r) ∈ callbacks out.2 →
           Some g ∈ callback <$> active_contexts_ st.
Proof.
  cbv zeta. revert st. induction made as [|[pos latency] made IH]; intros st.
  - cbn. split; [reflexivity |]. intros g r Hin. inversion Hin.
  - cbn [completions].
    pose proof (handleResult_frame_contexts pos status None latency st) as H.
    cbv zeta in H.
    destruct (handleResult ranges_sort ares_strerror pos status None latency
                st) as [st1 effects].
    cbn [fst snd] in H. destruct H as (Hc & _ & He).
    specialize (IH st1).
    destruct (completions ranges_sort ares_strerror status made st1)
      as [st2 more].
    cbn [fst snd] in *. destruct IH as [IHc IHe].
    split; [congruence |].
    intros g r Hin. rewrite callbacks_app in Hin.
    apply elem_of_app in Hin as [Hin | Hin]; [eauto |].
    rewrite <- Hc. eauto.
Qed.

Lemma cancel_loop_callbacks (contexts : list QueryContext) (g : nat)
  (r : Resolver.ResolveResult) :
  (g, r) ∈ callbacks
             (omap (λ ctx,
                      (λ f, Callback f (status_only Ares.ARES_ECANCELLED))
                        <$> callback ctx)
                   contexts)
  ↔ r = status_only Ares.ARES_ECANCELLED
    ∧ Some g ∈ callback <$> contexts.
Proof.
  induction contexts as [|ctx contexts IH].
  - cbn. split; [intros H; inversion H | intros [_ H]; inversion H].
  - cbn [omap list_omap fmap list_fmap]. destruct (callback ctx) as [f|];
      cbn [fmap option_fmap option_map callbacks].
    + rewrite !elem_of_cons, IH. split.
      * intros [H | [-> H]]; [injection H as -> ->; auto | auto].
      * intros [-> [H | H]]; [injection H as ->; auto | auto].
    + rewrite elem_of_cons, IH. split.
      * intros [-> H]. auto.
      * intros [-> [H | H]]; [discriminate | auto].
Qed.

Lemma shutdown_callbacks (during_cancel : list (nat * Z)) (st : t) (g : nat)
  (r : Resolver.ResolveResult) :
  (g, r) ∈ callbacks (shutdown ranges_sort ares_strerror during_cancel st).2 →
  Some g ∈ callback <$> active_contexts_ st.
Proof.
  unfold shutdown. destruct (initialized_ st); [| intros H; inversion H].
  pose proof (completions_frame Ares.ARES_ECANCELLED during_cancel
                (mk (core st) (channel_ st) false (active_contexts_ st)
                   (latency_history_ st))) as H.
  cbv zeta in H.
  destruct (completions _ _ _ _ _) as [st1 cancelled].
  cbn [fst snd active_contexts_] in *. destruct H as [Hc He].
  rewrite callbacks_app. intros Hin.
  apply elem_of_app in Hin as [Hin | Hin]; [eauto |].
  apply cancel_loop_callbacks in Hin as [_ Hin]. now rewrite <- Hc.
Qed.

(** X25: a context whose result has been delivered stays in
    [active_contexts_], marked completed, until the next clean-up; a
    [shutdown] that comes first invokes its callback a second time, with a
    bare ARES_ECANCELLED result.  After the shutdown no context is left, the
    strategy reports not initialized, and a [query] is answered at once with
    ARES_ENOTINITIALIZED. *)
Theorem delivered_context_is_cancelled_at_shutdown (st : t) (pos : nat)
  (ctx : QueryContext) (f : nat) (status : Z) (result : option (list Node))
  (latency : Z) (during_cancel : list (nat * Z)) (name : string)
  (cb : option nat) :
  initialized_ st = true →
  active_contexts_ st !! pos = Some ctx →
  callback ctx = Some f →
  let delivered :=
    handleResult ranges_sort ares_strerror pos status result latency st in
  let stopped :=
    shutdown ranges_sort ares_strerror during_cancel delivered.1 in
  callbacks delivered.2
  = [(f, Resolver.mkResult status (hostname ctx) (addresses status result)
           latency (ares_strerror status) false)]
  ∧ active_contexts_ delivered.1 !! pos
    = Some (mkContext (hostname ctx) (Some f) true)
  ∧ (f, status_only Ares.ARES_ECANCELLED) ∈ callbacks stopped.2
  ∧ active_contexts_ stopped.1 = []
  ∧ isInitialized stopped.1 = false
  ∧ query ranges_sort name cb stopped.1
    = (stopped.1, call cb (status_only Ares.ARES_ENOTINITIALIZED)).
Proof.
  intros Hinit Hctx Hf. cbv zeta.
  pose proof (handleResult_frame_contexts pos status result latency st) as H.
  cbv zeta in H. destruct H as (Hc & Hi & _).
  assert (Heffects :
    (handleResult ranges_sort ares_strerror pos status result latency st).2
    = [Callback f
         (Resolver.mkResult status (hostname ctx) (addresses status result)
            latency (ares_strerror status) false)]).
  { unfold handleResult. rewrite Hctx, Hf. reflexivity. }
  assert (Hpos :
    active_contexts_
      (handleResult ranges_sort ares_strerror pos status result latency st).1
      !! pos
    = Some (mkContext (hostname ctx) (Some f) true)).
  { unfold handleResult. rewrite Hctx, Hf. cbn [fst active_contexts_].
    apply list_lookup_insert_eq.
    destruct (note_success_frame latency st) as [Hlen _].
    destruct (status =? Ares.ARES_SUCCESS);
      [rewrite Hlen | cbn [with_core active_contexts_]];
      eapply lookup_lt_Some, Hctx. }
  destruct (handleResult ranges_sort ares_strerror pos status result latency
              st) as [st1 effects].
  cbn [fst snd] in *. subst effects.
  split; [reflexivity |]. split; [exact Hpos |].
  unfold shutdown. rewrite Hi, Hinit.
  pose proof (completions_frame Ares.ARES_ECANCELLED during_cancel
                (mk (core st1) (channel_ st1) false (active_contexts_ st1)
                   (latency_history_ st1))) as H.
  cbv zeta in H.
  destruct (completions _ _ _ _ _) as [st2 cancelled].
  cbn [fst snd active_contexts_] in *. destruct H as [Hc2 _].
  split; [| repeat split].
  rewrite callbacks_app. apply elem_of_app. right.
  apply cancel_loop_callbacks. split; [reflexivity |].
  rewrite Hc2, Hc. apply list_elem_of_fmap. exists ctx.
  split; [now symmetry |]. eapply list_elem_of_lookup_2, Hctx.
Qed.

(** X26: once [cleanupCompletedContexts] has run, a [shutdown] invokes only
    callbacks of queries that were registered and had not completed. *)
Theorem shutdown_after_cleanup_spares_completed (st : t)
  (during_cancel : list (nat * Z)) (g : nat) (r : Resolver.ResolveResult) :
  (g, r) ∈ callbacks
             (shutdown ranges_sort ares_strerror during_cancel
                (cleanupCompletedContexts st)).2 →
  ∃ ctx, ctx ∈ active_contexts_ st
         ∧ completed ctx = false
         ∧ callback ctx = Some g.
Proof.
  intros Hin. apply shutdown_callbacks in Hin.
  cbn [cleanupCompletedContexts active_contexts_] in Hin.
  apply list_elem_of_fmap in Hin as (ctx & Hcb & Hctx).
  apply list_elem_of_filter in Hctx as [Hcompleted Hctx].
  exists ctx. auto.
Qed.

End StrategyFacts.

Section StrategyScenarios.
Import Strategy StrategySamples.

Lemma insert_before_perm (x : Cares.Scored) (l : list Cares.Scored) :
  Permutation (Cares.insert_before x l) (x :: l).
Proof.
  induction l as [|y l IH]; cbn [Cares.insert_before]; [reflexivity |].
  destruct (Cares.by_score y x); [| reflexivity].
  rewrite IH. apply perm_swap.
Qed.

Lemma stable_sort_perm (l : list Cares.Scored) :
  Permutation (Cares.stable_sort l) l.
Proof.
  induction l as [|x l IH]; [reflexivity |].
  change (Cares.stable_sort (x :: l))
    with (Cares.insert_before x (Cares.stable_sort l)).
  rewrite insert_before_perm. now constructor.
Qed.

Lemma failed_construction_still_queries_witness :
  library_failed broken_library
  ∧ (query Cares.stable_sort "a.test" (Some 1%nat)
       (create Samples.default_config broken_library)).2
    = [GetAddrInfo false "a.test" false 0].
Proof.
  assert (H : library_failed broken_library) by (left; discriminate).
  split; [exact H |].
  apply (failed_construction_still_queries Cares.stable_sort
           Samples.default_config broken_library
           (Config.mkServer "114.114.114.114" 53 1 2000 true)
           [Config.mkServer "8.8.8.8" 53 1 2000 true;
            Config.mkServer "1.1.1.1" 53 1 2000 true]
           "a.test" (Some 1%nat) H eq_refl).
  discriminate.
Defined.

Lemma average_latency_over_recent_window_witness :
  Forall (λ x, 0 ≤ x < 2 ^ 56) [10; 20; 31]
  ∧ Cares.server_health_
      (core (fold_left (λ s latency, updateServerMetrics "8.8.8.8" latency s)
               [10; 20; 31] (create Samples.default_config working_library)))
      !! "8.8.8.8"%string
    = Some (Cares.mkHealth true 20 0).
Proof.
  assert (H : Forall (λ x, 0 ≤ x < 2 ^ 56) [10; 20; 31])
    by (repeat constructor; lia).
  split; [exact H |].
  apply (average_latency_over_recent_window "8.8.8.8" [10; 20; 31]
           (create Samples.default_config working_library)
           eq_refl ltac:(discriminate) H).
Defined.

Lemma lone_server_failure_threshold_witness :
  Config.enabled lone_server = true
  ∧ Cares.server_health_
      (Nat.iter 11 (note_failure Cares.stable_sort)
         (Cares.new (Samples.config_of [lone_server])))
      !! "10.0.0.1"%string
    = Some (Cares.mkHealth false 0 11).
Proof.
  split; [reflexivity |].
  apply (lone_server_failure_threshold Cares.stable_sort
           (Cares.new (Samples.config_of [lone_server])) lone_server 0 11
           stable_sort_perm eq_refl eq_refl eq_refl);
    cbn; lia.
Defined.

Lemma delivered_context_is_cancelled_at_shutdown_witness :
  active_contexts_ one_pending !! 0%nat
  = Some (mkContext "a.test" (Some 1%nat) false)
  ∧ (1%nat, status_only Ares.ARES_ECANCELLED)
    ∈ callbacks
        (shutdown Cares.stable_sort Samples.strerror []
           (handleResult Cares.stable_sort Samples.strerror 0
              Ares.ARES_SUCCESS
              (Some [mkNode AF_INET (Some "3.3.3.3"%string)]) 7
              one_pending).1).2.
Proof.
  split; [reflexivity |].
  apply (delivered_context_is_cancelled_at_shutdown Cares.stable_sort
           Samples.strerror one_pending 0
           (mkContext "a.test" (Some 1%nat) false) 1 Ares.ARES_SUCCESS
           (Some [mkNode AF_INET (Some "3.3.3.3"%string)]) 7 []
           "b.test" None eq_refl eq_refl eq_refl).
Defined.

Lemma shutdown_after_cleanup_spares_completed_witness :
  (1%nat, status_only Ares.ARES_ECANCELLED)
  ∈ callbacks
      (shutdown Cares.stable_sort Samples.strerror []
         (cleanupCompletedContexts one_pending)).2
  ∧ ∃ ctx, ctx ∈ active_contexts_ one_pending
           ∧ completed ctx = false
           ∧ callback ctx = Some 1%nat.
Proof.
  assert (H : (1%nat, status_only Ares.ARES_ECANCELLED)
              ∈ callbacks
                  (shutdown Cares.stable_sort Samples.strerror []
                     (cleanupCompletedContexts one_pending)).2)
    by (vm_compute; left).
  split; [exact H |].
  apply (shutdown_after_cleanup_spares_completed Cares.stable_sort
           Samples.strerror one_pending [] 1
           (status_only Ares.ARES_ECANCELLED) H).
Defined.

End StrategyScenarios.

(** ** The cache's hit and miss counters *)

Section CacheCounters.
Import LRUCache CacheLog.

Lemma get_counts_once (h : string) (n1 n2 : Z) (c : t) :
  (get h n1 n2 c).2 ≠ ErasedRead →
  wrap64 (hits_ (get h n1 n2 c).1 + misses_ (get h n1 n2 c).1)
  = wrap64 (hits_ c + misses_ c + 1).
Proof.
  unfold get.
  destruct (cache_ (cleanup n1 c) !! h) as [e|];
    [destruct (expired n2 e) |];
    cbn [fst snd hits_ misses_ cleanup]; try congruence; intros _;
    unfold wrap64;
    rewrite ?Zplus_mod_idemp_l, ?Zplus_mod_idemp_r; f_equal; lia.
Qed.

Lemma step_counts (c c' : t) (o : op) (n : Z) :
  step c o = Some c' →
  wrap64 (hits_ c + misses_ c) = wrap64 n →
  wrap64 (hits_ c' + misses_ c')
  = wrap64 (match o with
            | OpGet _ _ _ => n + 1
            | OpClear => 0
            | _ => n
            end).
Proof.
  intros Hstep H. destruct o as [h n1 n2 | h a now | h |].
  - apply step_get in Hstep as [Hr ->].
    rewrite get_counts_once by exact Hr. unfold wrap64 in *.
    rewrite <- Zplus_mod_idemp_l, H, Zplus_mod_idemp_l. reflexivity.
  - cbn [step] in Hstep. inversion Hstep; subst c'.
    unfold update. destruct (cache_ c !! h); [exact H |].
    destruct (decide _); [| exact H].
    unfold evict. destruct (last (lru_list_ c)); exact H.
  - cbn [step] in Hstep. inversion Hstep; subst c'.
    unfold remove. destruct (cache_ c !! h); exact H.
  - cbn [step] in Hstep. inversion Hstep; subst c'. reflexivity.
Qed.

(** X27: every [get] is counted exactly once, as a hit or as a miss: after
    any sequence of [get], [update], [remove] and [clear] on a new cache in
    which no [get] reads an entry it has erased, [hits_ + misses_] is the
    number of [get] calls since the last [clear] (in [size_t]
    arithmetic). *)
Theorem every_get_is_a_hit_or_a_miss (max_size : nat) (ttl : Z)
  (ops : list op) (c : t) :
  run ops (new max_size ttl) = Some c →
  wrap64 (hits_ c + misses_ c) = wrap64 (lookups ops).
Proof.
  unfold lookups.
  assert (H : ∀ c0 n, run ops c0 = Some c →
              wrap64 (hits_ c0 + misses_ c0) = wrap64 n →
              wrap64 (hits_ c + misses_ c)
              = wrap64 (fold_left
                          (λ n o,
                             match o with
                             | OpGet _ _ _ => n + 1
                             | OpClear => 0
                             | _ => n
                             end) ops n)).
  { induction ops as [|o ops IH]; intros c0 n Hrun Hn.
    - cbn in Hrun. inversion Hrun; subst. exact Hn.
    - apply run_cons in Hrun as (c1 & Hstep & Hrun).
      cbn [fold_left]. apply (IH c1); [exact Hrun |].
      now apply (step_counts c0). }
  intros Hrun. now apply (H (new max_size ttl) 0).
Qed.

Lemma every_get_is_a_hit_or_a_miss_witness :
  let ops := [OpUpdate "a" ["1.1.1.1"%string] 0;
              OpGet "a" 1 2; OpGet "b" 3 4] in
  ∃ c, run ops (new 2 1000) = Some c
       ∧ hits_ c = 1 ∧ misses_ c = 1
       ∧ wrap64 (hits_ c + misses_ c) = wrap64 (lookups ops).
Proof.
  cbv zeta. eexists. split; [vm_compute; reflexivity |].
  split; [reflexivity |]. split; [reflexivity |].
  apply (every_get_is_a_hit_or_a_miss 2 1000
           [OpUpdate "a" ["1.1.1.1"%string] 0;
            OpGet "a" 1 2; OpGet "b" 3 4]).
  vm_compute. reflexivity.
Defined.

End CacheCounters.

(** ** PluginManager *)

Section PluginFacts.
Import PluginManager.

(** X28: [createCache] hands the configuration to the factory registered
    last under that name and returns what it makes; registrations under
    other names, and registrations of query strategies, do not affect it;
    for a name never registered it returns null.  In particular the two
    look-ups of the built-in plugins in [DNSResolver::initialize] find the
    factories just registered, so that a strategy and an empty LRU cache of
    the configured size and ttl are always created. *)
Theorem created_by_the_registered_factory (pm : t) (name other : string)
  (factory : CacheFactory) (strategy : QueryStrategyFactory)
  (config : Config.CacheConfig) (lib : Strategy.Library)
  (resolver_config : Config.DNSResolverConfig) :
  createCache name config (registerCacheFactory name factory pm)
  = factory config
  ∧ (other ≠ name →
     createCache other config (registerCacheFactory name factory pm)
     = createCache other config pm)
  ∧ createCache other config (registerQueryStrategyFactory name strategy pm)
    = createCache other config pm
  ∧ createCache name config new = None
  ∧ builtin_plugins lib resolver_config
    = (Some (Strategy.create resolver_config lib),
       Some (LRUCache.new
               (Config.max_size (Config.cache resolver_config))
               (Config.ttl (Config.cache resolver_config)))).
Proof.
  unfold createCache, registerCacheFactory, registerQueryStrategyFactory.
  cbn [cacheFactories_ queryStrategyFactories_].
  split; [now rewrite lookup_insert_eq |].
  split; [intros Hne; now rewrite lookup_insert_ne by congruence |].
  split; [reflexivity |].
  split; [unfold new; cbn; now rewrite lookup_empty |].
  unfold builtin_plugins, createQueryStrategy, createCache,
    registerCacheFactory, registerQueryStrategyFactory.
  cbn [cacheFactories_ queryStrategyFactories_].
  now rewrite !lookup_insert_eq.
Qed.

End PluginFacts.

(** ** The resolver's closures during the strategy's shutdown *)

Section PipelineFacts.
Import Resolver Lifecycle Pipeline.

Variable ranges_sort : list Cares.Scored → list Cares.Scored.
Variable ares_strerror : Z → string.

Lemma handleQueryResult_gives_up (st : t) (n : Z) (result : ResolveResult)
  (cb : ResolveCallback) (rd : Readings) :
  completes st (result, rd) →
  retryable (status result) = true →
  Config.max_attempts (Config.retry (configManager_ st)) ≤ wrap32 n →
  handleQueryResult ares_strerror st n result cb rd
  = (with_metrics (record_result ares_strerror result rd)
       (with_cache (cache_get (hostname result) rd st).1 st),
     deliver_result st result cb).
Proof.
  intros [He Hm] Hretry Hmax.
  rewrite handleQueryResult_returns by assumption. cbv zeta.
  rewrite (retryable_not_success _ Hretry), Hretry. cbn [andb].
  destruct (Z.ltb_spec (wrap32 n)
              (Config.max_attempts (Config.retry (configManager_ st))));
    [lia | reflexivity].
Qed.

Lemma query_stopped (name : string) (id : nat) (s : Strategy.t) :
  Strategy.initialized_ s = false →
  Strategy.query ranges_sort name (Some id) s
  = (s, [Strategy.Callback id
           (Strategy.status_only Ares.ARES_ENOTINITIALIZED)]).
Proof. intros H. unfold Strategy.query. now rewrite H. Qed.

Lemma user_callbacks_deliver_result (st : t) (result : ResolveResult)
  (f : nat) :
  user_callbacks (deliver_result st result (Some f)) = [(f, result)]
  ∧ sleeps (deliver_result st result (Some f)) = []
  ∧ dispatched_query (deliver_result st result (Some f)) = None
  ∧ stalls (deliver_result st result (Some f)) = false.
Proof.
  unfold deliver_result. destruct (eventPublisher_ st); repeat split.
Qed.

Lemma invoke_handler_stopped (f : nat) (k : Z) (d : nat) :
  ∀ (n : Z) (w : World) (id : nat) (result : ResolveResult)
    (readings : list Readings),
    0 ≤ n → k < 2 ^ 32 → Z.of_nat d = k - n →
    stopped w →
    Config.max_attempts (Config.retry (configManager_ (resolver w))) = k →
    handlers w !! id = Some (n, (Some f : ResolveCallback)) →
    retryable (status result) = true →
    (d < length readings)%nat →
    Forall (λ rd, completes (resolver w) (result, rd)
                  ∧ completes (resolver w)
                      (Strategy.status_only Ares.ARES_ENOTINITIALIZED, rd))
      readings →
    ∃ w' trace,
      invoke_handler ranges_sort ares_strerror readings id result w
      = (w', trace, drop (S d) readings)
      ∧ stopped w'
      ∧ Config.max_attempts (Config.retry (configManager_ (resolver w'))) = k
      ∧ handlers w `prefix_of` handlers w'
      ∧ follows (resolver w) (resolver w')
      ∧ user_callbacks trace
        = [(f, if decide (d = 0%nat) then result
               else Strategy.status_only Ares.ARES_ENOTINITIALIZED)]
      ∧ length (sleeps trace) = d
      ∧ stalls trace = false.
Proof.
  induction d as [|d IH];
    intros n w id result readings Hn Hk Hd [Hflag Hstop] Hmax Hh Hretry Hlen
      Hends;
    (destruct readings as [|rd later]; [cbn in Hlen; lia |]);
    apply Forall_cons in Hends as [[Hend Hnext] Hends].
  - destruct (user_callbacks_deliver_result (resolver w) result f)
      as (Hu & Hs & Hq & Hst).
    eexists _, _. split.
    { cbn [invoke_handler]. rewrite Hh.
      rewrite handleQueryResult_gives_up
        by first [exact Hend | exact Hretry
                 | rewrite Hmax; unfold wrap32; rewrite Z.mod_small by lia;
                   lia].
      rewrite Hq. reflexivity. }
    cbn [resolver strategy handlers].
    split; [split; [exact Hflag | exact Hstop] |].
    split; [exact Hmax |]. split; [reflexivity |].
    split; [now apply record_follows |].
    split; [exact Hu |]. split; [now rewrite Hs | exact Hst].
  - pose proof (handleQueryResult_retry_follows ares_strerror (resolver w) n
                  result rd Hend) as Hfollows.
    pose (r1 := with_metrics
                  (BasicMetrics.recordRetry (hostname result) (n + 1))
                  (with_metrics (record_result ares_strerror result rd)
                     (with_cache (cache_get (hostname result) rd (resolver w)).1
                        (resolver w)))).
    pose (w2 := mkWorld r1 (strategy w) (handlers w ++ [(n + 1, Some f)])).
    destruct (IH (n + 1) w2 (length (handlers w))
                (Strategy.status_only Ares.ARES_ENOTINITIALIZED) later)
      as (w' & more & Hrun & Hstopped & Hmax' & Hprefix & Hf'
          & Hu & Hs & Hst); try lia.
    + split; [exact Hflag | exact Hstop].
    + exact Hmax.
    + subst w2. cbn [handlers]. now rewrite list_lookup_middle.
    + reflexivity.
    + cbn [length] in Hlen. lia.
    + eapply Forall_impl; [exact Hends |].
      intros rd' [_ H2]. cbn beta.
      assert (H3 : completes (resolver w2)
                     (Strategy.status_only Ares.ARES_ENOTINITIALIZED, rd'))
        by (eapply follows_completes; [exact Hfollows | exact H2]).
      split; exact H3.
    + eexists _, _. split.
      { cbn [invoke_handler]. rewrite Hh.
        rewrite handleQueryResult_retry
          by first [exact Hend | exact Hretry
                   | rewrite Hmax; unfold wrap32; rewrite Z.mod_small by lia;
                     lia].
        rewrite Hflag. cbn [dispatched_query].
        unfold start_query. cbn [strategy handlers resolver].
        rewrite query_stopped by exact Hstop.
        cbn [Strategy.callbacks].
        match goal with
        | |- context [invoke_handler ?a1 ?a2 ?a3 ?a4 ?a5 ?a6] =>
            replace (invoke_handler a1 a2 a3 a4 a5 a6)
              with (w', more, drop (S d) later)
              by (symmetry; exact Hrun)
        end.
        reflexivity. }
      split; [exact Hstopped |]. split; [exact Hmax' |].
      split; [etrans; [| exact Hprefix]; now apply prefix_app_r |].
      split; [eapply follows_trans; [exact Hfollows | exact Hf'] |].
      cbn [user_callbacks sleeps app length stalls existsb orb].
      rewrite Hu, Hs.
      split; [| split; [reflexivity | exact Hst]].
      destruct (decide (d = 0%nat)); destruct (decide (S d = 0%nat));
        try lia; reflexivity.
Qed.

Lemma sleeps_app (a b : list Effect) : sleeps (a ++ b) = sleeps a ++ sleeps b.
Proof.
  induction a as [|e a IH]; [reflexivity |].
  destruct e; cbn; now rewrite IH.
Qed.

Lemma stalls_app (a b : list Effect) :
  stalls (a ++ b) = stalls a || stalls b.
Proof. apply existsb_app. Qed.

Lemma invoke_all_stopped (f : nat) (k n : Z) (id : nat)
  (calls : list (nat * ResolveResult)) :
  ∀ (w : World) (readings : list Readings),
    0 ≤ n < k → k < 2 ^ 32 →
    stopped w →
    Config.max_attempts (Config.retry (configManager_ (resolver w))) = k →
    handlers w !! id = Some (n, (Some f : ResolveCallback)) →
    Forall (λ c, c.1 = id ∧ retryable (status c.2) = true) calls →
    (length calls * S (Z.to_nat (k - n)) ≤ length readings)%nat →
    Forall (λ rd, Forall (λ c, completes (resolver w) (c.2, rd)) calls
                  ∧ completes (resolver w)
                      (Strategy.status_only Ares.ARES_ENOTINITIALIZED, rd))
      readings →
    ∃ w' trace rest,
      invoke_all ranges_sort ares_strerror readings calls w = (w', trace, rest)
      ∧ user_callbacks trace
        = replicate (length calls)
            (f, Strategy.status_only Ares.ARES_ENOTINITIALIZED)
      ∧ length (sleeps trace) = (length calls * Z.to_nat (k - n))%nat.
Proof.
  induction calls as [|[id' result] calls IH];
    intros w readings Hn Hk Hstopped Hmax Hh Hall Hlen Hends.
  - cbn. eauto 10.
  - apply Forall_cons in Hall as [[Hid Hretry] Hall]. cbn [fst snd] in *.
    subst id'.
    destruct (invoke_handler_stopped f k (Z.to_nat (k - n)) n w id result
                readings) as (w1 & trace & Hrun & Hstopped1 & Hmax1
                              & Hprefix & Hfollows & Hu & Hs & Hst);
      try assumption; try lia.
    { cbn [length] in Hlen. rewrite Nat.mul_succ_l in Hlen.
      remember (length calls * S (Z.to_nat (k - n)))%nat as p. lia. }
    { eapply Forall_impl; [exact Hends |].
      intros rd [H1 H2]. cbn beta. apply Forall_cons in H1 as [H1 _].
      split; [exact H1 | exact H2]. }
    destruct (IH w1 (drop (S (Z.to_nat (k - n))) readings))
      as (w2 & more & rest2 & Hrun2 & Hu2 & Hs2);
      try assumption.
    { eapply prefix_lookup_Some; eassumption. }
    { rewrite length_drop. cbn [length] in Hlen.
      rewrite Nat.mul_succ_l in Hlen.
      remember (length calls * S (Z.to_nat (k - n)))%nat as p. lia. }
    { apply Forall_drop. eapply Forall_impl; [exact Hends |].
      intros rd [H1 H2]. cbn beta. apply Forall_cons in H1 as [_ H1].
      split.
      - eapply Forall_impl; [exact H1 |].
        intros c Hc. cbn beta. eapply follows_completes; eauto.
      - eapply follows_completes; eauto. }
    eexists _, _, _. split.
    { cbn [invoke_all]. rewrite Hrun, Hst, Hrun2. reflexivity. }
    rewrite user_callbacks_app, sleeps_app, length_app, Hu, Hu2, Hs, Hs2.
    split; [| cbn [length]; rewrite Nat.mul_succ_l;
              remember (length calls * Z.to_nat (k - n))%nat as p; lia].
    destruct (decide (Z.to_nat (k - n) = 0%nat)); [lia | reflexivity].
Qed.

(** X29: when the resolver is shut down while one query is pending with the
    strategy and its closure has retries left, the loop of the strategy's
    [shutdown] invokes the closure with a bare ARES_ECANCELLED, which the
    resolver treats as a failure to retry: it sleeps through the remaining
    back-off steps, each retry being answered with ARES_ENOTINITIALIZED by
    the strategy that is shutting down, and then hands the user's callback a
    result with ARES_ENOTINITIALIZED and an empty hostname.  When
    [ares_cancel] completes the query as well, all of this happens twice:
    the user's callback is invoked two times.  This is what happens when
    every run of the handler goes to its end: with the clock readings of
    each run, the cache read for the name of the query and for the empty
    name does not come to an entry it has erased, and [recordQuery]
    returns. *)
Theorem shutdown_retries_pending_query (w : World) (name : string)
  (id f : nat) (n latency : Z) (readings : list Readings) :
  let k := Config.max_attempts (Config.retry (configManager_ (resolver w))) in
  initialized_ (resolver w) = true →
  activeQueryStrategy_ (resolver w) = true →
  Strategy.initialized_ (strategy w) = true →
  Strategy.active_contexts_ (strategy w)
  = [Strategy.mkContext name (Some id) false] →
  handlers w !! id = Some (n, (Some f : ResolveCallback)) →
  0 ≤ n < k →
  k < 2 ^ 32 →
  (2 * S (Z.to_nat (k - n)) ≤ length readings)%nat →
  Forall (λ rd, reads_erased name rd (resolver w) = false
                ∧ reads_erased "" rd (resolver w) = false
                ∧ metrics_return rd (resolver w) = true) readings →
  let quiet := shutdown ranges_sort ares_strerror [] readings w in
  let cancelled :=
    shutdown ranges_sort ares_strerror [(0%nat, latency)] readings w in
  user_callbacks quiet.2
  = [(f, Strategy.status_only Ares.ARES_ENOTINITIALIZED)]
  ∧ length (sleeps quiet.2) = Z.to_nat (k - n)
  ∧ user_callbacks cancelled.2
    = [(f, Strategy.status_only Ares.ARES_ENOTINITIALIZED);
       (f, Strategy.status_only Ares.ARES_ENOTINITIALIZED)]
  ∧ length (sleeps cancelled.2) = (2 * Z.to_nat (k - n))%nat.
Proof.
  cbv zeta. intros Hinit Hflag Hsinit Hctxs Hh Hn Hk Hlen Hends.
  assert (Hquiet_ends :
    Forall (λ rd,
              Forall (λ c : nat * ResolveResult,
                        completes
                          (mk false (configManager_ (resolver w))
                             (metrics_ (resolver w))
                             (eventPublisher_ (resolver w))
                             true (activeCache_ (resolver w))
                             (active_contexts_ (resolver w))) (c.2, rd))
                [(id, Strategy.status_only Ares.ARES_ECANCELLED)]
              ∧ completes
                  (mk false (configManager_ (resolver w))
                     (metrics_ (resolver w))
                     (eventPublisher_ (resolver w))
                     true (activeCache_ (resolver w))
                     (active_contexts_ (resolver w)))
                  (Strategy.status_only Ares.ARES_ENOTINITIALIZED, rd))
      readings).
  { eapply Forall_impl; [exact Hends |].
    intros rd (H1 & H2 & H3). cbn beta.
    split; [repeat constructor; assumption | split; assumption]. }
  assert (Hcancelled_ends :
    Forall (λ rd,
              Forall (λ c : nat * ResolveResult,
                        completes
                          (mk false (configManager_ (resolver w))
                             (metrics_ (resolver w))
                             (eventPublisher_ (resolver w))
                             true (activeCache_ (resolver w))
                             (active_contexts_ (resolver w))) (c.2, rd))
                [(id, mkResult Ares.ARES_ECANCELLED name [] latency
                        (ares_strerror Ares.ARES_ECANCELLED) false);
                 (id, Strategy.status_only Ares.ARES_ECANCELLED)]
              ∧ completes
                  (mk false (configManager_ (resolver w))
                     (metrics_ (resolver w))
                     (eventPublisher_ (resolver w))
                     true (activeCache_ (resolver w))
                     (active_contexts_ (resolver w)))
                  (Strategy.status_only Ares.ARES_ENOTINITIALIZED, rd))
      readings).
  { eapply Forall_impl; [exact Hends |].
    intros rd (H1 & H2 & H3). cbn beta.
    split; [repeat constructor; assumption | split; assumption]. }
  assert (Hquiet :
    Strategy.callbacks
      (Strategy.shutdown ranges_sort ares_strerror [] (strategy w)).2
    = [(id, Strategy.status_only Ares.ARES_ECANCELLED)]
    ∧ Strategy.initialized_
        (Strategy.shutdown ranges_sort ares_strerror [] (strategy w)).1
      = false).
  { unfold Strategy.shutdown. rewrite Hsinit.
    cbn [Strategy.completions Strategy.active_contexts_ fst snd app].
    rewrite Hctxs. split; reflexivity. }
  assert (Hcancelled :
    Strategy.callbacks
      (Strategy.shutdown ranges_sort ares_strerror [(0%nat, latency)]
         (strategy w)).2
    = [(id, mkResult Ares.ARES_ECANCELLED name [] latency
              (ares_strerror Ares.ARES_ECANCELLED) false);
       (id, Strategy.status_only Ares.ARES_ECANCELLED)]
    ∧ Strategy.initialized_
        (Strategy.shutdown ranges_sort ares_strerror [(0%nat, latency)]
           (strategy w)).1
      = false).
  { unfold Strategy.shutdown. rewrite Hsinit.
    cbn [Strategy.completions]. unfold Strategy.handleResult.
    cbn [Strategy.active_contexts_]. rewrite Hctxs.
    cbn [lookup list_lookup Strategy.callback Strategy.hostname].
    split; reflexivity. }
  unfold shutdown, Lifecycle.shutdown. rewrite Hinit, Hflag.
  split; [| split; [| split]].
  - destruct Hquiet as [Hcalls Hstop].
    destruct (Strategy.shutdown ranges_sort ares_strerror [] (strategy w))
      as [s1 effects]. cbn [fst snd] in *. rewrite Hcalls.
    destruct (invoke_all_stopped f _ n id
                [(id, Strategy.status_only Ares.ARES_ECANCELLED)]
                (mkWorld
                   (mk false (configManager_ (resolver w))
                      (metrics_ (resolver w)) (eventPublisher_ (resolver w))
                      true (activeCache_ (resolver w))
                      (active_contexts_ (resolver w)))
                   s1 (handlers w))
                readings Hn Hk)
      as (w' & trace & rest & Hrun & Hu & _);
      [split; [reflexivity | exact Hstop] | reflexivity | exact Hh
       | repeat constructor | cbn [length]; lia | assumption |].
    rewrite Hrun. exact Hu.
  - destruct Hquiet as [Hcalls Hstop].
    destruct (Strategy.shutdown ranges_sort ares_strerror [] (strategy w))
      as [s1 effects]. cbn [fst snd] in *. rewrite Hcalls.
    destruct (invoke_all_stopped f _ n id
                [(id, Strategy.status_only Ares.ARES_ECANCELLED)]
                (mkWorld
                   (mk false (configManager_ (resolver w))
                      (metrics_ (resolver w)) (eventPublisher_ (resolver w))
                      true (activeCache_ (resolver w))
                      (active_contexts_ (resolver w)))
                   s1 (handlers w))
                readings Hn Hk)
      as (w' & trace & rest & Hrun & _ & Hs);
      [split; [reflexivity | exact Hstop] | reflexivity | exact Hh
       | repeat constructor | cbn [length]; lia | assumption |].
    rewrite Hrun. cbn [snd]. rewrite Hs.
    cbn [length]. lia.
  - destruct Hcancelled as [Hcalls Hstop].
    destruct (Strategy.shutdown ranges_sort ares_strerror [(0%nat, latency)]
                (strategy w)) as [s1 effects].
    cbn [fst snd] in *. rewrite Hcalls.
    destruct (invoke_all_stopped f _ n id
                [(id, mkResult Ares.ARES_ECANCELLED name [] latency
                        (ares_strerror Ares.ARES_ECANCELLED) false);
                 (id, Strategy.status_only Ares.ARES_ECANCELLED)]
                (mkWorld
                   (mk false (configManager_ (resolver w))
                      (metrics_ (resolver w)) (eventPublisher_ (resolver w))
                      true (activeCache_ (resolver w))
                      (active_contexts_ (resolver w)))
                   s1 (handlers w))
                readings Hn Hk)
      as (w' & trace & rest & Hrun & Hu & _);
      [split; [reflexivity | exact Hstop] | reflexivity | exact Hh
       | repeat constructor | cbn [length]; lia | assumption |].
    rewrite Hrun. exact Hu.
  - destruct Hcancelled as [Hcalls Hstop].
    destruct (Strategy.shutdown ranges_sort ares_strerror [(0%nat, latency)]
                (strategy w)) as [s1 effects].
    cbn [fst snd] in *. rewrite Hcalls.
    destruct (invoke_all_stopped f _ n id
                [(id, mkResult Ares.ARES_ECANCELLED name [] latency
                        (ares_strerror Ares.ARES_ECANCELLED) false);
                 (id, Strategy.status_only Ares.ARES_ECANCELLED)]
                (mkWorld
                   (mk false (configManager_ (resolver w))
                      (metrics_ (resolver w)) (eventPublisher_ (resolver w))
                      true (activeCache_ (resolver w))
                      (active_contexts_ (resolver w)))
                   s1 (handlers w))
                readings Hn Hk)
      as (w' & trace & rest & Hrun & _ & Hs);
      [split; [reflexivity | exact Hstop] | reflexivity | exact Hh
       | repeat constructor | cbn [length]; lia | assumption |].
    rewrite Hrun. cbn [snd]. rewrite Hs.
    cbn [length]. lia.
Qed.

End PipelineFacts.

Section PipelineScenarios.
Import Resolver Lifecycle Pipeline StrategySamples.

Lemma shutdown_retries_pending_query_witness :
  handlers pending_world !! 1%nat = Some (0, Some 9%nat)
  ∧ user_callbacks
      (shutdown Cares.stable_sort Samples.strerror [(0%nat, 7)]
         (replicate 8 (Samples.at_time 0)) pending_world).2
    = [(9%nat, Strategy.status_only Ares.ARES_ENOTINITIALIZED);
       (9%nat, Strategy.status_only Ares.ARES_ENOTINITIALIZED)].
Proof.
  split; [reflexivity |].
  apply (shutdown_retries_pending_query Cares.stable_sort Samples.strerror
           pending_world "a.test" 1 9 0 7 (replicate 8 (Samples.at_time 0))
           eq_refl eq_refl eq_refl eq_refl eq_refl);
    [cbn; lia | cbn; lia | cbn; lia |].
  repeat constructor.
Defined.

End PipelineScenarios.
